(** * Synchronator: a shallow embedding of [Synchronator.py]

    The module synchronises a local directory tree with a Dropbox app
    folder.  The Python source is a script for Python 2 (it pickles through
    text-mode files, and it deletes from a dictionary while looping over
    [keys()], which is a list snapshot there), and this is the semantics
    embedded here.

    The program is stateful and raises exceptions, so every method is a
    computation in a state-and-exception monad over a [World]: the
    [DropboxState] object, the local file tree, the clock, the Dropbox app
    folder and a log of what the program printed and called.  The state
    file is kept apart from the tree, which the local scan does too.

    [__process_remote_entries] uses [dbx] without having it as a parameter;
    in the script this is the global of the main block, the session every
    other call is made on. *)

From Stdlib Require Import ZArith Ascii.
From stdpp Require Import gmap strings list fin_maps pretty.

Local Open Scope Z_scope.

(** ** Strings and POSIX paths *)

Module Path.

Definition sep : ascii := "/"%char.

(** [s.startswith(p)] and [s.endswith(p)] *)
Definition startswith (s p : string) : bool := String.prefix p s.
Definition endswith (s p : string) : bool :=
  String.prefix (String.rev p) (String.rev s).

(** [s[n:]] *)
Fixpoint drop (n : nat) (s : string) : string :=
  match n, s with
  | O, _ => s
  | S n', String _ s' => drop n' s'
  | S _, EmptyString => EmptyString
  end.

(** [s.split(os.path.sep)] *)
Fixpoint split (s : string) : list string :=
  match s with
  | EmptyString => [EmptyString]
  | String c s' =>
      if Ascii.eqb c sep then EmptyString :: split s'
      else match split s' with
           | p :: ps => String c p :: ps
           | [] => [String c EmptyString]
           end
  end.

(** [(p[:i], p[i:])] for [i = p.rfind('/') + 1] *)
Fixpoint cut_last (p : string) : string * string :=
  match p with
  | EmptyString => (EmptyString, EmptyString)
  | String c p' =>
      let '(h, t) := cut_last p' in
      if Ascii.eqb c sep then (String c h, t)
      else match h with
           | EmptyString => (EmptyString, String c t)
           | _ => (String c h, t)
           end
  end.

Fixpoint all_sep (s : string) : bool :=
  match s with
  | EmptyString => true
  | String c s' => Ascii.eqb c sep && all_sep s'
  end.

Fixpoint rstrip_sep (s : string) : string :=
  match s with
  | EmptyString => EmptyString
  | String c s' =>
      match rstrip_sep s' with
      | EmptyString => if Ascii.eqb c sep then EmptyString else String c EmptyString
      | r => String c r
      end
  end.

(** [os.path.split(p)] of posixpath *)
Definition os_path_split (p : string) : string * string :=
  let '(h, t) := cut_last p in
  (if all_sep h then h else rstrip_sep h, t).

(** [os.path.join(a, b)] of posixpath *)
Definition os_path_join (a b : string) : string :=
  if startswith b "/" then b
  else if bool_decide (a = "") || endswith a "/" then a +:+ b
  else a +:+ "/" +:+ b.

(** The path and its ancestors, deepest first: for ["a/b/c"] the list
    ["a/b/c"; "a/b"; "a"].  The paths of the tree are relative and have no
    empty component. *)
Fixpoint prefixes_from (cur : string) (parts : list string) : list string :=
  match parts with
  | [] => []
  | x :: xs =>
      let cur' := if bool_decide (cur = "") then x else cur +:+ "/" +:+ x in
      cur' :: prefixes_from cur' xs
  end.
Definition ancestry (p : string) : list string :=
  reverse (prefixes_from "" (split p)).

End Path.

(** ** Data model *)

(** The dictionary [{'rev': ..., 'modified': ...}] kept for a path. *)
Record FileRecord := { meta_rev : string; meta_modified : Z }.

(** [class DropboxState]: the two dictionaries, keyed by the path relative
    to the working directory. *)
Record DropboxState := {
  local_files : gmap string FileRecord;
  remote_files : gmap string FileRecord
}.

(** [DropboxState.__init__] *)
Definition new_state : DropboxState :=
  {| local_files := ∅; remote_files := ∅ |}.

(** A file or directory of the local tree, as [os.stat] shows it.  The
    contents of a file do not matter to the synchronisation, its length and
    its modification time do. *)
Record node := { is_dir : bool; mtime : Z; fsize : Z }.

(** What [read] returned: the bytes [d_off, d_off + d_len) of the file being
    uploaded. *)
Record data := { d_off : Z; d_len : Z }.

(** The part of the Dropbox SDK the script uses. *)
Inductive WriteMode := add | overwrite.
Record UploadSessionCursor := { session_id : nat; offset : Z }.
Record CommitInfo := { ci_path : string; ci_mode : WriteMode; ci_mute : bool }.

(** An entry of a listing; the name, id, dates and content hash, which the
    script reads and does not use, are left out. *)
Inductive Metadata :=
| FileMetadata (path_display : string) (rev : string)
| FolderMetadata (path_display : string).

Record ListFolderResult := {
  entries : list Metadata;
  cursor : list Metadata;
  has_more : bool
}.

(** The app folder on Dropbox.  An object is addressed by its path from the
    root of the folder, which starts with ["/"]: this is the [path_display]
    of a listing, and the path [upload] and [download_remote] build with
    [os.path.join('/', path)].  A call may also name an object by a
    reference, [id:...] or [ns:...]; [refs] is what Dropbox resolves the
    references to, the path of an object.  The table is Dropbox's: the
    script never makes a reference, and the references of the objects made
    during a run are not entered here. *)
Inductive robject := RFile (r : string) (sz : Z) | RFolder.

Record Dropbox := {
  objects : gmap string robject;
  refs : gmap string string;
  sessions : gmap nat Z;
  session_counter : nat;
  rev_counter : nat;
  page_extra : nat
}.

(** What a run prints and what it asks of Dropbox and of the file system, in
    order.  The progress dots of a chunked upload and the banners are left
    out. *)
Inductive event :=
| Uploading (path : string) (because : option string)
| Downloading (path : string) (because : option string)
| DeletingLocally (path : string)
| DeletingOnDropbox (path : string)
| MakingDirectory (path : string)
| Os_remove (path : string)
| Os_makedirs (path : string)
| Call_files_list_folder (path : string) (recursive : bool)
| Call_files_list_folder_continue
| Call_files_download_to_file (download_path path : string)
| Call_files_upload (f : data) (path : string) (mode : WriteMode) (mute : bool)
| Call_files_upload_session_start (f : data) (close : bool)
| Call_files_upload_session_append_v2
    (f : data) (cursor : option UploadSessionCursor) (close : bool)
| Call_files_upload_session_finish
    (f : data) (cursor : option UploadSessionCursor) (commit : CommitInfo)
| Call_files_delete (path : string).

Record World := {
  state : DropboxState;
  tree : gmap string node;
  now : Z;
  dbx : Dropbox;
  log : list event
}.

Definition with_state (f : DropboxState → DropboxState) (w : World) : World :=
  {| state := f (state w); tree := tree w; now := now w; dbx := dbx w; log := log w |}.
Definition with_tree (f : gmap string node → gmap string node) (w : World) : World :=
  {| state := state w; tree := f (tree w); now := now w; dbx := dbx w; log := log w |}.
Definition with_now (f : Z → Z) (w : World) : World :=
  {| state := state w; tree := tree w; now := f (now w); dbx := dbx w; log := log w |}.
Definition with_dbx (f : Dropbox → Dropbox) (w : World) : World :=
  {| state := state w; tree := tree w; now := now w; dbx := f (dbx w); log := log w |}.
Definition with_log (f : list event → list event) (w : World) : World :=
  {| state := state w; tree := tree w; now := now w; dbx := dbx w; log := f (log w) |}.

Definition set_local_files (f : gmap string FileRecord → gmap string FileRecord)
    (s : DropboxState) : DropboxState :=
  {| local_files := f (local_files s); remote_files := remote_files s |}.
Definition set_remote_files (f : gmap string FileRecord → gmap string FileRecord)
    (s : DropboxState) : DropboxState :=
  {| local_files := local_files s; remote_files := f (remote_files s) |}.
Definition set_objects (f : gmap string robject → gmap string robject)
    (d : Dropbox) : Dropbox :=
  {| objects := f (objects d); refs := refs d; sessions := sessions d;
     session_counter := session_counter d; rev_counter := rev_counter d;
     page_extra := page_extra d |}.
Definition set_sessions (f : gmap nat Z → gmap nat Z) (d : Dropbox) : Dropbox :=
  {| objects := objects d; refs := refs d; sessions := f (sessions d);
     session_counter := session_counter d; rev_counter := rev_counter d;
     page_extra := page_extra d |}.

(** ** Exceptions and the monad *)

Inductive errno := ENOENT | EEXIST | ENOTDIR | EISDIR | EPERM.

Inductive exn :=
| KeyError (key : string)
| OSError (e : errno) (path : string)
| IOError (e : errno) (path : string)
| AttributeError (attr : string)
| ValidationError (arg : string)
| ApiError (what : string).

(** A call returns, raises, or is cut off for lack of fuel.  The two [while]
    loops of the source are run with fuel; the lemmas [upload_loop_fuel] and
    [delta_loop_fuel] show that the fuel they are given is enough, and
    [upload_total], [execute_delta_total] and [main_total] that no run ends
    for lack of it. *)
Inductive result (A : Type) :=
| Ok (a : A)
| Raise (e : exn)
| Timeout.
Arguments Ok {A} a.
Arguments Raise {A} e.
Arguments Timeout {A}.

Definition M (A : Type) : Type := World → result A * World.

Definition ret {A} (a : A) : M A := λ w, (Ok a, w).
Definition raise {A} (e : exn) : M A := λ w, (Raise e, w).
Definition timeout {A} : M A := λ w, (Timeout, w).
Definition bind {A B} (m : M A) (k : A → M B) : M B :=
  λ w, match m w with
       | (Ok a, w') => k a w'
       | (Raise e, w') => (Raise e, w')
       | (Timeout, w') => (Timeout, w')
       end.

Notation "x <- m ;; k" := (bind m (λ x, k))
  (at level 100, m at next level, right associativity).
Notation "m ;; k" := (bind m (λ _, k))
  (at level 100, right associativity).

Definition get : M World := λ w, (Ok w, w).
Definition modify (f : World → World) : M unit := λ w, (Ok tt, f w).
Definition emit (e : event) : M unit := modify (with_log (λ l, l ++ [e])).

(** [try: m except: pass] *)
Definition try_except_pass (m : M unit) : M unit :=
  λ w, match m w with
       | (Raise _, w') => (Ok tt, w')
       | r => r
       end.

(** [for x in xs: body x] *)
Fixpoint for_each {A} (xs : list A) (body : A → M unit) : M unit :=
  match xs with
  | [] => ret tt
  | x :: xs' => body x ;; for_each xs' body
  end.

(** ** The [os] module on the local tree *)

Definition os_path_exists (p : string) : M bool :=
  w <- get ;; ret (bool_decide (is_Some (tree w !! p))).

Definition os_path_isfile (p : string) : M bool :=
  w <- get ;;
  ret (match tree w !! p with Some n => negb (is_dir n) | None => false end).

Definition os_path_getmtime (p : string) : M Z :=
  w <- get ;;
  match tree w !! p with
  | Some n => ret (mtime n)
  | None => raise (OSError ENOENT p)
  end.

Definition os_path_getsize (p : string) : M Z :=
  w <- get ;;
  match tree w !! p with
  | Some n => ret (fsize n)
  | None => raise (OSError ENOENT p)
  end.

(** [os.remove]: unlinks a file; a directory is refused. *)
Definition os_remove (p : string) : M unit :=
  emit (Os_remove p) ;;
  w <- get ;;
  match tree w !! p with
  | None => raise (OSError ENOENT p)
  | Some n =>
      if is_dir n then raise (OSError EPERM p)
      else modify (with_tree (delete p))
  end.

Definition os_mkdir (p : string) : M unit :=
  w <- get ;;
  match tree w !! p with
  | Some _ => raise (OSError EEXIST p)
  | None =>
      let head := (Path.os_path_split p).1 in
      let create :=
        modify (with_tree (<[p := {| is_dir := true; mtime := now w; fsize := 0 |}]>)) in
      if bool_decide (head = "") then create
      else match tree w !! head with
           | None => raise (OSError ENOENT p)
           | Some n => if is_dir n then create else raise (OSError ENOTDIR p)
           end
  end.

(** [os.makedirs]: creates the missing ancestors, then the directory. *)
Fixpoint makedirs_rec (chain : list string) : M unit :=
  match chain with
  | [] => ret tt
  | p :: parents =>
      (match parents with
       | head :: _ =>
           ex <- os_path_exists head ;;
           if negb ex then makedirs_rec parents else ret tt
       | [] => ret tt
       end) ;;
      os_mkdir p
  end.

Definition os_makedirs (p : string) : M unit :=
  emit (Os_makedirs p) ;; makedirs_rec (Path.ancestry p).

(** The source calls [os.makedir], which the [os] module does not have. *)
Definition os_makedir (p : string) : M unit := raise (AttributeError "makedir").

(** [open(path, 'r')]: the handle is the length of the file, the position is
    threaded by the caller. *)
Definition open_r (p : string) : M Z :=
  w <- get ;;
  match tree w !! p with
  | None => raise (IOError ENOENT p)
  | Some n => if is_dir n then raise (IOError EISDIR p) else ret (fsize n)
  end.

(** [f.read(n)] at position [pos] of a file of [sz] bytes: the data and the
    new position. *)
Definition read (sz pos n : Z) : data * Z :=
  let len := Z.max 0 (Z.min n (sz - pos)) in
  ({| d_off := pos; d_len := len |}, pos + len).

(** ** The Dropbox client

    The SDK object [dbx] is not part of the script; this is the behaviour of
    the calls the script makes.  The SDK checks a path argument against a
    pattern before it sends anything, and raises if the argument does not
    match.  The pattern has three alternatives: a path from the root of the
    app folder, which is ["/"] and any characters; a reference [ns:], one
    or more digits and then nothing or ["/"] and any characters but a
    newline; a reference [id:] and any characters but a newline.  What
    matches is sent, and Dropbox answers for the object the argument
    names. *)

Definition rooted (path : string) : bool := Path.startswith path "/".

(** any characters but a newline *)
Fixpoint no_newline (s : string) : bool :=
  match s with
  | EmptyString => true
  | String c s' => negb (Ascii.eqb c "010") && no_newline s'
  end.

Definition is_digit (c : ascii) : bool := Ascii.leb "0" c && Ascii.leb c "9".

(** One or more digits, then nothing or ["/"] and any characters but a
    newline; [seen] tells whether a digit was read. *)
Fixpoint digits_then_path (s : string) (seen : bool) : bool :=
  match s with
  | EmptyString => seen
  | String c s' =>
      if is_digit c then digits_then_path s' true
      else seen && Ascii.eqb c "/" && no_newline s'
  end.

Definition is_reference (path : string) : bool :=
  (Path.startswith path "id:" && no_newline (Path.drop 3 path))
  || (Path.startswith path "ns:" && digits_then_path (Path.drop 3 path) false).

(** The pattern of the SDK *)
Definition accepted (path : string) : bool := rooted path || is_reference path.

(** The path of the object an accepted argument names, if it names one. *)
Definition target (d : Dropbox) (path : string) : option string :=
  if rooted path then Some path else refs d !! path.

Definition fresh_rev (d : Dropbox) : string := "r" +:+ pretty (rev_counter d).

Definition bump_rev (d : Dropbox) : Dropbox :=
  {| objects := objects d; refs := refs d; sessions := sessions d;
     session_counter := session_counter d; rev_counter := S (rev_counter d);
     page_extra := page_extra d |}.

Definition bump_session (d : Dropbox) : Dropbox :=
  {| objects := objects d; refs := refs d; sessions := sessions d;
     session_counter := S (session_counter d); rev_counter := rev_counter d;
     page_extra := page_extra d |}.

Definition to_entry (kv : string * robject) : Metadata :=
  match kv.2 with
  | RFile r _ => FileMetadata kv.1 r
  | RFolder => FolderMetadata kv.1
  end.

Definition listing (d : Dropbox) : list Metadata :=
  to_entry <$> map_to_list (objects d).

(** One page of at most [S page_extra] entries; the cursor is what remains. *)
Definition page (d : Dropbox) (es : list Metadata) : ListFolderResult :=
  let rest := drop (S (page_extra d)) es in
  {| entries := take (S (page_extra d)) es;
     cursor := rest;
     has_more := match rest with [] => false | _ => true end |}.

Definition files_list_folder (path : string) (recursive : bool) : M ListFolderResult :=
  emit (Call_files_list_folder path recursive) ;;
  w <- get ;;
  ret (page (dbx w) (listing (dbx w))).

Definition files_list_folder_continue (cur : list Metadata) : M ListFolderResult :=
  emit Call_files_list_folder_continue ;;
  w <- get ;;
  ret (page (dbx w) cur).

(** Writing the downloaded file: [open(download_path, 'wb')] and the copy. *)
Definition save_body_to_file (download_path : string) (sz : Z) : M unit :=
  w <- get ;;
  let head := (Path.os_path_split download_path).1 in
  let write :=
    modify (with_tree (<[download_path :=
                           {| is_dir := false; mtime := now w; fsize := sz |}]>)) ;;
    modify (with_now (λ t, t + 1)) in
  match tree w !! download_path with
  | Some {| is_dir := true |} => raise (IOError EISDIR download_path)
  | _ =>
      if bool_decide (head = "") then write
      else match tree w !! head with
           | None => raise (IOError ENOENT download_path)
           | Some n => if is_dir n then write else raise (IOError ENOTDIR download_path)
           end
  end.

(** Returns the [rev] of the metadata. *)
Definition files_download_to_file (download_path path : string) : M string :=
  emit (Call_files_download_to_file download_path path) ;;
  w <- get ;;
  if negb (accepted path) then raise (ValidationError path)
  else match target (dbx w) path with
       | None => raise (ApiError "path/not_found")
       | Some key =>
           match objects (dbx w) !! key with
           | Some (RFile r sz) => save_body_to_file download_path sz ;; ret r
           | Some RFolder => raise (ApiError "path/not_file")
           | None => raise (ApiError "path/not_found")
           end
       end.

(** Committing [len] bytes at [path]: the new revision.  (Dropbox also
    makes the folders above [path]; they are not entered here.) *)
Definition commit (len : Z) (path : string) (mode : WriteMode) : M string :=
  w <- get ;;
  if negb (accepted path) then raise (ValidationError path)
  else
    match target (dbx w) path with
    | None => raise (ApiError "path/not_found")
    | Some key =>
        let store :=
          modify (with_dbx (λ d,
            bump_rev (set_objects (<[key := RFile (fresh_rev d) len]>) d))) ;;
          ret (fresh_rev (dbx w)) in
        match objects (dbx w) !! key, mode with
        | Some RFolder, _ => raise (ApiError "path/conflict/folder")
        | Some (RFile _ _), add => raise (ApiError "path/conflict/file")
        | _, _ => store
        end
    end.

Definition files_upload (f : data) (path : string) (mode : WriteMode) (mute : bool)
    : M string :=
  emit (Call_files_upload f path mode mute) ;;
  commit (d_len f) path mode.

(** Returns the [session_id] of the result. *)
Definition files_upload_session_start (f : data) (close : bool) : M nat :=
  emit (Call_files_upload_session_start f close) ;;
  w <- get ;;
  let sid := session_counter (dbx w) in
  modify (with_dbx (λ d, bump_session (set_sessions (<[sid := d_len f]>) d))) ;;
  ret sid.

(** The session must exist and have received exactly [offset] bytes. *)
Definition session_at (cur : option UploadSessionCursor) : M UploadSessionCursor :=
  w <- get ;;
  match cur with
  | None => raise (ValidationError "cursor")
  | Some c =>
      match sessions (dbx w) !! session_id c with
      | None => raise (ApiError "lookup_failed/not_found")
      | Some received =>
          if bool_decide (received = offset c) then ret c
          else raise (ApiError "lookup_failed/incorrect_offset")
      end
  end.

Definition files_upload_session_append_v2
    (f : data) (cur : option UploadSessionCursor) (close : bool) : M unit :=
  emit (Call_files_upload_session_append_v2 f cur close) ;;
  c <- session_at cur ;;
  modify (with_dbx (set_sessions (<[session_id c := offset c + d_len f]>))).

Definition files_upload_session_finish
    (f : data) (cur : option UploadSessionCursor) (ci : CommitInfo) : M string :=
  emit (Call_files_upload_session_finish f cur ci) ;;
  c <- session_at cur ;;
  r <- commit (offset c + d_len f) (ci_path ci) (ci_mode ci) ;;
  modify (with_dbx (set_sessions (delete (session_id c)))) ;;
  ret r.

(** Deleting a folder deletes what is below it. *)
Definition files_delete (path : string) : M unit :=
  emit (Call_files_delete path) ;;
  w <- get ;;
  if negb (accepted path) then raise (ValidationError path)
  else match target (dbx w) path with
       | None => raise (ApiError "path_lookup/not_found")
       | Some key =>
           match objects (dbx w) !! key with
           | None => raise (ApiError "path_lookup/not_found")
           | Some _ =>
               modify (with_dbx (set_objects (λ o,
                 filter (λ kv, Path.startswith kv.1 (key +:+ "/") = false)
                        (delete key o))))
           end
       end.

(** ** [class DropboxState] *)

(** [del d[path]] on the two dictionaries *)
Definition del_local_files (path : string) : M unit :=
  w <- get ;;
  match local_files (state w) !! path with
  | None => raise (KeyError path)
  | Some _ => modify (with_state (set_local_files (delete path)))
  end.

Definition del_remote_files (path : string) : M unit :=
  w <- get ;;
  match remote_files (state w) !! path with
  | None => raise (KeyError path)
  | Some _ => modify (with_state (set_remote_files (delete path)))
  end.

(** [self.local_files[path] = meta; self.remote_files[path] = meta] *)
Definition record_meta (path : string) (meta : FileRecord) : M unit :=
  modify (with_state (set_local_files (<[path := meta]>))) ;;
  modify (with_state (set_remote_files (<[path := meta]>))).

(** The first [read], then the [while not close] loop of [upload]: it
    returns the last data read and the cursor, for the finishing call. *)
Fixpoint upload_loop (fuel : nat) (sz pos : Z) (f : data) (close : bool)
    (sid : option nat) (session_cursor : option UploadSessionCursor) (off : Z)
    : M (data * option UploadSessionCursor) :=
  if close then ret (f, session_cursor)
  else
    match fuel with
    | O => timeout
    | S fuel' =>
        sid' <- match sid with
                | None => files_upload_session_start f close
                | Some s => files_upload_session_append_v2 f session_cursor close ;; ret s
                end ;;
        let off' := off + d_len f in
        let session_cursor' := Some {| session_id := sid'; offset := off' |} in
        let '(f', pos') := read sz pos 10000000 in
        upload_loop fuel' sz pos' f' (d_len f' <? 10000000) (Some sid')
          session_cursor' off'
    end.

Definition upload (path : string) (because : option string) : M unit :=
  emit (Uploading path because) ;;
  size <- os_path_getsize path ;;
  r <- (if 140000000 <? size then
          sz <- open_r path ;;
          let '(f, pos) := read sz 0 10000000 in
          last <-
            upload_loop (S (Z.to_nat (sz / 10000000))) sz pos f
              (d_len f <? 10000000) None None 0 ;;
          let mode := overwrite in
          let commit_info :=
            {| ci_path := Path.os_path_join "/" path; ci_mode := mode; ci_mute := true |} in
          files_upload_session_finish last.1 last.2 commit_info
        else
          sz <- open_r path ;;
          let '(f, _) := read sz 0 sz in
          let mode := overwrite in
          files_upload f (Path.os_path_join "/" path) mode true) ;;
  m <- os_path_getmtime path ;;
  record_meta path {| meta_rev := r; meta_modified := m |}.

Definition check_state (path : string) : M unit :=
  w <- get ;;
  match remote_files (state w) !! path with
  | None => upload path (Some "-- Not Found Remotely")
  | Some _ =>
      m <- os_path_getmtime path ;;
      w <- get ;;
      match local_files (state w) !! path with
      | None => raise (KeyError path)
      | Some rec =>
          if meta_modified rec <? m then upload path (Some "-- Local File Changed")
          else ret tt
      end
  end.

Definition delete_local (path : string) : M unit :=
  emit (DeletingLocally path) ;;
  try_except_pass (os_remove path) ;;
  del_local_files path ;;
  del_remote_files path.

Definition delete_remote (path : string) : M unit :=
  emit (DeletingOnDropbox path) ;;
  try_except_pass (files_delete path) ;;
  del_local_files path ;;
  del_remote_files path.

Definition download_remote (path : string) (because : option string) : M unit :=
  emit (Downloading path because) ;;
  let '(head, tail) := Path.os_path_split path in
  ex <- os_path_exists head ;;
  (if negb ex && negb (bool_decide (head = "")) then os_makedirs head else ret tt) ;;
  r <- files_download_to_file path (Path.os_path_join "/" path) ;;
  m <- os_path_getmtime path ;;
  record_meta path {| meta_rev := r; meta_modified := m |}.

Definition make_local_dir (path : string) : M unit :=
  ex <- os_path_exists path ;;
  if negb ex then os_makedirs path
  else
    isf <- os_path_isfile path ;;
    if isf then
      os_remove path ;;
      del_local_files path ;;
      os_makedir path
    else ret tt.

(** One turn of the loop of [__process_remote_entries]; [remote_file_paths]
    is the set the caller collects the file paths in. *)
Definition process_remote_entry (entry : Metadata) (remote_file_paths : gset string)
    : M (gset string) :=
  match entry with
  | FileMetadata path_display rev =>
      let path := Path.drop 1 path_display in
      w <- get ;;
      (match local_files (state w) !! path with
       | None => download_remote path (Some "-- Not Found Locally")
       | Some rec =>
           if bool_decide (rev ≠ meta_rev rec)
           then download_remote path (Some "-- Remote File Changed")
           else ret tt
       end) ;;
      ret ({[path]} ∪ remote_file_paths)
  | FolderMetadata path_display =>
      let path := Path.drop 1 path_display in
      ex <- os_path_exists path ;;
      (if negb ex then emit (MakingDirectory path) ;; make_local_dir path
       else ret tt) ;;
      ret remote_file_paths
  end.

(** [__process_remote_entries] *)
Fixpoint process_remote_entries (es : list Metadata) (remote_file_paths : gset string)
    : M (gset string) :=
  match es with
  | [] => ret remote_file_paths
  | entry :: es' =>
      s <- process_remote_entry entry remote_file_paths ;;
      process_remote_entries es' s
  end.

(** The [while True] loop of [execute_delta] over the pages. *)
Fixpoint delta_loop (fuel : nat) (results : ListFolderResult)
    (remote_file_paths : gset string) : M (gset string) :=
  match fuel with
  | O => timeout
  | S fuel' =>
      let cur := cursor results in
      s <- process_remote_entries (entries results) remote_file_paths ;;
      if negb (has_more results) then ret s
      else
        results' <- files_list_folder_continue cur ;;
        delta_loop fuel' results' s
  end.

(** The sweep that ends [execute_delta]: [keys] is the list
    [self.remote_files.keys()] taken before the loop. *)
Definition sweep_body (remote_file_paths : gset string) (path : string) : M unit :=
  if bool_decide (path ∉ remote_file_paths) then
    w <- get ;;
    match local_files (state w) !! path with
    | Some _ => delete_local path
    | None => ret tt
    end
  else ret tt.

Definition execute_delta : M unit :=
  results <- files_list_folder "" true ;;
  remote_file_paths <- delta_loop (S (length (cursor results))) results ∅ ;;
  w <- get ;;
  let remote_files_keys := (map_to_list (remote_files (state w))).*1 in
  for_each remote_files_keys (sweep_body remote_file_paths).

(** ** The module-level functions *)

Definition STATE_FILE : string := ".dropbox_state".

(** The loop of [valid_dir_for_upload] from index [i] on. *)
Fixpoint valid_parts (i : nat) (parts : list string) : bool :=
  match parts with
  | [] => true
  | part :: rest =>
      if bool_decide (part ≠ ".") then
        if Path.startswith part "." then false
        else if Nat.eqb i 1 && Path.startswith part "site" then false
        else if Nat.eqb i 1 && bool_decide (part = "temp") then false
        else valid_parts (S i) rest
      else valid_parts (S i) rest
  end.

Definition valid_dir_for_upload (dir : string) : bool :=
  valid_parts 0 (Path.split dir).

Definition valid_filename_for_upload (filename : string) : bool :=
  negb (existsb id
    [ bool_decide (filename = STATE_FILE);
      Path.startswith filename ".";
      Path.startswith filename "@";
      Path.endswith filename "~";
      Path.endswith filename ".pyc";
      Path.endswith filename ".pyo" ]).

(** [os.walk('.')] on the flat tree.  A name is a child of a directory when
    the directory's path and a separator are in front of it and no separator
    is inside it. *)
Fixpoint strip_prefix (p s : string) : option string :=
  match p, s with
  | EmptyString, _ => Some s
  | String a p', String b s' => if Ascii.eqb a b then strip_prefix p' s' else None
  | String _ _, EmptyString => None
  end.

Fixpoint no_sep (s : string) : bool :=
  match s with
  | EmptyString => true
  | String c s' => negb (Ascii.eqb c Path.sep) && no_sep s'
  end.

Definition child_of (dir : string) (kv : string * node) : option string :=
  match strip_prefix (if bool_decide (dir = "") then "" else dir +:+ "/") kv.1 with
  | Some name =>
      if no_sep name && negb (bool_decide (name = "")) then Some name else None
  | None => None
  end.

Definition children (t : gmap string node) (dirs : bool) (dir : string) : list string :=
  omap (λ kv, if Bool.eqb (is_dir kv.2) dirs then child_of dir kv else None)
       (map_to_list t).

(** What is in front of a name in the path of a file of directory [dir]. *)
Definition dir_prefix (dir : string) : string :=
  if bool_decide (dir = "") then "" else dir +:+ "/".

(** The generator is top-down: the triple of a directory comes first, then
    the walk of each of its subdirectories in the order of [dirnames], each
    under [join(top, name)].  [top] is the string the generator yields and
    [dir] the path of the same directory in the tree; the order of the
    names of one directory is the order of [os.listdir], which is arbitrary.
    The recursion is on the depth, which no path exceeds in length. *)
Fixpoint walk (fuel : nat) (t : gmap string node) (top dir : string)
    : list (string * list string * list string) :=
  match fuel with
  | O => []
  | S fuel' =>
      let dirs := children t true dir in
      (top, dirs, children t false dir)
      :: flat_map (λ name, walk fuel' t (Path.os_path_join top name)
                             (dir_prefix dir +:+ name))
                  dirs
  end.

Definition longest (t : gmap string node) : nat :=
  max_list (String.length <$> (map_to_list t).*1).

Definition os_walk (t : gmap string node) : list (string * list string * list string) :=
  walk (S (longest t)) t "." "".

(** The first loop of [check_local]: the file list. *)
Definition scan (t : gmap string node) : list string :=
  flat_map (λ '(root, dirnames, filenames),
              if valid_dir_for_upload root then
                flat_map (λ filename,
                            if valid_filename_for_upload filename
                            then [Path.drop 2 (Path.os_path_join root filename)]
                            else []) filenames
              else [])
           (os_walk t).

Definition check_local : M unit :=
  w <- get ;;
  let filelist := scan (tree w) in
  for_each filelist check_state ;;
  w <- get ;;
  let oldlist := (map_to_list (local_files (state w))).*1 in
  for_each oldlist (λ file,
    if bool_decide (file ∉ filelist) then delete_remote file else ret tt).

Definition check_remote : M unit := execute_delta.

(** ** The state file

    [pickle] is Python's; what the script needs of it is that a dumped state
    loads back, and that loading an empty file raises. *)
Class Pickle := {
  pickled : Type;
  empty_file : pickled;
  pickle_dump : DropboxState → pickled;
  pickle_load : pickled → option DropboxState;
  pickle_load_dump : ∀ s, pickle_load (pickle_dump s) = Some s;
  pickle_load_empty : pickle_load empty_file = None
}.

Section StateFile.
Context `{Pickle}.

(** [load_state]: the argument is the content of [STATE_FILE], [None] when
    there is no such file; every exception gives a new state. *)
Definition load_state (file : option pickled) : DropboxState :=
  match file with
  | Some bytes =>
      match pickle_load bytes with
      | Some s => s
      | None => new_state
      end
  | None => new_state
  end.

(** [save_state]: what [STATE_FILE] holds after [open(STATE_FILE, 'w')],
    which empties the file, and after [pickle.dump] and the close that ends
    the [with]. *)
Definition save_state_steps (st : DropboxState) : list (option pickled) :=
  [Some empty_file; Some (pickle_dump st)].

Definition save_state (st : DropboxState) : option pickled :=
  Some (pickle_dump st).

(** The content of [STATE_FILE] at every point where a run of
    [save_state] can be stopped, [before] being the content it finds. *)
Definition crash_points (before : option pickled) (st : DropboxState)
    : list (option pickled) :=
  before :: save_state_steps st.

(** The main block, once [init_dropbox] has given a session: the content
    of [STATE_FILE] when it ends, and how it ended. *)
Definition main (file : option pickled) : World → result unit * option pickled * World :=
  λ w,
    let w0 := with_state (λ _, load_state file) w in
    match check_remote w0 with
    | (Ok _, w1) =>
        let file1 := save_state (state w1) in
        match check_local w1 with
        | (Ok _, w2) => (Ok tt, save_state (state w2), w2)
        | (r, w2) => (r, file1, w2)
        end
    | (r, w1) => (r, file, w1)
    end.
End StateFile.

(** The simplest pickle: the file holds the state itself, or nothing. *)
#[export] Instance option_pickle : Pickle := {|
  pickled := option DropboxState;
  empty_file := None;
  pickle_dump := Some;
  pickle_load := id;
  pickle_load_dump := λ _, eq_refl;
  pickle_load_empty := eq_refl
|}.

(** ** Operations and reachable states *)

Inductive op :=
| Upload (path : string) (because : option string)
| Download_remote (path : string) (because : option string)
| Delete_local (path : string)
| Delete_remote (path : string)
| Make_local_dir (path : string).

Definition run_op (o : op) : M unit :=
  match o with
  | Upload path because => upload path because
  | Download_remote path because => download_remote path because
  | Delete_local path => delete_local path
  | Delete_remote path => delete_remote path
  | Make_local_dir path => make_local_dir path
  end.

(** The worlds a [DropboxState] that starts empty can be in: the methods
    are called in any order with any arguments, they return or raise, and
    the tree and Dropbox change as they like in between. *)
Inductive reachable : World → Prop :=
| reach_new w : state w = new_state → reachable w
| reach_around w w' : reachable w → state w' = state w → reachable w'
| reach_op w o : reachable w → reachable (run_op o w).2.

Definition local_in_remote (s : DropboxState) : Prop :=
  dom (local_files s) ⊆ dom (remote_files s).

(** What a deletion leaves of [path], by the maps it finds. *)
Definition deletion_post (path : string) (w : World) (out : result unit * World) : Prop :=
  let s := state w in
  let s' := state out.2 in
  match local_files s !! path, remote_files s !! path with
  | Some _, Some _ =>
      out.1 = Ok tt ∧ local_files s' !! path = None ∧ remote_files s' !! path = None
  | Some _, None =>
      out.1 = Raise (KeyError path)
      ∧ local_files s' !! path = None ∧ remote_files s' !! path = None
  | None, _ => out.1 = Raise (KeyError path) ∧ s' = s
  end.

Definition deletion_result (path : string) (s : DropboxState) : result unit :=
  match local_files s !! path, remote_files s !! path with
  | Some _, Some _ => Ok tt
  | _, _ => Raise (KeyError path)
  end.

(** ** Framing: what a computation leaves related *)

Definition frames (R : World → World → Prop) {A} (m : M A) : Prop :=
  ∀ w, R w (m w).2.

Definition same_state (w w' : World) : Prop := state w' = state w.
Definition same_log (w w' : World) : Prop := log w' = log w.
Definition same_tree (w w' : World) : Prop := tree w' = tree w.
Definition keeps (P : DropboxState → Prop) (w w' : World) : Prop :=
  P (state w) → P (state w').

(** A tree as a file system has it: no path of a directory ends with a
    separator, and no length is negative. *)
Definition tree_ok (t : gmap string node) : Prop :=
  ∀ p n, t !! p = Some n →
         0 ≤ fsize n
         ∧ (is_dir n = true → p ≠ "" → Path.endswith ("./" +:+ p) "/" = false).

(** Every path is a name, not empty and without a separator, in the top
    directory or in a directory of the tree: nothing is in a directory that
    is not there. *)
Definition tree_placed (t : gmap string node) : Prop :=
  ∀ p n, t !! p = Some n →
         ∃ dir name,
           p = dir_prefix dir +:+ name
           ∧ no_sep name = true ∧ name ≠ ""
           ∧ (dir = "" ∨ ∃ nd, t !! dir = Some nd ∧ is_dir nd = true).

(** The two as tests. *)
Definition tree_okb (t : gmap string node) : bool :=
  forallb (λ kv,
             (0 <=? fsize kv.2)
             && (negb (is_dir kv.2) || bool_decide (kv.1 = "")
                 || negb (Path.endswith ("./" +:+ kv.1) "/")))
          (map_to_list t).

Definition tree_placedb (t : gmap string node) : bool :=
  forallb (λ kv,
             existsb (λ d, bool_decide (is_Some (child_of d kv)))
               ("" :: omap (λ kv', if is_dir kv'.2 then Some kv'.1 else None)
                        (map_to_list t)))
          (map_to_list t).

(** What a computation may raise; it does not run out of fuel. *)
Definition raises_only (P : exn → Prop) {A} (m : M A) : Prop :=
  ∀ w, match (m w).1 with
       | Raise e => P e
       | Timeout => False
       | Ok _ => True
       end.

Definition is_OSError (e : exn) : Prop :=
  match e with OSError _ _ => True | _ => False end.

(** The tail of [download_remote], from the request on. *)
Definition fetch (path : string) : M unit :=
  r <- files_download_to_file path (Path.os_path_join "/" path) ;;
  m <- os_path_getmtime path ;;
  record_meta path {| meta_rev := r; meta_modified := m |}.

(** ** The remote pass as a whole *)

Definition entry_file_path (e : Metadata) : option string :=
  match e with
  | FileMetadata path_display _ => Some (Path.drop 1 path_display)
  | _ => None
  end.

(** The paths of the files of a listing: what [remote_file_paths] holds
    after the entries have been processed. *)
Definition file_paths (es : list Metadata) : gset string :=
  list_to_set (omap entry_file_path es).

(** The events of a local deletion. *)
Definition is_deletion (e : event) : bool :=
  match e with
  | DeletingLocally _ | Os_remove _ => true
  | _ => false
  end.

(** What the processing of a listing with file paths in [S] leaves alone:
    Dropbox, the entries of the two maps for the paths outside [S]; and it
    deletes nothing. *)
Definition listed (S : gset string) (w w' : World) : Prop :=
  dbx w' = dbx w
  ∧ (∃ l, log w' = log w ++ l ∧ Forall (λ e, is_deletion e = false) l)
  ∧ ∀ p, p ∉ S →
         local_files (state w') !! p = local_files (state w) !! p
         ∧ remote_files (state w') !! p = remote_files (state w) !! p.

(** The paths the sweep of [execute_delta] deletes, given the maps it
    starts from and the file paths of the listing. *)
Definition swept (s : DropboxState) (seen : gset string) (path : string) : Prop :=
  path ∈ dom (remote_files s) ∧ (path ∉ seen) ∧ path ∈ dom (local_files s).

Definition sweep_log (s : DropboxState) (seen : gset string) (keys : list string)
    : list event :=
  flat_map (λ k, if bool_decide ((k ∉ seen) ∧ is_Some (local_files s !! k))
                 then [DeletingLocally k; Os_remove k] else []) keys.

(** What the sweep leaves of the entry of [p] in a map [m]. *)
Definition after_sweep {A} (s : DropboxState) (seen : gset string) (keys : list string)
    (p : string) (m : gmap string A) : option A :=
  if bool_decide (p ∈ keys ∧ (p ∉ seen) ∧ is_Some (local_files s !! p))
  then None else m !! p.

(** A computation that neither raises out of [P] nor runs out of fuel is
    framed as [raises_only P]; [no_timeout] asks for the fuel only. *)
Abbreviation no_timeout := (raises_only (λ _, True)).

(** ** What [upload] asks of Dropbox

    The calls of a session that uploads [sz] bytes in chunks of 10000000:
    the start with the first chunk, one append for every further whole
    chunk, each at the offset of the bytes sent before it, and the finish
    with what remains and the commit. *)
Fixpoint append_calls (sid : nat) (off : Z) (k : nat) : list event :=
  match k with
  | O => []
  | S k' =>
      Call_files_upload_session_append_v2
        {| d_off := off; d_len := 10000000 |}
        (Some {| session_id := sid; offset := off |}) false
      :: append_calls sid (off + 10000000) k'
  end.

Definition session_calls (sid : nat) (path : string) (sz : Z) : list event :=
  let k := sz / 10000000 in
  Call_files_upload_session_start {| d_off := 0; d_len := 10000000 |} false
  :: append_calls sid 10000000 (Z.to_nat (k - 1))
  ++ [Call_files_upload_session_finish
        {| d_off := k * 10000000; d_len := sz - k * 10000000 |}
        (Some {| session_id := sid; offset := k * 10000000 |})
        {| ci_path := Path.os_path_join "/" path; ci_mode := overwrite;
           ci_mute := true |}].

Definition upload_calls (sid : nat) (path : string) (sz : Z) : list event :=
  if 140000000 <? sz then session_calls sid path sz
  else [Call_files_upload {| d_off := 0; d_len := sz |}
          (Path.os_path_join "/" path) overwrite true].

(** The data and the offset of a call of an upload session. *)
Definition call_data (e : event) : option data :=
  match e with
  | Call_files_upload_session_start f _ => Some f
  | Call_files_upload_session_append_v2 f _ _ => Some f
  | Call_files_upload_session_finish f _ _ => Some f
  | _ => None
  end.

Definition call_offset (e : event) : option Z :=
  match e with
  | Call_files_upload_session_start _ _ => Some 0
  | Call_files_upload_session_append_v2 _ (Some c) _ => Some (offset c)
  | Call_files_upload_session_finish _ (Some c) _ => Some (offset c)
  | _ => None
  end.

(** Every call is made at the offset [sent] of the bytes sent before it,
    with the bytes of the file from there on; every call but the last sends
    a whole chunk, the last one less. *)
Fixpoint chunked_from (sent : Z) (calls : list event) : Prop :=
  match calls with
  | [] => True
  | e :: rest =>
      call_offset e = Some sent
      ∧ ∃ f, call_data e = Some f ∧ d_off f = sent
             ∧ match rest with
               | [] => (0 ≤ d_len f < 10000000)
               | _ => (d_len f = 10000000)
               end
             ∧ chunked_from (sent + d_len f) rest
  end.

(** ** Worlds for the examples *)

Definition file (m sz : Z) : node := {| is_dir := false; mtime := m; fsize := sz |}.
Definition folder (m : Z) : node := {| is_dir := true; mtime := m; fsize := 0 |}.
Definition box (o : gmap string robject) : Dropbox :=
  {| objects := o; refs := ∅; sessions := ∅; session_counter := 0;
     rev_counter := 7; page_extra := 1 |}.
Definition synced (path r : string) (m : Z) : DropboxState :=
  {| local_files := {[ path := {| meta_rev := r; meta_modified := m |} ]};
     remote_files := {[ path := {| meta_rev := r; meta_modified := m |} ]} |}.

(** ["a"] is known as a remote file only. *)
Definition w_remote_only : World :=
  {| state := {| local_files := ∅;
                 remote_files := {[ "a" := {| meta_rev := "r1"; meta_modified := 1 |} ]} |};
     tree := ∅; now := 10; dbx := box {[ "/a" := RFile "r1" 3 ]}; log := [] |}.

(** ["a"] is synchronised, and a directory has taken its place locally. *)
Definition w_dir_in_place : World :=
  {| state := synced "a" "r1" 1;
     tree := {[ "a" := folder 5 ]}; now := 10;
     dbx := box {[ "/a" := RFile "r1" 3 ]}; log := [] |}.

(** A new state and a local file of one byte more than 140000000. *)
Definition w_big_file : World :=
  {| state := new_state;
     tree := {[ "big" := file 1 140000001 ]}; now := 10; dbx := box ∅; log := [] |}.

(** ["a"] is synchronised and was written to since. *)
Definition w_touched : World :=
  {| state := synced "a" "r1" 1;
     tree := {[ "a" := file 4 3 ]}; now := 10;
     dbx := box {[ "/a" := RFile "r1" 3 ]}; log := [] |}.

(** ["a"] is synchronised and no longer on Dropbox, where ["b"] is new. *)
Definition w_deleted_remotely : World :=
  {| state := synced "a" "r1" 1;
     tree := {[ "a" := file 1 3 ]}; now := 10;
     dbx := box {[ "/b" := RFile "r2" 4 ]}; log := [] |}.

(** Dropbox has a folder ["a"] where the local tree has a file ["a"], never
    synchronised in the first world and synchronised in the second. *)
Definition w_file_for_folder : World :=
  {| state := new_state;
     tree := {[ "a" := file 1 3 ]}; now := 10;
     dbx := box {[ "/a" := RFolder ]}; log := [] |}.

Definition w_synced_file_for_folder : World :=
  {| state := synced "a" "r1" 1;
     tree := {[ "a" := file 1 3 ]}; now := 10;
     dbx := box {[ "/a" := RFolder ]}; log := [] |}.

(** ["a"] is on Dropbox and was deleted locally since the last run; the
    state is the one the main block loads from the state file. *)
Definition w_deleted_locally : World :=
  {| state := new_state;
     tree := ∅; now := 10; dbx := box {[ "/a" := RFile "r1" 3 ]}; log := [] |}.

(** The requests that move a file, among the events of a run. *)
Definition is_transfer (e : event) : bool :=
  match e with
  | Call_files_download_to_file _ _ | Call_files_upload _ _ _ _
  | Call_files_upload_session_start _ _
  | Call_files_upload_session_append_v2 _ _ _
  | Call_files_upload_session_finish _ _ _ => true
  | _ => false
  end.

(** Two runs of the main block in a row: the second starts from the state
    file and the world the first one left.  The result is how the two runs
    ended and what the second one did. *)
Definition two_runs `{Pickle} (file : option pickled) (w : World)
    : result unit * result unit * list event :=
  let '(r1, file1, w1) := main file w in
  let '(r2, _, w2) := main file1 w1 in
  (r1, r2, drop (length (log w1)) (log w2)).

(** A new state and one local file. *)
Definition w_one_file : World :=
  {| state := new_state;
     tree := {[ "a" := file 1 3 ]}; now := 10; dbx := box ∅; log := [] |}.

(** ** Further properties: what they are stated with *)

(** Every record of [local_files] is the record of [remote_files]. *)
Definition local_agrees (s : DropboxState) : Prop :=
  local_files s ⊆ remote_files s.

(** A computation that changes the two maps only if it returns. *)
Definition quiet_on_failure {A} (m : M A) : Prop :=
  ∀ w, match (m w).1 with
       | Ok _ => True
       | _ => state (m w).2 = state w
       end.

Definition same_dbx (w w' : World) : Prop := dbx w' = dbx w.

(** What the calls of an upload session change on Dropbox: the sessions. *)
Definition same_store (w w' : World) : Prop :=
  objects (dbx w') = objects (dbx w) ∧ rev_counter (dbx w') = rev_counter (dbx w).

(** What happens before the request of [download_remote]. *)
Definition same_clock (w w' : World) : Prop :=
  now w' = now w ∧ dbx w' = dbx w.

(** The two maps are one map. *)
Definition maps_equal (s : DropboxState) : Prop := local_files s = remote_files s.

(** A path the local pass has nothing to do for: both maps have a record
    of it and the file is no newer than the record of [local_files]. *)
Definition in_sync (w : World) (path : string) : Prop :=
  ∃ rec n,
    local_files (state w) !! path = Some rec
    ∧ is_Some (remote_files (state w) !! path)
    ∧ tree w !! path = Some n
    ∧ mtime n ≤ meta_modified rec.

(** The second loop of [check_local]. *)
Definition delete_missing (filelist : list string) (file : string) : M unit :=
  if bool_decide (file ∉ filelist) then delete_remote file else ret tt.

(** No object of Dropbox is lost. *)
Definition objects_kept (w w' : World) : Prop :=
  dom (objects (dbx w)) ⊆ dom (objects (dbx w')).

(** The keys of [local_files] outside a file list are paths the SDK does
    not accept. *)
Definition relative_outside (filelist : list string) (s : DropboxState) : Prop :=
  ∀ p, p ∈ dom (local_files s) → p ∈ filelist ∨ accepted p = false.

(** A file that is recorded and on Dropbox, and not in the tree. *)
Definition w_gone_locally : World :=
  {| state := synced "a" "r1" 1;
     tree := ∅;
     now := 10;
     dbx := box {["/a" := RFile "r1" 3]};
     log := [] |}.

(** The keys of [local_files] only get more. *)
Definition local_grows (w w' : World) : Prop :=
  dom (local_files (state w)) ⊆ dom (local_files (state w')).

(** [local_files] has [rev] as the revision of [path]. *)
Definition has_rev (s : DropboxState) (path rev : string) : Prop :=
  ∃ rec, local_files s !! path = Some rec ∧ meta_rev rec = rev.

(** The file entries of a listing carry the revision Dropbox has for the
    path a download of the entry asks for. *)
Definition faithful (d : Dropbox) (es : list Metadata) : Prop :=
  ∀ pd rev, FileMetadata pd rev ∈ es →
    ∃ sz, objects d !! Path.os_path_join "/" (Path.drop 1 pd) = Some (RFile rev sz).

Definition revs_recorded (es : list Metadata) (s : DropboxState) : Prop :=
  ∀ pd rev, FileMetadata pd rev ∈ es → has_rev s (Path.drop 1 pd) rev.

(** Dropbox names an object by a separator and a relative path. *)
Definition dropbox_ok (d : Dropbox) : Prop :=
  ∀ k o, objects d !! k = Some o → ∃ p, k = "/" +:+ p ∧ rooted p = false.

(** What a remote pass with nothing to do does: it lists and may make
    directories. *)
Definition only_lists (w w' : World) : Prop :=
  state w' = state w
  ∧ dbx w' = dbx w
  ∧ ∃ l, log w' = log w ++ l
         ∧ Forall (λ e, is_transfer e = false ∧ is_deletion e = false) l.

(** A file changed on both sides since it was recorded. *)
Definition w_conflict : World :=
  {| state := synced "a" "r1" 1;
     tree := {[ "a" := file 4 3 ]};
     now := 10;
     dbx := box {["/a" := RFile "r2" 5]};
     log := [] |}.

(** The remote side has nothing to do: the revisions listed are the
    revisions recorded, and every recorded path is listed. *)
Definition settled (w : World) : Prop :=
  dropbox_ok (dbx w)
  ∧ revs_recorded (listing (dbx w)) (state w)
  ∧ dom (local_files (state w)) ⊆ file_paths (listing (dbx w)).

(** A new remote file and a new local file. *)
Definition w_both_new : World :=
  {| state := new_state;
     tree := {[ "x" := file 1 3 ]};
     now := 10;
     dbx := box {["/b" := RFile "r2" 4]};
     log := [] |}.

(** Nothing of the tree is removed or overwritten. *)
Definition tree_grows (w w' : World) : Prop :=
  ∀ p n, tree w !! p = Some n → tree w' !! p = Some n.

(** ** What a transfer is

    [upload] has sent the regular file [n] at [path]: the line printed and
    the calls made; the tree as it was; one more session opened on Dropbox
    if the file is longer than 140000000 bytes.  If Dropbox has a folder
    at ["/" + path] the commit is refused: the call raises, the two maps
    and the objects are as before, and the session, if one was opened, is
    left with the whole chunks it received.  Otherwise the call returns,
    Dropbox has the file at ["/" + path] with the length of [n] and a new
    revision, the session is gone, and both maps record the revision and
    the modification time of [n] for [path]. *)
Definition uploaded (path : string) (because : option string) (n : node)
    (w : World) (out : result unit * World) : Prop :=
  let key := Path.os_path_join "/" path in
  let sid := session_counter (dbx w) in
  let big := 140000000 <? fsize n in
  let meta := {| meta_rev := fresh_rev (dbx w); meta_modified := mtime n |} in
  log out.2 = log w ++ Uploading path because :: upload_calls sid path (fsize n)
  ∧ tree out.2 = tree w
  ∧ session_counter (dbx out.2) = (if big then S sid else sid)
  ∧ match objects (dbx w) !! key with
    | Some RFolder =>
        out.1 = Raise (ApiError "path/conflict/folder")
        ∧ state out.2 = state w
        ∧ objects (dbx out.2) = objects (dbx w)
        ∧ sessions (dbx out.2)
          = (if big then <[sid := fsize n / 10000000 * 10000000]> (sessions (dbx w))
             else sessions (dbx w))
    | _ =>
        out.1 = Ok tt
        ∧ objects (dbx out.2) = <[key := RFile (fresh_rev (dbx w)) (fsize n)]> (objects (dbx w))
        ∧ sessions (dbx out.2)
          = (if big then delete sid (sessions (dbx w)) else sessions (dbx w))
        ∧ local_files (state out.2) = <[path := meta]> (local_files (state w))
        ∧ remote_files (state out.2) = <[path := meta]> (remote_files (state w))
    end.

(** [open(path, 'wb')] succeeds: [path] is not a directory, and it is a
    name in the top directory or in a directory of the tree. *)
Definition writable (t : gmap string node) (path : string) : bool :=
  match t !! path with Some n => negb (is_dir n) | None => true end
  && (bool_decide ((Path.os_path_split path).1 = "")
      || match t !! (Path.os_path_split path).1 with
         | Some nd => is_dir nd
         | None => false
         end).

(** [download_remote] has fetched the file at [path], and [a] is returned
    after it.  The line is printed; [os.makedirs] is called for the
    directory of the path if it has one that is not in the tree, and if
    that raises the call ends there.  Then the request is made.  If
    Dropbox has a file at ["/" + path] and the file can be written, the
    tree has the file with the length Dropbox has, written now, and both
    maps record the revision Dropbox has and the time of writing.  If not
    the call raises and the two maps are as before.  Dropbox is as
    before. *)
Definition downloaded {A} (path because : string) (a : A) (w : World)
    (out : result A * World) : Prop :=
  let head := (Path.os_path_split path).1 in
  let key := Path.os_path_join "/" path in
  let line := Downloading path (Some because) in
  let call := Call_files_download_to_file path key in
  let needs_dir :=
    negb (bool_decide (is_Some (tree w !! head))) && negb (bool_decide (head = "")) in
  let made :=
    if needs_dir then os_makedirs head (with_log (λ l, l ++ [line]) w)
    else (Ok tt, w) in
  let dirs := if needs_dir then [Os_makedirs head] else [] in
  dbx out.2 = dbx w
  ∧ match made.1 with
    | Ok _ =>
        log out.2 = log w ++ line :: dirs ++ [call]
        ∧ match objects (dbx w) !! key with
          | Some (RFile r sz) =>
              if writable (tree made.2) path then
                out.1 = Ok a
                ∧ tree out.2
                  = <[path := {| is_dir := false; mtime := now w; fsize := sz |}]>
                      (tree made.2)
                ∧ local_files (state out.2)
                  = <[path := {| meta_rev := r; meta_modified := now w |}]>
                      (local_files (state w))
                ∧ remote_files (state out.2)
                  = <[path := {| meta_rev := r; meta_modified := now w |}]>
                      (remote_files (state w))
              else
                (∃ e, out.1 = Raise e)
                ∧ tree out.2 = tree made.2 ∧ state out.2 = state w
          | _ =>
              (∃ e, out.1 = Raise e)
              ∧ tree out.2 = tree made.2 ∧ state out.2 = state w
          end
    | Raise e =>
        out.1 = Raise e
        ∧ log out.2 = log w ++ line :: dirs
        ∧ tree out.2 = tree made.2 ∧ state out.2 = state w
    | Timeout => False
    end.

(** Dropbox has a folder and a file in it, and nothing is known or in the
    tree. *)
Definition w_remote_subdir : World :=
  {| state := new_state;
     tree := ∅;
     now := 10;
     dbx := box {[ "/docs" := RFolder; "/docs/b" := RFile "r2" 4 ]};
     log := [] |}.

(** The entries of the tree for the paths outside [S] stay as they are. *)
Definition kept_outside (S : gset string) (w w' : World) : Prop :=
  ∀ p n, p ∉ S → tree w !! p = Some n → tree w' !! p = Some n.

(** A directory in a directory, a file in each, the first one in sync. *)
Definition w_subdir : World :=
  {| state := synced "docs/b" "r1" 1;
     tree := {[ "docs" := folder 1; "docs/sub" := folder 1;
                "docs/b" := file 1 3; "docs/sub/c" := file 2 4 ]};
     now := 10;
     dbx := box {[ "/docs/b" := RFile "r1" 3 ]};
     log := [] |}.

(** * Properties *)

Section Frames.
Context (R : World → World → Prop) `{!PreOrder R}.

Lemma frames_ret {A} (a : A) : frames R (ret a).
Proof. intros w. reflexivity. Qed.

Lemma frames_raise {A} e : frames R (@raise A e).
Proof. intros w. reflexivity. Qed.

Lemma frames_timeout {A} : frames R (@timeout A).
Proof. intros w. reflexivity. Qed.

Lemma frames_get : frames R get.
Proof. intros w. reflexivity. Qed.

Lemma frames_modify f : (∀ w, R w (f w)) → frames R (modify f).
Proof. intros Hf w. apply Hf. Qed.

Lemma frames_bind {A B} (m : M A) (k : A → M B) :
  frames R m → (∀ a, frames R (k a)) → frames R (bind m k).
Proof.
  intros Hm Hk w. unfold bind. specialize (Hm w).
  destruct (m w) as [[a| e |] w1]; simpl in *; [|done..].
  etrans; [exact Hm|]. apply Hk.
Qed.

Lemma frames_try m : frames R m → frames R (try_except_pass m).
Proof.
  intros Hm w. unfold try_except_pass. specialize (Hm w).
  by destruct (m w) as [[a| e |] w1].
Qed.

Lemma frames_for_each {A} (xs : list A) body :
  (∀ x, frames R (body x)) → frames R (for_each xs body).
Proof.
  intros Hb. induction xs as [|x xs IH]; simpl.
  - apply frames_ret.
  - by apply frames_bind.
Qed.
End Frames.

Ltac frame_step :=
  lazymatch goal with
  | |- frames _ (ret _) => apply frames_ret; apply _
  | |- frames _ (raise _) => apply frames_raise; apply _
  | |- frames _ timeout => apply frames_timeout; apply _
  | |- frames _ get => apply frames_get; apply _
  | |- frames _ (try_except_pass _) => apply frames_try
  | |- frames _ (bind _ _) => apply frames_bind; [apply _| |intros ?]
  | |- frames _ (modify _) => apply frames_modify; intros ?
  | |- frames _ (emit _) => unfold emit
  | |- frames _ (for_each _ _) => apply frames_for_each; [apply _|intros ?]
  | |- frames _ (match ?x with _ => _ end) => destruct x eqn:?
  end.

Create HintDb frames discriminated.
Ltac frames_leaf := unfold same_state, same_log, same_tree, keeps; simpl; done.
Ltac frames_auto :=
  repeat first [frame_step | solve [eauto with frames] | done | solve [frames_leaf]].

#[export] Instance same_state_po : PreOrder same_state.
Proof. split; unfold same_state; [by intros x|]. intros x y z ??. congruence. Qed.

#[export] Instance same_tree_po : PreOrder same_tree.
Proof. split; unfold same_tree; [by intros x|]. intros x y z ??. congruence. Qed.

#[export] Instance same_log_po : PreOrder same_log.
Proof. split; unfold same_log; [by intros x|]. intros x y z ??. congruence. Qed.

#[export] Instance keeps_po P : PreOrder (keeps P).
Proof. split; unfold keeps; [by intros x|]. intros x y z ??. auto. Qed.

Lemma frames_same_state_keeps P {A} (m : M A) :
  frames same_state m → frames (keeps P) m.
Proof. intros Hm w HP. by rewrite (Hm w). Qed.

(** *** The primitives leave the [DropboxState] alone *)

Lemma os_path_exists_same_state p : frames same_state (os_path_exists p).
Proof. unfold os_path_exists. frames_auto. Qed.

Lemma os_path_isfile_same_state p : frames same_state (os_path_isfile p).
Proof. unfold os_path_isfile. frames_auto. Qed.

Lemma os_path_getmtime_same_state p : frames same_state (os_path_getmtime p).
Proof. unfold os_path_getmtime. frames_auto. Qed.

Lemma os_path_getsize_same_state p : frames same_state (os_path_getsize p).
Proof. unfold os_path_getsize. frames_auto. Qed.

Lemma open_r_same_state p : frames same_state (open_r p).
Proof. unfold open_r. frames_auto. Qed.

Lemma os_remove_same_state p : frames same_state (os_remove p).
Proof. unfold os_remove. frames_auto. Qed.

Lemma os_mkdir_same_state p : frames same_state (os_mkdir p).
Proof. unfold os_mkdir. frames_auto. Qed.

Lemma os_makedirs_same_state p : frames same_state (os_makedirs p).
Proof.
  unfold os_makedirs. frame_step; [frames_auto|].
  induction (Path.ancestry p) as [|q qs IH]; simpl; [frames_auto|].
  pose proof os_mkdir_same_state. pose proof os_path_exists_same_state.
  frames_auto.
Qed.

Lemma os_makedir_same_state p : frames same_state (os_makedir p).
Proof. unfold os_makedir. frames_auto. Qed.

Lemma files_list_folder_same_state p r : frames same_state (files_list_folder p r).
Proof. unfold files_list_folder. frames_auto. Qed.

Lemma files_list_folder_continue_same_state c :
  frames same_state (files_list_folder_continue c).
Proof. unfold files_list_folder_continue. frames_auto. Qed.

Lemma files_download_to_file_same_state d p :
  frames same_state (files_download_to_file d p).
Proof. unfold files_download_to_file, save_body_to_file. frames_auto. Qed.

Lemma commit_same_state len p mode : frames same_state (commit len p mode).
Proof. unfold commit. frames_auto. Qed.

Lemma session_at_same_state c : frames same_state (session_at c).
Proof. unfold session_at. frames_auto. Qed.

#[export] Hint Resolve os_path_exists_same_state os_path_isfile_same_state
  os_path_getmtime_same_state os_path_getsize_same_state open_r_same_state
  os_remove_same_state os_mkdir_same_state os_makedirs_same_state
  os_makedir_same_state files_list_folder_same_state
  files_list_folder_continue_same_state files_download_to_file_same_state
  commit_same_state session_at_same_state : frames.

Lemma files_upload_same_state f p mode mute :
  frames same_state (files_upload f p mode mute).
Proof. unfold files_upload. frames_auto. Qed.

Lemma files_upload_session_start_same_state f c :
  frames same_state (files_upload_session_start f c).
Proof. unfold files_upload_session_start. frames_auto. Qed.

Lemma files_upload_session_append_v2_same_state f cur c :
  frames same_state (files_upload_session_append_v2 f cur c).
Proof. unfold files_upload_session_append_v2. frames_auto. Qed.

Lemma files_upload_session_finish_same_state f cur ci :
  frames same_state (files_upload_session_finish f cur ci).
Proof. unfold files_upload_session_finish. frames_auto. Qed.

Lemma files_delete_same_state p : frames same_state (files_delete p).
Proof. unfold files_delete. frames_auto. Qed.

#[export] Hint Resolve files_upload_same_state files_upload_session_start_same_state
  files_upload_session_append_v2_same_state
  files_upload_session_finish_same_state files_delete_same_state : frames.

Lemma upload_loop_same_state fuel sz pos f close sid cur off :
  frames same_state (upload_loop fuel sz pos f close sid cur off).
Proof.
  revert pos f close sid cur off.
  induction fuel as [|n IH]; intros; simpl; frames_auto.
Qed.

#[export] Hint Resolve upload_loop_same_state : frames.

(** *** The two maps *)

Lemma del_pair_run path w :
  (del_local_files path ;; del_remote_files path) w =
  match local_files (state w) !! path, remote_files (state w) !! path with
  | Some _, Some _ =>
      (Ok tt, with_state (set_remote_files (delete path))
                (with_state (set_local_files (delete path)) w))
  | Some _, None =>
      (Raise (KeyError path), with_state (set_local_files (delete path)) w)
  | None, _ => (Raise (KeyError path), w)
  end.
Proof.
  unfold del_local_files, del_remote_files, bind, get, modify, raise.
  destruct (local_files (state w) !! path) eqn:Hl; simpl; [|done].
  by destruct (remote_files (state w) !! path).
Qed.

Lemma delete_local_run path w :
  ∃ w1, state w1 = state w
        ∧ delete_local path w = (del_local_files path ;; del_remote_files path) w1.
Proof.
  unfold delete_local, os_remove, emit, try_except_pass.
  unfold bind at 1 2 3 4. unfold modify, get, raise. simpl.
  destruct (tree w !! path) as [n|]; simpl; [destruct (is_dir n)|];
    simpl; eexists; (split; [|reflexivity]); done.
Qed.

Lemma delete_remote_run path w :
  ∃ w1, state w1 = state w
        ∧ delete_remote path w = (del_local_files path ;; del_remote_files path) w1.
Proof.
  unfold delete_remote, files_delete, emit, try_except_pass.
  unfold bind at 1 2 3 4. unfold modify, get, raise. simpl.
  destruct (accepted path); simpl;
    [destruct (target (dbx w) path) as [key|]; simpl;
       [destruct (objects (dbx w) !! key)|]|];
    simpl; eexists; (split; [|reflexivity]); done.
Qed.

Lemma deletion_post_pair path w w1 :
  state w1 = state w →
  deletion_post path w ((del_local_files path ;; del_remote_files path) w1).
Proof.
  intros Hs. rewrite del_pair_run. unfold deletion_post. rewrite Hs.
  destruct (local_files (state w) !! path) eqn:Hl;
    [destruct (remote_files (state w) !! path) eqn:Hr|]; simpl.
  - rewrite !lookup_delete_eq. done.
  - rewrite lookup_delete_eq, Hs. done.
  - done.
Qed.

Lemma deletion_result_pair path w :
  ((del_local_files path ;; del_remote_files path) w).1 = deletion_result path (state w).
Proof.
  rewrite del_pair_run. unfold deletion_result.
  destruct (local_files (state w) !! path); [|done].
  by destruct (remote_files (state w) !! path).
Qed.

Lemma record_meta_keeps path meta :
  frames (keeps local_in_remote) (record_meta path meta).
Proof.
  intros w. unfold keeps, local_in_remote. simpl.
  rewrite !dom_insert_L. set_solver.
Qed.

Lemma del_local_files_keeps path :
  frames (keeps local_in_remote) (del_local_files path).
Proof.
  intros w. unfold del_local_files, bind, get, keeps, local_in_remote. simpl.
  destruct (local_files (state w) !! path); simpl; [|done].
  rewrite dom_delete_L. set_solver.
Qed.

Lemma del_pair_keeps path :
  frames (keeps local_in_remote) (del_local_files path ;; del_remote_files path).
Proof.
  intros w. rewrite del_pair_run. unfold keeps, local_in_remote.
  destruct (local_files (state w) !! path);
    [destruct (remote_files (state w) !! path)|]; simpl;
    rewrite ?dom_delete_L; set_solver.
Qed.

#[export] Hint Resolve frames_same_state_keeps record_meta_keeps
  del_local_files_keeps : frames.

Lemma upload_keeps path because :
  frames (keeps local_in_remote) (upload path because).
Proof. unfold upload. frames_auto. Qed.

Lemma download_remote_keeps path because :
  frames (keeps local_in_remote) (download_remote path because).
Proof. unfold download_remote. frames_auto. Qed.

Lemma delete_local_keeps path : frames (keeps local_in_remote) (delete_local path).
Proof.
  intros w. destruct (delete_local_run path w) as (w1 & Hs & ->).
  intros Hw. apply del_pair_keeps. unfold same_state in *. by rewrite Hs.
Qed.

Lemma delete_remote_keeps path : frames (keeps local_in_remote) (delete_remote path).
Proof.
  intros w. destruct (delete_remote_run path w) as (w1 & Hs & ->).
  intros Hw. apply del_pair_keeps. by rewrite Hs.
Qed.

Lemma make_local_dir_keeps path : frames (keeps local_in_remote) (make_local_dir path).
Proof. unfold make_local_dir. frames_auto. Qed.

Lemma run_op_keeps o : frames (keeps local_in_remote) (run_op o).
Proof.
  destruct o; simpl; auto using upload_keeps, download_remote_keeps,
    delete_local_keeps, delete_remote_keeps, make_local_dir_keeps.
Qed.

Lemma reachable_conflict :
  reachable (make_local_dir "a" (upload "a" None w_one_file).2).2.
Proof.
  apply (reach_op _ (Make_local_dir "a")), (reach_op _ (Upload "a" None)).
  by apply reach_new.
Defined.

(** C10: in every state reached from the empty one by [upload],
    [download_remote], [delete_local], [delete_remote] and [make_local_dir],
    the keys of [local_files] are keys of [remote_files]; the converse fails,
    since the branch of [make_local_dir] for a file in the way deletes from
    [local_files] only. *)
Theorem local_keys_are_remote_keys :
  (∀ w, reachable w → dom (local_files (state w)) ⊆ dom (remote_files (state w)))
  ∧ (∃ w, reachable w
          ∧ ¬ dom (remote_files (state w)) ⊆ dom (local_files (state w))).
Proof.
  split.
  - intros w Hw. change (local_in_remote (state w)).
    induction Hw as [w Hw|w w' _ IH Hs|w o _ IH].
    + rewrite Hw. unfold local_in_remote. simpl. set_solver.
    + by rewrite Hs.
    + by apply run_op_keeps.
  - eexists. split; [exact reachable_conflict|].
    intros Hsub. specialize (Hsub "a").
    rewrite !elem_of_dom in Hsub.
    assert (is_Some (local_files
      (state (make_local_dir "a" (upload "a" None w_one_file).2).2) !! "a")) as [x Hx].
    { apply Hsub. vm_compute. eauto. }
    vm_compute in Hx. discriminate.
Qed.

Lemma local_keys_are_remote_keys_witness :
  dom (local_files (state (make_local_dir "a" (upload "a" None w_one_file).2).2))
  ⊆ dom (remote_files (state (make_local_dir "a" (upload "a" None w_one_file).2).2)).
Proof. apply (proj1 local_keys_are_remote_keys), reachable_conflict. Defined.

(** *** Deletions *)

(** C6: when [delete_local] or [delete_remote] returns, [path] is a key
    of neither map.  The two removals go together: however the call ends,
    either [path] is a key of neither map afterwards, or the call has
    raised [KeyError] at the first [del] and the two maps are as they were.
    By the maps the call finds: with [path] in both it returns; with [path]
    in [local_files] only it removes it there and raises at the second
    [del]; with [path] not in [local_files] it changes nothing. *)
Theorem deletion_removes_from_both_maps path w :
  let gone (out : result unit * World) :=
    local_files (state out.2) !! path = None
    ∧ remote_files (state out.2) !! path = None in
  let removed (out : result unit * World) :=
    deletion_post path w out
    ∧ (out.1 = Ok tt → gone out)
    ∧ (gone out ∨ (out.1 = Raise (KeyError path) ∧ state out.2 = state w)) in
  removed (delete_local path w) ∧ removed (delete_remote path w).
Proof.
  cbn zeta.
  assert (∀ out, deletion_post path w out →
            deletion_post path w out
            ∧ (out.1 = Ok tt →
               local_files (state out.2) !! path = None
               ∧ remote_files (state out.2) !! path = None)
            ∧ ((local_files (state out.2) !! path = None
                ∧ remote_files (state out.2) !! path = None)
               ∨ (out.1 = Raise (KeyError path) ∧ state out.2 = state w))) as H.
  { intros out Hp. split; [done|]. unfold deletion_post in Hp. cbn zeta in Hp.
    destruct (local_files (state w) !! path);
      [destruct (remote_files (state w) !! path)|].
    - destruct Hp as (_ & ? & ?). split; [done|]. by left.
    - destruct Hp as (_ & ? & ?). split; [done|]. by left.
    - destruct Hp as [Hr ?]. split; [by rewrite Hr|]. by right. }
  split; apply H.
  - destruct (delete_local_run path w) as (w1 & Hs & ->).
    by apply deletion_post_pair.
  - destruct (delete_remote_run path w) as (w1 & Hs & ->).
    by apply deletion_post_pair.
Qed.

(** The sweep of [execute_delta] and the second loop of [check_local] call
    the two methods with keys of [local_files]; called with a path that is
    not one, they raise at the first [del] and change nothing. *)
Example deletion_of_unrecorded_path :
  (delete_local "a" w_remote_only).1 = Raise (KeyError "a")
  ∧ state (delete_local "a" w_remote_only).2 = state w_remote_only.
Proof. vm_compute. done. Qed.

(** C7, as the code has it: whether [delete_local] and [delete_remote]
    return or raise is decided by the two maps alone.  Whatever [os.remove]
    or [files_delete] raises is dropped, and the only exception that leaves
    them is the [KeyError] of a path missing from a map. *)
Theorem deletion_drops_every_failure path w :
  (delete_local path w).1 = deletion_result path (state w)
  ∧ (delete_remote path w).1 = deletion_result path (state w).
Proof.
  split.
  - destruct (delete_local_run path w) as (w1 & <- & ->).
    apply deletion_result_pair.
  - destruct (delete_remote_run path w) as (w1 & <- & ->).
    apply deletion_result_pair.
Qed.

(** C7 as stated fails: [os.remove] refuses a directory, which is there,
    and [files_delete] refuses the path of a file that is there, since the
    path lacks its ["/"]; both calls return all the same, and the directory
    and the remote file stay. *)
Lemma deletion_hides_other_failures :
  (os_remove "a" w_dir_in_place).1 = Raise (OSError EPERM "a")
  ∧ (delete_local "a" w_dir_in_place).1 = Ok tt
  ∧ tree (delete_local "a" w_dir_in_place).2 !! "a" = Some (folder 5)
  ∧ (files_delete "a" w_dir_in_place).1 = Raise (ValidationError "a")
  ∧ (delete_remote "a" w_dir_in_place).1 = Ok tt
  ∧ objects (dbx (delete_remote "a" w_dir_in_place).2) !! "/a" = Some (RFile "r1" 3).
Proof. vm_compute. done. Qed.

(** *** What the primitives print *)

Lemma os_path_exists_silent p : frames same_log (os_path_exists p).
Proof. unfold os_path_exists. frames_auto. Qed.

Lemma os_path_isfile_silent p : frames same_log (os_path_isfile p).
Proof. unfold os_path_isfile. frames_auto. Qed.

Lemma os_path_getmtime_silent p : frames same_log (os_path_getmtime p).
Proof. unfold os_path_getmtime. frames_auto. Qed.

Lemma os_path_getsize_silent p : frames same_log (os_path_getsize p).
Proof. unfold os_path_getsize. frames_auto. Qed.

Lemma open_r_silent p : frames same_log (open_r p).
Proof. unfold open_r. frames_auto. Qed.

Lemma os_mkdir_silent p : frames same_log (os_mkdir p).
Proof. unfold os_mkdir. frames_auto. Qed.

Lemma makedirs_rec_silent chain : frames same_log (makedirs_rec chain).
Proof.
  induction chain as [|q qs IH]; simpl; [frames_auto|].
  pose proof os_mkdir_silent. pose proof os_path_exists_silent. frames_auto.
Qed.

Lemma save_body_to_file_silent p sz : frames same_log (save_body_to_file p sz).
Proof. unfold save_body_to_file. frames_auto. Qed.

Lemma commit_silent len p mode : frames same_log (commit len p mode).
Proof. unfold commit. frames_auto. Qed.

Lemma session_at_silent c : frames same_log (session_at c).
Proof. unfold session_at. frames_auto. Qed.

Lemma record_meta_silent p meta : frames same_log (record_meta p meta).
Proof. unfold record_meta. frames_auto. Qed.

Lemma del_local_files_silent p : frames same_log (del_local_files p).
Proof. unfold del_local_files. frames_auto. Qed.

Lemma del_remote_files_silent p : frames same_log (del_remote_files p).
Proof. unfold del_remote_files. frames_auto. Qed.

#[export] Hint Resolve os_path_exists_silent os_path_isfile_silent
  os_path_getmtime_silent os_path_getsize_silent open_r_silent os_mkdir_silent
  makedirs_rec_silent save_body_to_file_silent commit_silent session_at_silent
  record_meta_silent del_local_files_silent del_remote_files_silent : frames.

(** A computation that prints one line and is silent from there on. *)
Lemma emit_then_silent {A} e (m : M A) w :
  frames same_log m → log ((emit e ;; m) w).2 = log w ++ [e].
Proof. intros Hm. unfold bind, emit, modify. simpl. by rewrite (Hm _). Qed.

Lemma bind_assoc {A B C} (m : M A) (f : A → M B) (g : B → M C) w :
  bind (bind m f) g w = bind m (λ a, bind (f a) g) w.
Proof. unfold bind. by destruct (m w) as [[a|e|] w1]. Qed.

Lemma bind_ext {A B} (m : M A) (k1 k2 : A → M B) w :
  (∀ a w1, k1 a w1 = k2 a w1) → bind m k1 w = bind m k2 w.
Proof. intros Hk. unfold bind. by destruct (m w) as [[a|e|] w1]. Qed.

Lemma bind_ok {A B} (m : M A) (k : A → M B) w a w1 :
  m w = (Ok a, w1) → bind m k w = k a w1.
Proof. intros Hm. unfold bind. by rewrite Hm. Qed.

Lemma bind_ok_inv {A B} (m : M A) (k : A → M B) w b w2 :
  bind m k w = (Ok b, w2) → ∃ a w1, m w = (Ok a, w1) ∧ k a w1 = (Ok b, w2).
Proof.
  unfold bind. destruct (m w) as [[a|e|] w1]; [eauto|done..].
Qed.

(** [os.makedirs] raises nothing but [OSError]. *)
Lemma raises_only_bind P {A B} (m : M A) (k : A → M B) :
  raises_only P m → (∀ a, raises_only P (k a)) → raises_only P (bind m k).
Proof.
  intros Hm Hk w. unfold bind. specialize (Hm w).
  destruct (m w) as [[a|e|] w1]; simpl in *; [apply Hk|done..].
Qed.

Lemma os_path_exists_raises P p : raises_only P (os_path_exists p).
Proof. by intros w. Qed.

Lemma os_mkdir_raises p : raises_only is_OSError (os_mkdir p).
Proof.
  intros w. unfold os_mkdir, bind, get, modify, raise. simpl.
  repeat case_match; simplify_eq/=; done.
Qed.

Lemma makedirs_rec_raises chain : raises_only is_OSError (makedirs_rec chain).
Proof.
  induction chain as [|p parents IH]; simpl; [by intros w|].
  apply raises_only_bind; [|intros _; apply os_mkdir_raises].
  destruct parents as [|head rest]; [by intros w|].
  apply raises_only_bind; [apply os_path_exists_raises|].
  intros []; simpl; [by intros w|apply IH].
Qed.

Lemma os_makedirs_run p w :
  log (os_makedirs p w).2 = log w ++ [Os_makedirs p]
  ∧ match (os_makedirs p w).1 with
    | Raise e => is_OSError e
    | Timeout => False
    | Ok _ => True
    end.
Proof.
  split.
  - apply emit_then_silent, makedirs_rec_silent.
  - revert w. apply raises_only_bind; [by intros w|].
    intros _. apply makedirs_rec_raises.
Qed.

Lemma files_download_to_file_log d p w :
  log (files_download_to_file d p w).2 = log w ++ [Call_files_download_to_file d p].
Proof.
  apply emit_then_silent. frames_auto.
Qed.


Lemma fetch_log path w :
  log (fetch path w).2
  = log w ++ [Call_files_download_to_file path (Path.os_path_join "/" path)].
Proof.
  unfold fetch. unfold bind at 1.
  pose proof (files_download_to_file_log path (Path.os_path_join "/" path) w) as Hl.
  destruct (files_download_to_file path (Path.os_path_join "/" path) w)
    as [[r|e|] w1]; simpl in *; [|done..].
  rewrite <- Hl.
  assert (frames same_log (m <- os_path_getmtime path ;;
    record_meta path {| meta_rev := r; meta_modified := m |})) as Hs by frames_auto.
  apply Hs.
Qed.

(** *** The remote pass, entry by entry *)

Arguments Path.drop : simpl never.
Arguments Path.os_path_join : simpl never.
Arguments Path.os_path_split : simpl never.

Lemma download_remote_run path because w :
  download_remote path because w =
  let head := (Path.os_path_split path).1 in
  let w0 := with_log (λ l, l ++ [Downloading path because]) w in
  if negb (bool_decide (is_Some (tree w !! head))) && negb (bool_decide (head = ""))
  then match os_makedirs head w0 with
       | (Ok _, w1) => fetch path w1
       | (Raise e, w1) => (Raise e, w1)
       | (Timeout, w1) => (Timeout, w1)
       end
  else fetch path w0.
Proof.
  unfold download_remote, fetch. destruct (Path.os_path_split path) as [head tail].
  simpl. unfold bind at 1. unfold emit, modify. simpl.
  unfold bind at 1. unfold os_path_exists at 1. unfold bind at 1. simpl.
  unfold bind at 1. by destruct (negb _ && negb _).
Qed.

Lemma process_remote_entries_app es1 es2 seen w :
  process_remote_entries (es1 ++ es2) seen w
  = (s <- process_remote_entries es1 seen ;; process_remote_entries es2 s) w.
Proof.
  revert seen w. induction es1 as [|e es1 IH]; intros seen w; simpl; [done|].
  rewrite bind_assoc. apply bind_ext. intros s w1. apply IH.
Qed.

Lemma process_remote_entries_one e seen w :
  process_remote_entries [e] seen w = process_remote_entry e seen w.
Proof.
  simpl. unfold bind, ret. by destruct (process_remote_entry e seen w) as [[?|?|] ?].
Qed.

Lemma process_file_entry_run path_display rev seen w :
  process_remote_entry (FileMetadata path_display rev) seen w =
  let path := Path.drop 1 path_display in
  match local_files (state w) !! path with
  | None =>
      (download_remote path (Some "-- Not Found Locally") ;;
       ret ({[path]} ∪ seen)) w
  | Some rec =>
      if bool_decide (rev ≠ meta_rev rec)
      then (download_remote path (Some "-- Remote File Changed") ;;
            ret ({[path]} ∪ seen)) w
      else (Ok ({[path]} ∪ seen), w)
  end.
Proof.
  simpl. unfold bind at 1. unfold get.
  destruct (local_files (state w) !! Path.drop 1 path_display); [|done].
  by case_bool_decide.
Qed.

(** *** Uploads *)

Lemma emit_run e w : emit e w = (Ok tt, with_log (λ l, l ++ [e]) w).
Proof. done. Qed.

Lemma os_path_getsize_run p w n :
  tree w !! p = Some n → os_path_getsize p w = (Ok (fsize n), w).
Proof. intros H. unfold os_path_getsize, bind, get. simpl. by rewrite H. Qed.

Lemma os_path_getmtime_run p w n :
  tree w !! p = Some n → os_path_getmtime p w = (Ok (mtime n), w).
Proof. intros H. unfold os_path_getmtime, bind, get. simpl. by rewrite H. Qed.

Lemma open_r_run p w n :
  tree w !! p = Some n → is_dir n = false → open_r p w = (Ok (fsize n), w).
Proof. intros H Hd. unfold open_r, bind, get. simpl. by rewrite H, Hd. Qed.

Lemma read_chunk sz pos :
  10000000 ≤ sz - pos →
  read sz pos 10000000 = ({| d_off := pos; d_len := 10000000 |}, pos + 10000000).
Proof. intros H. unfold read. by rewrite Z.min_l, Z.max_r by lia. Qed.

Lemma read_rest sz pos :
  0 ≤ sz - pos < 10000000 →
  read sz pos 10000000 = ({| d_off := pos; d_len := sz - pos |}, pos + (sz - pos)).
Proof. intros H. unfold read. by rewrite Z.min_r, Z.max_r by lia. Qed.

Lemma read_all sz :
  0 ≤ sz → read sz 0 sz = ({| d_off := 0; d_len := sz |}, 0 + sz).
Proof.
  intros H. unfold read. by rewrite Z.sub_0_r, Z.min_id, Z.max_r by lia.
Qed.

Lemma files_upload_session_append_v2_run f s off close w :
  sessions (dbx w) !! s = Some off →
  files_upload_session_append_v2 f (Some {| session_id := s; offset := off |}) close w
  = (Ok tt,
     with_dbx (set_sessions (<[s := off + d_len f]>))
       (with_log (λ l, l ++ [Call_files_upload_session_append_v2 f
                               (Some {| session_id := s; offset := off |}) close]) w)).
Proof.
  intros H. unfold files_upload_session_append_v2, session_at.
  unfold bind, emit, modify, get, ret. simpl. rewrite H.
  by rewrite bool_decide_true.
Qed.

(** The appends: from a whole chunk at [off] on, with [j] more whole chunks
    to come after it. *)
Lemma upload_loop_appends j : ∀ fuel sz off s w,
  (S j ≤ fuel)%nat →
  0 ≤ sz - (off + 10000000) →
  (sz - (off + 10000000)) / 10000000 = Z.of_nat j →
  sessions (dbx w) !! s = Some off →
  ∃ w',
    upload_loop fuel sz (off + 10000000) {| d_off := off; d_len := 10000000 |}
      false (Some s) (Some {| session_id := s; offset := off |}) off w
    = (Ok ({| d_off := off + Z.of_nat (S j) * 10000000;
              d_len := sz - (off + Z.of_nat (S j) * 10000000) |},
           Some {| session_id := s; offset := off + Z.of_nat (S j) * 10000000 |}),
       w')
    ∧ log w' = log w ++ append_calls s off (S j).
Proof.
  induction j as [|j IH]; intros fuel sz off s w Hfuel Hrem Hj Hs;
    (destruct fuel as [|fuel]; [lia|]).
  - cbn [upload_loop]. unfold bind at 1. unfold bind at 1.
    rewrite files_upload_session_append_v2_run by done. cbn [ret].
    assert (sz - (off + 10000000) < 10000000).
    { apply Z.div_small_iff in Hj; lia. }
    rewrite read_rest by lia. cbn [d_len].
    assert ((sz - (off + 10000000) <? 10000000) = true) as -> by lia.
    replace (off + Z.of_nat 1 * 10000000) with (off + 10000000) by lia.
    replace (off + 10000000 + (sz - (off + 10000000))) with sz by lia.
    destruct fuel; cbn [upload_loop]; (eexists; split; [reflexivity|]); done.
  - cbn [upload_loop]. unfold bind at 1. unfold bind at 1.
    rewrite files_upload_session_append_v2_run by done. cbn [ret].
    assert (10000000 ≤ sz - (off + 10000000)).
    { destruct (Z.lt_ge_cases (sz - (off + 10000000)) 10000000) as [Hlt|]; [|done].
      rewrite Z.div_small in Hj by lia. lia. }
    rewrite read_chunk by lia. cbn [d_len].
    assert ((10000000 <? 10000000) = false) as -> by lia.
    edestruct (IH fuel sz (off + 10000000) s) as (w' & Hrun & Hlog);
      [lia| |..|rewrite Hrun].
    + lia.
    + replace (sz - (off + 10000000 + 10000000)) with
        (sz - (off + 10000000) + (-1) * 10000000) by lia.
      rewrite Z.div_add by lia. lia.
    + simpl. by rewrite lookup_insert_eq.
    + replace (off + 10000000 + Z.of_nat (S j) * 10000000)
        with (off + Z.of_nat (S (S j)) * 10000000) by lia.
      eexists; split; [reflexivity|].
      rewrite Hlog. simpl. by rewrite <- app_assoc.
Qed.

Lemma files_upload_session_start_run f close w :
  files_upload_session_start f close w
  = (Ok (session_counter (dbx w)),
     with_dbx (λ d, bump_session (set_sessions (<[session_counter (dbx w) := d_len f]>) d))
       (with_log (λ l, l ++ [Call_files_upload_session_start f close]) w)).
Proof. done. Qed.

(** The whole loop on a file of two chunks or more: enough fuel gives the
    last data read and the cursor for the finish. *)
Lemma upload_loop_fuel fuel sz w :
  20000000 ≤ sz →
  (Z.to_nat (sz / 10000000) ≤ fuel)%nat →
  ∃ w',
    upload_loop fuel sz 10000000 {| d_off := 0; d_len := 10000000 |}
      false None None 0 w
    = (Ok ({| d_off := sz / 10000000 * 10000000;
              d_len := sz - sz / 10000000 * 10000000 |},
           Some {| session_id := session_counter (dbx w);
                   offset := sz / 10000000 * 10000000 |}),
       w')
    ∧ log w' = log w
               ++ Call_files_upload_session_start {| d_off := 0; d_len := 10000000 |} false
               :: append_calls (session_counter (dbx w)) 10000000
                    (Z.to_nat (sz / 10000000 - 1)).
Proof.
  intros Hsz Hfuel.
  assert (2 ≤ sz / 10000000) by (apply Z.div_le_lower_bound; lia).
  destruct fuel as [|fuel]; [lia|].
  cbn [upload_loop]. unfold bind at 1.
  rewrite files_upload_session_start_run.
  rewrite Z.add_0_l, read_chunk by lia. cbn [d_len].
  assert ((10000000 <? 10000000) = false) as -> by lia.
  set (w1 := with_dbx _ _).
  destruct (upload_loop_appends (Z.to_nat (sz / 10000000 - 2)) fuel sz 10000000
              (session_counter (dbx w)) w1) as (w' & Hrun & Hlog).
  - lia.
  - lia.
  - replace (sz - (10000000 + 10000000)) with (sz + (-2) * 10000000) by lia.
    rewrite Z.div_add by lia. lia.
  - subst w1. simpl. by rewrite lookup_insert_eq.
  - replace (10000000 + Z.of_nat (S (Z.to_nat (sz / 10000000 - 2))) * 10000000)
      with (sz / 10000000 * 10000000) in Hrun by lia.
    replace (S (Z.to_nat (sz / 10000000 - 2)))
      with (Z.to_nat (sz / 10000000 - 1)) in Hlog by lia.
    rewrite Hrun. eexists; split; [reflexivity|].
    rewrite Hlog. subst w1. cbn [log with_dbx with_log].
    by rewrite <- app_assoc.
Qed.

Lemma log_bind_silent {A B} (m : M A) (k : A → M B) w :
  (∀ a, frames same_log (k a)) → log (bind m k w).2 = log (m w).2.
Proof.
  intros Hk. unfold bind. destruct (m w) as [[a|e|] w1]; [apply Hk|done..].
Qed.

Lemma files_upload_session_finish_log f cur ci w :
  log (files_upload_session_finish f cur ci w).2
  = log w ++ [Call_files_upload_session_finish f cur ci].
Proof. apply emit_then_silent. frames_auto. Qed.

Lemma files_upload_log f p mode mute w :
  log (files_upload f p mode mute w).2 = log w ++ [Call_files_upload f p mode mute].
Proof. apply emit_then_silent. frames_auto. Qed.

(** What [upload] prints and asks for a regular file. *)
Lemma upload_log path because w n :
  tree w !! path = Some n → is_dir n = false → 0 ≤ fsize n →
  log (upload path because w).2
  = log w ++ Uploading path because
      :: upload_calls (session_counter (dbx w)) path (fsize n).
Proof.
  intros Hn Hd Hsz. unfold upload.
  rewrite (bind_ok _ _ _ _ _ (emit_run _ _)).
  set (w0 := with_log _ w).
  rewrite (bind_ok _ _ _ _ _ (os_path_getsize_run path w0 n Hn)).
  rewrite log_bind_silent by (intros; frames_auto).
  unfold upload_calls. destruct (140000000 <? fsize n) eqn:Hbig.
  - rewrite (bind_ok _ _ _ _ _ (open_r_run path w0 n Hn Hd)).
    rewrite read_chunk by lia.
    cbn [d_len]. assert ((10000000 <? 10000000) = false) as -> by lia.
    rewrite Z.add_0_l.
    destruct (upload_loop_fuel (S (Z.to_nat (fsize n / 10000000))) (fsize n) w0)
      as (w' & Hrun & Hlog); [lia|lia|].
    rewrite (bind_ok _ _ _ _ _ Hrun). cbn [fst snd].
    rewrite files_upload_session_finish_log, Hlog. subst w0. simpl.
    unfold session_calls. by rewrite <- !app_assoc.
  - rewrite (bind_ok _ _ _ _ _ (open_r_run path w0 n Hn Hd)).
    rewrite read_all by done.
    rewrite files_upload_log. subst w0. simpl. by rewrite <- !app_assoc.
Qed.

Lemma chunked_appends sid last j : ∀ off,
  chunked_from (off + Z.of_nat j * 10000000) [last] →
  chunked_from off (append_calls sid off j ++ [last]).
Proof.
  induction j as [|j IH]; intros off Hlast.
  - simpl. by replace (off + Z.of_nat 0 * 10000000) with off in Hlast by lia.
  - cbn [append_calls app chunked_from call_offset call_data offset].
    split; [done|]. eexists; split; [done|]. cbn [d_off d_len].
    split; [done|]. split.
    + by destruct (append_calls sid (off + 10000000) j).
    + apply IH.
      by replace (off + 10000000 + Z.of_nat j * 10000000)
        with (off + Z.of_nat (S j) * 10000000) by lia.
Qed.

Lemma session_calls_chunked sid path sz :
  20000000 ≤ sz → chunked_from 0 (session_calls sid path sz).
Proof.
  intros Hsz.
  assert (2 ≤ sz / 10000000) by (apply Z.div_le_lower_bound; lia).
  unfold session_calls. cbn [chunked_from call_offset call_data].
  split; [done|]. eexists; split; [done|]. cbn [d_off d_len].
  split; [done|]. split.
  { by destruct (append_calls _ _ _). }
  apply chunked_appends. rewrite ?Z.add_0_l.
  replace (10000000 + Z.of_nat (Z.to_nat (sz / 10000000 - 1)) * 10000000)
    with (sz / 10000000 * 10000000) by lia.
  cbn [chunked_from call_offset call_data offset].
  split; [done|]. eexists; split; [done|]. cbn [d_off d_len].
  split; [done|]. split; [|done].
  pose proof (Z.div_mod sz 10000000). pose proof (Z.mod_pos_bound sz 10000000). lia.
Qed.

(** *** The local pass, path by path *)



Lemma check_state_run path w n :
  tree w !! path = Some n →
  check_state path w =
  match remote_files (state w) !! path with
  | None => upload path (Some "-- Not Found Remotely") w
  | Some _ =>
      match local_files (state w) !! path with
      | None => (Raise (KeyError path), w)
      | Some rec =>
          if meta_modified rec <? mtime n
          then upload path (Some "-- Local File Changed") w
          else (Ok tt, w)
      end
  end.
Proof.
  intros Hn. unfold check_state. unfold bind at 1. unfold get at 1.
  destruct (remote_files (state w) !! path); [|done].
  rewrite (bind_ok _ _ _ _ _ (os_path_getmtime_run path w n Hn)).
  unfold bind, get. destruct (local_files (state w) !! path); [|done].
  by destruct (_ <? _).
Qed.

(** *** The remote pass as a whole *)

#[export] Instance listed_po S : PreOrder (listed S).
Proof.
  split.
  - intros w. split; [done|]. split; [|done]. exists []. by rewrite app_nil_r.
  - intros w1 w2 w3 (Hd1 & (l1 & Hl1 & Hf1) & Hs1) (Hd2 & (l2 & Hl2 & Hf2) & Hs2).
    split; [congruence|]. split.
    + exists (l1 ++ l2). split; [by rewrite Hl2, Hl1, app_assoc|].
      by apply Forall_app.
    + intros p Hp. destruct (Hs1 p Hp) as [E1 E2]. destruct (Hs2 p Hp) as [E3 E4].
      split; congruence.
Qed.

Lemma listed_mono S S' w w' : S ⊆ S' → listed S w w' → listed S' w w'.
Proof.
  intros HS (Hd & Hl & Hs). split; [done|]. split; [done|].
  intros p Hp. apply Hs. set_solver.
Qed.

Lemma frames_listed_mono S S' {A} (m : M A) :
  S ⊆ S' → frames (listed S) m → frames (listed S') m.
Proof. intros HS Hm w. eapply listed_mono; [done|apply Hm]. Qed.

Lemma listed_quiet S w w' :
  dbx w' = dbx w → state w' = state w → log w' = log w → listed S w w'.
Proof.
  intros Hd Hs Hl. split; [done|]. split; [|by rewrite Hs].
  exists []. by rewrite app_nil_r.
Qed.

Lemma listed_emit S e w :
  is_deletion e = false → listed S w (with_log (λ l, l ++ [e]) w).
Proof.
  intros He. split; [done|]. split; [|done].
  exists [e]. split; [done|]. by constructor.
Qed.

Ltac listed_leaf :=
  first [ by apply listed_quiet | by apply listed_emit ].

Ltac listed_auto :=
  repeat first [frame_step | solve [eauto with frames] | solve [listed_leaf]].

Lemma os_path_exists_listed S p : frames (listed S) (os_path_exists p).
Proof. unfold os_path_exists. listed_auto. Qed.

Lemma os_path_getmtime_listed S p : frames (listed S) (os_path_getmtime p).
Proof. unfold os_path_getmtime. listed_auto. Qed.

Lemma os_mkdir_listed S p : frames (listed S) (os_mkdir p).
Proof. unfold os_mkdir. listed_auto. Qed.

Lemma os_makedirs_listed S p : frames (listed S) (os_makedirs p).
Proof.
  unfold os_makedirs. frame_step; [listed_auto|].
  induction (Path.ancestry p) as [|q qs IH]; simpl; [listed_auto|].
  pose proof (os_mkdir_listed S). pose proof (os_path_exists_listed S).
  listed_auto.
Qed.

Lemma files_download_to_file_listed S d p :
  frames (listed S) (files_download_to_file d p).
Proof. unfold files_download_to_file, save_body_to_file. listed_auto. Qed.

Lemma files_list_folder_continue_listed S c :
  frames (listed S) (files_list_folder_continue c).
Proof. unfold files_list_folder_continue. listed_auto. Qed.

Lemma files_list_folder_listed S p r : frames (listed S) (files_list_folder p r).
Proof. unfold files_list_folder. listed_auto. Qed.

Lemma record_meta_listed S path meta :
  path ∈ S → frames (listed S) (record_meta path meta).
Proof.
  intros Hp w. split; [done|]. split; [exists []; by rewrite app_nil_r|].
  intros p Hne. simpl. rewrite !lookup_insert_ne by set_solver. done.
Qed.

#[export] Hint Resolve os_path_exists_listed os_path_getmtime_listed
  os_makedirs_listed files_download_to_file_listed
  files_list_folder_continue_listed files_list_folder_listed : frames.

Lemma download_remote_listed S path because :
  path ∈ S → frames (listed S) (download_remote path because).
Proof.
  intros Hp. unfold download_remote.
  pose proof (record_meta_listed S path) as Hr.
  listed_auto.
Qed.

(** A folder entry: [make_local_dir] is called for a path that does not
    exist, and there it only makes the directory. *)
Lemma make_local_dir_absent path w :
  tree w !! path = None → make_local_dir path w = os_makedirs path w.
Proof.
  intros Ht. unfold make_local_dir, os_path_exists. unfold bind at 1 2.
  unfold get. simpl. rewrite Ht. by rewrite bool_decide_false by (by intros [??]).
Qed.

Lemma bind_cong {A B} (m1 m2 : M A) (k : A → M B) w :
  m1 w = m2 w → bind m1 k w = bind m2 k w.
Proof. intros H. unfold bind. by rewrite H. Qed.

Lemma process_folder_entry_run path_display seen w :
  process_remote_entry (FolderMetadata path_display) seen w =
  (ex <- os_path_exists (Path.drop 1 path_display) ;;
   (if negb ex
    then emit (MakingDirectory (Path.drop 1 path_display)) ;;
         os_makedirs (Path.drop 1 path_display)
    else ret tt) ;;
   ret seen) w.
Proof.
  simpl. unfold bind at 1 4. unfold os_path_exists at 1 2. unfold bind at 1 4.
  simpl. destruct (tree w !! Path.drop 1 path_display) eqn:Ht.
  - rewrite bool_decide_true by eauto. done.
  - rewrite bool_decide_false by (by intros [??]). simpl.
    apply bind_cong. rewrite !(bind_ok _ _ _ _ _ (emit_run _ _)).
    by apply make_local_dir_absent.
Qed.

Lemma process_remote_entry_listed e seen :
  frames (listed (file_paths [e])) (process_remote_entry e seen).
Proof.
  destruct e as [pd rev|pd].
  - intros w. rewrite process_file_entry_run. simpl.
    assert (Path.drop 1 pd ∈ file_paths [FileMetadata pd rev]) as Hin.
    { unfold file_paths. simpl. set_solver. }
    pose proof (download_remote_listed _ _ (Some "-- Not Found Locally") Hin).
    pose proof (download_remote_listed _ _ (Some "-- Remote File Changed") Hin).
    destruct (local_files (state w) !! Path.drop 1 pd);
      [case_bool_decide|]; try reflexivity.
    + assert (frames (listed (file_paths [FileMetadata pd rev]))
        (download_remote (Path.drop 1 pd) (Some "-- Remote File Changed") ;;
         ret ({[Path.drop 1 pd]} ∪ seen))) as Hf by listed_auto.
      apply Hf.
    + assert (frames (listed (file_paths [FileMetadata pd rev]))
        (download_remote (Path.drop 1 pd) (Some "-- Not Found Locally") ;;
         ret ({[Path.drop 1 pd]} ∪ seen))) as Hf by listed_auto.
      apply Hf.
  - intros w. rewrite process_folder_entry_run. revert w.
    change (frames (listed (file_paths [FolderMetadata pd]))
      (ex <- os_path_exists (Path.drop 1 pd) ;;
       (if negb ex
        then emit (MakingDirectory (Path.drop 1 pd)) ;; os_makedirs (Path.drop 1 pd)
        else ret tt) ;;
       ret seen)).
    listed_auto.
Qed.

Lemma file_paths_cons e es : file_paths (e :: es) = file_paths [e] ∪ file_paths es.
Proof. unfold file_paths. simpl. destruct (entry_file_path e); simpl; set_solver. Qed.

Lemma file_paths_app es1 es2 : file_paths (es1 ++ es2) = file_paths es1 ∪ file_paths es2.
Proof.
  induction es1 as [|e es1 IH]; simpl.
  - unfold file_paths at 2. simpl. set_solver.
  - rewrite file_paths_cons, (file_paths_cons e es1), IH. set_solver.
Qed.

Lemma process_remote_entry_seen e seen w s w' :
  process_remote_entry e seen w = (Ok s, w') → s = file_paths [e] ∪ seen.
Proof.
  destruct e as [pd rev|pd]; simpl; intros H.
  - apply bind_ok_inv in H as (? & ? & _ & H).
    apply bind_ok_inv in H as (? & ? & _ & H).
    unfold file_paths. simpl. unfold ret in H. simplify_eq. set_solver.
  - apply bind_ok_inv in H as (? & ? & _ & H).
    apply bind_ok_inv in H as (? & ? & _ & H).
    unfold file_paths. simpl. unfold ret in H. simplify_eq. set_solver.
Qed.

Lemma process_remote_entries_listed es : ∀ seen w s w',
  process_remote_entries es seen w = (Ok s, w') →
  s = file_paths es ∪ seen ∧ listed (file_paths es) w w'.
Proof.
  induction es as [|e es IH]; intros seen w s w' H; simpl in H.
  - unfold ret in H. simplify_eq. split; [unfold file_paths; simpl; set_solver|].
    reflexivity.
  - apply bind_ok_inv in H as (s1 & w1 & H1 & H2).
    pose proof (process_remote_entry_listed e seen w) as Hl1. rewrite H1 in Hl1.
    apply process_remote_entry_seen in H1 as ->.
    destruct (IH _ _ _ _ H2) as [-> Hl2].
    rewrite (file_paths_cons e es). split; [set_solver|].
    etrans; (eapply listed_mono; [|done]); set_solver.
Qed.

Lemma page_parts d es : entries (page d es) ++ cursor (page d es) = es.
Proof. apply take_drop. Qed.

Lemma page_no_more d es : has_more (page d es) = false → cursor (page d es) = [].
Proof. unfold page. simpl. by destruct (drop _ es). Qed.

Lemma files_list_folder_continue_run cur w :
  files_list_folder_continue cur w
  = (Ok (page (dbx w) cur), with_log (λ l, l ++ [Call_files_list_folder_continue]) w).
Proof. done. Qed.

Lemma files_list_folder_run p r w :
  files_list_folder p r w
  = (Ok (page (dbx w) (listing (dbx w))),
     with_log (λ l, l ++ [Call_files_list_folder p r]) w).
Proof. done. Qed.

(** The loop over the pages processes the whole listing. *)
Lemma delta_loop_listed fuel : ∀ es seen w s w',
  delta_loop fuel (page (dbx w) es) seen w = (Ok s, w') →
  s = file_paths es ∪ seen ∧ listed (file_paths es) w w'.
Proof.
  induction fuel as [|fuel IH]; intros es seen w s w' H; [done|].
  cbn [delta_loop] in H.
  apply bind_ok_inv in H as (s1 & w1 & H1 & H2).
  apply process_remote_entries_listed in H1 as [-> Hl1].
  assert (file_paths es = file_paths (entries (page (dbx w) es))
                          ∪ file_paths (cursor (page (dbx w) es))) as ->
    by (by rewrite <- file_paths_app, page_parts).
  destruct (has_more (page (dbx w) es)) eqn:Hmore; simpl in H2.
  - rewrite (bind_ok _ _ _ _ _ (files_list_folder_continue_run _ _)) in H2.
    set (w2 := with_log _ w1) in H2.
    change (dbx w1) with (dbx w2) in H2.
    apply IH in H2 as [-> Hl2].
    split; [set_solver|].
    etrans; [eapply listed_mono; [|exact Hl1]; set_solver|].
    etrans; [apply (listed_emit _ Call_files_list_folder_continue); done|].
    eapply listed_mono; [|exact Hl2]. set_solver.
  - unfold ret in H2. simplify_eq.
    rewrite (page_no_more _ _ Hmore).
    split; [unfold file_paths at 2; simpl; set_solver|].
    eapply listed_mono; [|done]. set_solver.
Qed.

Lemma delete_local_present path w x y :
  local_files (state w) !! path = Some x →
  remote_files (state w) !! path = Some y →
  ∃ w', delete_local path w = (Ok tt, w')
        ∧ log w' = log w ++ [DeletingLocally path; Os_remove path]
        ∧ local_files (state w') = delete path (local_files (state w))
        ∧ remote_files (state w') = delete path (remote_files (state w)).
Proof.
  intros Hl Hr.
  unfold delete_local, os_remove, emit, try_except_pass.
  unfold bind at 1 2 3 4. unfold modify, get, raise. simpl.
  destruct (tree w !! path) as [n|]; simpl; [destruct (is_dir n)|]; simpl;
    rewrite del_pair_run; simpl; rewrite Hl, Hr;
    (eexists; split; [reflexivity|]); simpl; by rewrite <- app_assoc.
Qed.

Lemma sweep_log_ext s s' seen keys :
  (∀ k, k ∈ keys → local_files s !! k = local_files s' !! k) →
  sweep_log s seen keys = sweep_log s' seen keys.
Proof.
  induction keys as [|k keys IH]; intros H; simpl; [done|].
  rewrite (H k) by set_solver. f_equal. apply IH. intros k' ?. apply H. set_solver.
Qed.

Lemma sweep_run seen keys : ∀ w,
  NoDup keys →
  (∀ k, k ∈ keys → is_Some (remote_files (state w) !! k)) →
  ∃ w', for_each keys (sweep_body seen) w = (Ok tt, w')
        ∧ log w' = log w ++ sweep_log (state w) seen keys
        ∧ ∀ p, local_files (state w') !! p
               = after_sweep (state w) seen keys p (local_files (state w))
               ∧ remote_files (state w') !! p
                 = after_sweep (state w) seen keys p (remote_files (state w)).
Proof.
  induction keys as [|k keys IH]; intros w Hnd Hrem.
  - exists w. split; [done|]. split; [by rewrite app_nil_r|].
    intros p. unfold after_sweep. rewrite bool_decide_false by set_solver. done.
  - apply NoDup_cons in Hnd as [Hk Hnd].
    assert (∃ w1, sweep_body seen k w = (Ok tt, w1)
              ∧ log w1 = log w ++ sweep_log (state w) seen [k]
              ∧ ∀ p, local_files (state w1) !! p
                     = after_sweep (state w) seen [k] p (local_files (state w))
                     ∧ remote_files (state w1) !! p
                       = after_sweep (state w) seen [k] p (remote_files (state w)))
      as (w1 & Hrun & Hlog & Hst).
    { unfold sweep_body, sweep_log, after_sweep. simpl.
      destruct (decide (k ∈ seen)) as [Hin|Hin].
      - rewrite bool_decide_false by (by intros ?). rewrite bool_decide_false by tauto.
        exists w. split; [done|]. split; [by rewrite app_nil_r|].
        intros p. rewrite bool_decide_false by set_solver. done.
      - rewrite bool_decide_true by done. unfold bind, get.
        destruct (local_files (state w) !! k) as [x|] eqn:Hl.
        + destruct (Hrem k) as [y Hr]; [set_solver|].
          destruct (delete_local_present k w x y Hl Hr) as (w1 & -> & Hlog & El & Er).
          exists w1. split; [done|]. rewrite bool_decide_true by eauto.
          split; [by rewrite app_nil_r|]. intros p. rewrite El, Er.
          destruct (decide (p = k)) as [->|Hne].
          * rewrite bool_decide_true by (rewrite Hl; set_solver).
            by rewrite !lookup_delete_eq.
          * rewrite bool_decide_false by set_solver.
            by rewrite !lookup_delete_ne.
        + rewrite bool_decide_false by (intros [_ [??]]; done).
          exists w. split; [done|]. split; [by rewrite app_nil_r|].
          intros p. rewrite bool_decide_false; [done|].
          intros (Hp & _ & [??]). apply list_elem_of_singleton in Hp as ->. congruence. }
    assert (∀ k', k' ∈ keys →
              local_files (state w1) !! k' = local_files (state w) !! k'
              ∧ remote_files (state w1) !! k' = remote_files (state w) !! k') as Hsame.
    { intros k' Hk'. destruct (Hst k') as [-> ->]. unfold after_sweep.
      rewrite bool_decide_false; [done|].
      intros (Hp & _). apply list_elem_of_singleton in Hp as ->. done. }
    destruct (IH w1 Hnd) as (w' & Hrun' & Hlog' & Hst').
    { intros k' Hk'. rewrite (proj2 (Hsame k' Hk')). apply Hrem. set_solver. }
    exists w'. split; [|split].
    + cbn [for_each]. by rewrite (bind_ok _ _ _ _ _ Hrun).
    + rewrite Hlog', Hlog. rewrite (sweep_log_ext (state w1) (state w)).
      * unfold sweep_log. simpl. by rewrite app_nil_r, <- app_assoc.
      * intros k' Hk'. apply Hsame, Hk'.
    + intros p. destruct (Hst' p) as [-> ->]. destruct (Hst p) as [E1 E2].
      unfold after_sweep in *.
      destruct (decide (p = k)) as [->|Hne].
      * rewrite (bool_decide_false (k ∈ keys ∧ _)) by tauto.
        rewrite E1, E2.
        destruct (decide ((k ∉ seen) ∧ is_Some (local_files (state w) !! k))).
        -- rewrite !bool_decide_true; [done| |]; set_solver.
        -- rewrite !bool_decide_false; [done| |]; set_solver.
      * rewrite E1, E2. rewrite (bool_decide_false (p ∈ [k] ∧ _)) by set_solver.
        destruct (decide (p ∈ keys ∧ (p ∉ seen)
                          ∧ is_Some (local_files (state w) !! p))).
        -- rewrite !bool_decide_true; [done| |]; set_solver.
        -- rewrite !bool_decide_false; [done| |]; set_solver.
Qed.

Lemma sweep_log_deletions s seen keys :
  Forall (λ e, is_deletion e = true) (sweep_log s seen keys).
Proof.
  induction keys as [|k keys IH]; simpl; [done|].
  unfold sweep_log in *. simpl. case_bool_decide; simpl; [|done].
  by repeat constructor.
Qed.

Lemma sweep_log_elem s seen keys e :
  e ∈ sweep_log s seen keys ↔
  ∃ k, k ∈ keys ∧ (k ∉ seen) ∧ is_Some (local_files s !! k)
       ∧ (e = DeletingLocally k ∨ e = Os_remove k).
Proof.
  unfold sweep_log. rewrite list_elem_of_In, in_flat_map. split.
  - intros (k & Hk & He). apply list_elem_of_In in Hk.
    case_bool_decide as Hc; [|by apply list_elem_of_In, elem_of_nil in He].
    exists k. destruct Hc. apply list_elem_of_In in He. set_solver.
  - intros (k & Hk & Hs & Hl & He). exists k. split; [by apply list_elem_of_In|].
    rewrite bool_decide_true by done. apply list_elem_of_In. set_solver.
Qed.

Lemma keys_elem {A} (m : gmap string A) k :
  k ∈ (map_to_list m).*1 ↔ is_Some (m !! k).
Proof.
  rewrite list_elem_of_fmap. split.
  - intros ([k' x] & -> & H). apply elem_of_map_to_list in H. eauto.
  - intros [x H]. exists (k, x). split; [done|]. by apply elem_of_map_to_list.
Qed.

Example execute_delta_deleted_remotely :
  log (execute_delta w_deleted_remotely).2
  = [Call_files_list_folder "" true;
     Downloading "b" (Some "-- Not Found Locally");
     Call_files_download_to_file "b" "/b";
     DeletingLocally "a"; Os_remove "a"].
Proof. vm_compute. reflexivity. Qed.

(** *** Fuel: the remote pass does not run out of it *)

Lemma raises_only_ret P {A} (a : A) : raises_only P (ret a).
Proof. by intros w. Qed.

Lemma raises_only_raise (P : exn → Prop) {A} e : P e → raises_only P (@raise A e).
Proof. by intros He w. Qed.

Lemma raises_only_get P : raises_only P get.
Proof. by intros w. Qed.

Lemma raises_only_modify P f : raises_only P (modify f).
Proof. by intros w. Qed.

Lemma raises_only_try P m : no_timeout m → raises_only P (try_except_pass m).
Proof.
  intros Hm w. unfold try_except_pass. specialize (Hm w).
  by destruct (m w) as [[[]|e|] w1].
Qed.

Lemma raises_only_for_each P {A} (xs : list A) body :
  (∀ x, raises_only P (body x)) → raises_only P (for_each xs body).
Proof.
  intros Hb. induction xs as [|x xs IH]; simpl; [apply raises_only_ret|].
  by apply raises_only_bind.
Qed.

Lemma raises_only_weaken (P Q : exn → Prop) {A} (m : M A) :
  (∀ e, P e → Q e) → raises_only P m → raises_only Q m.
Proof.
  intros HPQ Hm w. specialize (Hm w). destruct ((m w).1); auto.
Qed.

Ltac raises_step :=
  lazymatch goal with
  | |- raises_only _ (ret _) => apply raises_only_ret
  | |- raises_only _ (raise _) => apply raises_only_raise; done
  | |- raises_only _ get => apply raises_only_get
  | |- raises_only _ (modify _) => apply raises_only_modify
  | |- raises_only _ (emit _) => apply raises_only_modify
  | |- raises_only _ (try_except_pass _) => apply raises_only_try
  | |- raises_only _ (bind _ _) => apply raises_only_bind; [|intros ?]
  | |- raises_only _ (for_each _ _) => apply raises_only_for_each; intros ?
  | |- raises_only _ (match ?x with _ => _ end) => destruct x eqn:?
  end.

Create HintDb total discriminated.
Ltac total_auto := repeat first [raises_step | solve [eauto with total]].

Lemma os_path_exists_total p : no_timeout (os_path_exists p).
Proof. unfold os_path_exists. total_auto. Qed.

Lemma os_path_isfile_total p : no_timeout (os_path_isfile p).
Proof. unfold os_path_isfile. total_auto. Qed.

Lemma os_path_getmtime_total p : no_timeout (os_path_getmtime p).
Proof. unfold os_path_getmtime. total_auto. Qed.

Lemma os_remove_total p : no_timeout (os_remove p).
Proof. unfold os_remove. total_auto. Qed.

Lemma os_makedirs_total p : no_timeout (os_makedirs p).
Proof.
  unfold os_makedirs. total_auto.
  eapply raises_only_weaken; [|apply makedirs_rec_raises]. done.
Qed.

Lemma os_makedir_total p : no_timeout (os_makedir p).
Proof. unfold os_makedir. total_auto. Qed.

Lemma files_download_to_file_total d p : no_timeout (files_download_to_file d p).
Proof. unfold files_download_to_file, save_body_to_file. total_auto. Qed.

Lemma record_meta_total p meta : no_timeout (record_meta p meta).
Proof. unfold record_meta. total_auto. Qed.

Lemma del_local_files_total p : no_timeout (del_local_files p).
Proof. unfold del_local_files. total_auto. Qed.

Lemma del_remote_files_total p : no_timeout (del_remote_files p).
Proof. unfold del_remote_files. total_auto. Qed.

#[export] Hint Resolve os_path_exists_total os_path_isfile_total
  os_path_getmtime_total os_remove_total os_makedirs_total os_makedir_total
  files_download_to_file_total record_meta_total del_local_files_total
  del_remote_files_total : total.

Lemma download_remote_total path because : no_timeout (download_remote path because).
Proof. unfold download_remote. total_auto. Qed.

Lemma make_local_dir_total path : no_timeout (make_local_dir path).
Proof. unfold make_local_dir. total_auto. Qed.

Lemma delete_local_total path : no_timeout (delete_local path).
Proof. unfold delete_local. total_auto. Qed.

#[export] Hint Resolve download_remote_total make_local_dir_total
  delete_local_total : total.

Lemma process_remote_entry_total e seen : no_timeout (process_remote_entry e seen).
Proof. destruct e; simpl; total_auto. Qed.

Lemma process_remote_entries_total es : ∀ seen,
  no_timeout (process_remote_entries es seen).
Proof.
  induction es as [|e es IH]; intros seen; simpl; [total_auto|].
  apply raises_only_bind; [apply process_remote_entry_total|]. intros s. apply IH.
Qed.

Lemma process_remote_entries_dbx es seen w :
  dbx (process_remote_entries es seen w).2 = dbx w.
Proof.
  revert seen w. induction es as [|e es IH]; intros seen w; simpl; [done|].
  unfold bind. pose proof (process_remote_entry_listed e seen w) as (Hd & _).
  destruct (process_remote_entry e seen w) as [[s|?|] w1]; [|done..].
  rewrite IH. exact Hd.
Qed.

(** The loop over the pages ends within one turn per entry that is left. *)
Lemma delta_loop_fuel fuel : ∀ es seen w,
  (length (cursor (page (dbx w) es)) < fuel)%nat →
  (delta_loop fuel (page (dbx w) es) seen w).1 ≠ Timeout.
Proof.
  induction fuel as [|fuel IH]; intros es seen w Hlen; [lia|].
  cbn [delta_loop]. unfold bind at 1.
  pose proof (process_remote_entries_total (entries (page (dbx w) es)) seen w) as Ht.
  pose proof (process_remote_entries_dbx (entries (page (dbx w) es)) seen w) as Hd.
  destruct (process_remote_entries _ seen w) as [[s1|?|] w1];
    simpl in Ht, Hd; [|done..].
  destruct (has_more (page (dbx w) es)) eqn:Hmore; cbn [negb]; [|done].
  rewrite (bind_ok _ _ _ _ _ (files_list_folder_continue_run _ _)).
  set (w2 := with_log _ w1). change (dbx w1) with (dbx w2).
  apply IH. unfold page in *. cbn [cursor has_more] in *.
  destruct (drop (S (page_extra (dbx w))) es) as [|e rest] eqn:Hdrop; [done|].
  rewrite length_drop. cbn [length] in *. lia.
Qed.

Lemma sweep_body_total seen path : no_timeout (sweep_body seen path).
Proof. unfold sweep_body. total_auto. Qed.

Lemma execute_delta_total w : (execute_delta w).1 ≠ Timeout.
Proof.
  unfold execute_delta.
  rewrite (bind_ok _ _ _ _ _ (files_list_folder_run _ _ _)).
  set (w0 := with_log _ w). unfold bind at 1.
  pose proof (delta_loop_fuel
    (S (length (cursor (page (dbx w0) (listing (dbx w0))))))
    (listing (dbx w0)) ∅ w0 (Nat.lt_succ_diag_r _)) as Hfuel.
  change (dbx w) with (dbx w0).
  destruct (delta_loop _ _ ∅ w0) as [[seen|?|] w1]; [|done..].
  unfold bind, get.
  pose proof (raises_only_for_each (λ _, True)
    (map_to_list (remote_files (state w1))).*1 (sweep_body seen)
    (sweep_body_total seen) w1) as Hs.
  by destruct (for_each _ _ w1) as [[[]|?|] ?].
Qed.

(** *** A folder where a file is *)

(** C8 at a folder entry whose path is a local file: the remote pass does
    nothing for the entry, since [make_local_dir] is called only for a path
    that does not exist; the file stays and no directory is made.  Called on
    its own, [make_local_dir] deletes the file and its entry in
    [local_files] and then raises, [os.makedir] being no function of [os]:
    the directory is not made there either. *)
Theorem folder_entry_leaves_file_in_place :
  process_remote_entry (FolderMetadata "/a") ∅ w_file_for_folder
  = (Ok ∅, w_file_for_folder)
  ∧ execute_delta w_file_for_folder
    = (Ok tt, with_log (λ _, [Call_files_list_folder "" true]) w_file_for_folder)
  ∧ (make_local_dir "a" w_synced_file_for_folder).1 = Raise (AttributeError "makedir")
  ∧ tree (make_local_dir "a" w_synced_file_for_folder).2 !! "a" = None
  ∧ local_files (state (make_local_dir "a" w_synced_file_for_folder).2) !! "a" = None
  ∧ (make_local_dir "a" w_file_for_folder).1 = Raise (KeyError "a").
Proof. vm_compute. done. Qed.

(** For a folder entry whose path is not there, the directory is made. *)
Example folder_entry_makes_directory :
  tree (process_remote_entry (FolderMetadata "/docs") ∅ w_one_file).2 !! "docs"
  = Some (folder 10).
Proof. vm_compute. done. Qed.

(** *** Two runs in a row *)

(** C5 at a file deleted locally since the last run: the first run asks
    Dropbox to delete ["a"], not ["/a"], which Dropbox refuses, and forgets
    the file; nothing changes between the runs, and the second run finds the
    file on Dropbox and downloads it. *)
Theorem second_run_downloads_deleted_file :
  two_runs (save_state (synced "a" "r1" 1)) w_deleted_locally
  = (Ok tt, Ok tt,
     [Call_files_list_folder "" true;
      Downloading "a" (Some "-- Not Found Locally");
      Call_files_download_to_file "a" "/a"])
  ∧ log (main (save_state (synced "a" "r1" 1)) w_deleted_locally).2
    = [Call_files_list_folder "" true; DeletingOnDropbox "a"; Call_files_delete "a"]
  ∧ filter (λ e, is_transfer e = true)
      (two_runs (save_state (synced "a" "r1" 1)) w_deleted_locally).2
    = [Call_files_download_to_file "a" "/a"].
Proof. vm_compute. done. Qed.

(** Without a deletion the second run transfers nothing: a new local file
    and a new remote file. *)
Example second_run_idle :
  filter (λ e, is_transfer e = true)
    (two_runs None
       {| state := new_state; tree := {[ "x.txt" := file 1 3 ]}; now := 10;
          dbx := box {[ "/docs" := RFolder; "/docs/z" := RFile "r1" 3 ]};
          log := [] |}).2
  = [].
Proof. vm_compute. done. Qed.

(** *** The state file *)

(** C9, as the code has it: [save_state] empties the state file and then
    writes the new state into it.  The empty file in between is no dump of
    any state, and [load_state] reads it as a new, empty state; once
    [save_state] is through, [load_state] gives the state saved. *)
Theorem save_state_empties_then_writes `{Pickle} before st :
  crash_points before st = [before; Some empty_file; save_state st]
  ∧ (∀ s, Some empty_file ≠ save_state s)
  ∧ load_state (Some empty_file) = new_state
  ∧ load_state (save_state st) = st.
Proof.
  split; [done|]. split; [|split].
  - intros s Heq. injection Heq as Heq.
    pose proof (pickle_load_dump s) as Hs. rewrite <- Heq in Hs.
    by rewrite pickle_load_empty in Hs.
  - unfold load_state. by rewrite pickle_load_empty.
  - unfold load_state, save_state. by rewrite pickle_load_dump.
Qed.

(** C9 as stated fails: stopped after [open], [save_state] leaves a state
    file that is neither the state saved before nor the new one, and the
    next run loads an empty state from it. *)
Lemma save_state_crash_loses_state :
  Some empty_file ∈ crash_points (save_state (synced "a" "r1" 1)) (synced "a" "r2" 2)
  ∧ Some empty_file ≠ save_state (synced "a" "r1" 1)
  ∧ Some empty_file ≠ save_state (synced "a" "r2" 2)
  ∧ load_state (Some empty_file) = new_state
  ∧ load_state (save_state (synced "a" "r1" 1)) ≠ new_state.
Proof.
  split; [|split; [|split; [|split]]]; try done.
  unfold crash_points, save_state_steps. set_solver.
Qed.

(** *** Paths *)

Example split_ex : Path.split "./site-packages/x" = ["."; "site-packages"; "x"].
Proof. reflexivity. Qed.
Example os_path_split_ex :
  Path.os_path_split "docs/sub/readme.txt" = ("docs/sub", "readme.txt")
  ∧ Path.os_path_split "readme.txt" = ("", "readme.txt").
Proof. split; reflexivity. Qed.
Example os_path_join_ex :
  Path.os_path_join "/" "docs/readme.txt" = "/docs/readme.txt"
  ∧ Path.os_path_join "./docs" "readme.txt" = "./docs/readme.txt".
Proof. split; reflexivity. Qed.
Example ancestry_ex : Path.ancestry "a/b/c" = ["a/b/c"; "a/b"; "a"].
Proof. reflexivity. Qed.


(** *** The file list of the local pass *)

Lemma strip_prefix_Some p : ∀ s t, strip_prefix p s = Some t → s = p +:+ t.
Proof.
  induction p as [|a p IH]; intros [|b s] t H; simpl in H; simplify_eq; try done.
  destruct (Ascii.eqb a b) eqn:E; [|done].
  apply Ascii.eqb_eq in E as ->. by rewrite (IH _ _ H).
Qed.

Lemma no_sep_not_rooted name :
  no_sep name = true → Path.startswith name "/" = false.
Proof.
  destruct name as [|c name]; [done|]. cbn [no_sep]. intros H.
  apply andb_true_iff in H as [H _]. apply negb_true_iff in H.
  unfold Path.startswith. cbn [String.prefix].
  by destruct (Ascii.ascii_dec "/" c) as [<-|].
Qed.

Lemma append_assoc (a b c : string) : (a +:+ b) +:+ c = a +:+ b +:+ c.
Proof.
  induction a as [|x a IH]; [done|].
  change (String x ((a +:+ b) +:+ c) = String x (a +:+ b +:+ c)). by rewrite IH.
Qed.

Lemma child_of_Some dir k n name :
  child_of dir (k, n) = Some name →
  k = (if bool_decide (dir = "") then "" else dir +:+ "/") +:+ name
  ∧ no_sep name = true ∧ name ≠ "".
Proof.
  unfold child_of. cbn [fst].
  destruct (strip_prefix _ k) as [name'|] eqn:Hs; [|done].
  destruct (no_sep name') eqn:Hn; cbn [andb]; [|done].
  destruct (decide (name' = "")) as [He|He].
  - rewrite bool_decide_true by done. simpl. done.
  - rewrite bool_decide_false by done. simpl. intros ?. simplify_eq.
    split; [by apply strip_prefix_Some|]. done.
Qed.

Lemma children_files t dir name :
  name ∈ children t false dir →
  ∃ k n, t !! k = Some n ∧ is_dir n = false ∧ child_of dir (k, n) = Some name.
Proof.
  unfold children. rewrite list_elem_of_omap. intros ([k n] & Hin & H).
  apply elem_of_map_to_list in Hin. simpl in H.
  destruct (is_dir n) eqn:Hd; simpl in H; [done|]. eauto.
Qed.

Lemma join_root name :
  no_sep name = true → Path.drop 2 (Path.os_path_join "." name) = name.
Proof.
  intros Hn. unfold Path.os_path_join. by rewrite (no_sep_not_rooted _ Hn).
Qed.

Lemma join_dir d name :
  no_sep name = true →
  (d ≠ "" → Path.endswith ("./" +:+ d) "/" = false) →
  Path.drop 2 (Path.os_path_join ("./" +:+ d) name)
  = (if bool_decide (d = "") then "" else d +:+ "/") +:+ name.
Proof.
  intros Hn Hd. unfold Path.os_path_join. rewrite (no_sep_not_rooted _ Hn).
  rewrite (bool_decide_false ("./" +:+ d = "")) by (intros H; discriminate H).
  cbn [orb]. case_bool_decide as He.
  - subst d. done.
  - rewrite (Hd He).
    change (d +:+ "/" +:+ name = (d +:+ "/") +:+ name).
    by rewrite append_assoc.
Qed.

Lemma strip_prefix_append p s : strip_prefix p (p +:+ s) = Some s.
Proof.
  induction p as [|a p IH]; [by destruct s|].
  change (String a p +:+ s) with (String a (p +:+ s)). cbn [strip_prefix].
  by rewrite Ascii.eqb_refl.
Qed.

Lemma child_of_prefix dir name n :
  no_sep name = true → name ≠ "" →
  child_of dir (dir_prefix dir +:+ name, n) = Some name.
Proof.
  intros Hn Hne. unfold child_of, dir_prefix. cbn [fst].
  rewrite strip_prefix_append, Hn. by rewrite bool_decide_false.
Qed.

Lemma children_inv t dirs dir name :
  name ∈ children t dirs dir →
  ∃ n, t !! (dir_prefix dir +:+ name) = Some n ∧ is_dir n = dirs
       ∧ no_sep name = true ∧ name ≠ "".
Proof.
  unfold children. rewrite list_elem_of_omap. intros ([k n] & Hin & H).
  apply elem_of_map_to_list in Hin. simpl in H.
  destruct (Bool.eqb (is_dir n) dirs) eqn:Hd; [|done].
  apply Bool.eqb_prop in Hd.
  apply child_of_Some in H as (-> & Hn & Hne). exists n. by unfold dir_prefix.
Qed.

Lemma children_intro t dirs dir name n :
  t !! (dir_prefix dir +:+ name) = Some n → is_dir n = dirs →
  no_sep name = true → name ≠ "" →
  name ∈ children t dirs dir.
Proof.
  intros Hk Hd Hn Hne. unfold children. apply list_elem_of_omap.
  exists (dir_prefix dir +:+ name, n). split; [by apply elem_of_map_to_list|].
  cbn [snd]. rewrite Hd, Bool.eqb_reflx. by apply child_of_prefix.
Qed.

Lemma children_elem t dir name n :
  t !! (dir_prefix dir +:+ name) = Some n → is_dir n = false →
  no_sep name = true → name ≠ "" →
  name ∈ children t false dir.
Proof. apply children_intro. Qed.

(** No path that ends in a name ends in a separator. *)
Lemma rev_app_append (a b acc : string) :
  String.rev_app (a +:+ b) acc = String.rev_app b (String.rev_app a acc).
Proof.
  revert acc. induction a as [|x a IH]; intros acc; [done|].
  change (String x a +:+ b) with (String x (a +:+ b)). cbn [String.rev_app].
  apply IH.
Qed.

Lemma rev_app_name name : ∀ acc,
  no_sep name = true → name ≠ "" →
  ∃ c rest, String.rev_app name acc = String c rest ∧ c ≠ "/"%char.
Proof.
  induction name as [|x name IH]; intros acc Hn Hne; [done|].
  cbn [no_sep] in Hn. apply andb_true_iff in Hn as [Hx Hn].
  apply negb_true_iff, Ascii.eqb_neq in Hx. cbn [String.rev_app].
  destruct name as [|y name].
  - exists x, acc. done.
  - apply IH; done.
Qed.

Lemma endswith_name a name :
  no_sep name = true → name ≠ "" → Path.endswith (a +:+ name) "/" = false.
Proof.
  intros Hn Hne. unfold Path.endswith, String.rev.
  rewrite rev_app_append.
  destruct (rev_app_name name (String.rev_app a "") Hn Hne) as (c & rest & -> & Hc).
  change (String.rev_app "/" "") with "/". cbn [String.prefix].
  by destruct (Ascii.ascii_dec "/" c) as [<-|].
Qed.

Lemma length_append (a b : string) :
  String.length (a +:+ b) = (String.length a + String.length b)%nat.
Proof.
  induction a as [|x a IH]; [done|].
  change (String x a +:+ b) with (String x (a +:+ b)). cbn [String.length].
  by rewrite IH.
Qed.

(** The string [os.walk('.')] yields for the directory [dir] of the tree. *)
Lemma join_top dir name :
  no_sep name = true →
  (dir ≠ "" → Path.endswith ("./" +:+ dir) "/" = false) →
  Path.os_path_join (if bool_decide (dir = "") then "." else "./" +:+ dir) name
  = "./" +:+ dir_prefix dir +:+ name.
Proof.
  intros Hn Hd. unfold dir_prefix. destruct (decide (dir = "")) as [->|He].
  - unfold Path.os_path_join. by rewrite (no_sep_not_rooted _ Hn).
  - rewrite !bool_decide_false by done. unfold Path.os_path_join.
    rewrite (no_sep_not_rooted _ Hn).
    rewrite (bool_decide_false ("./" +:+ dir = "")) by (intros H; discriminate H).
    cbn [orb]. rewrite (Hd He).
    change ("./" +:+ dir +:+ "/" +:+ name = "./" +:+ (dir +:+ "/") +:+ name).
    by rewrite (append_assoc dir).
Qed.

Lemma tree_ok_dir_end t dir :
  tree_ok t →
  (dir = "" ∨ ∃ nd, t !! dir = Some nd ∧ is_dir nd = true) →
  dir ≠ "" → Path.endswith ("./" +:+ dir) "/" = false.
Proof.
  intros Hok [->|(nd & Hnd & Hd)] Hne; [done|]. by apply (Hok _ _ Hnd).
Qed.

Lemma tree_placed_dir_end t dir :
  tree_placed t →
  (dir = "" ∨ ∃ nd, t !! dir = Some nd ∧ is_dir nd = true) →
  dir ≠ "" → Path.endswith ("./" +:+ dir) "/" = false.
Proof.
  intros Hok [->|(nd & Hnd & _)] Hne; [done|].
  destruct (Hok _ _ Hnd) as (d0 & name & -> & Hn & Hnn & _).
  rewrite <- append_assoc. by apply endswith_name.
Qed.

Lemma prefix_name_nonempty dir name : name ≠ "" → dir_prefix dir +:+ name ≠ "".
Proof.
  intros Hne H. apply (f_equal String.length) in H.
  rewrite length_append in H. destruct name; [done|]. simpl in H. lia.
Qed.

Lemma walk_step t fuel top dir x :
  x ∈ walk (S fuel) t top dir ↔
  x = (top, children t true dir, children t false dir)
  ∨ ∃ name, name ∈ children t true dir
      ∧ x ∈ walk fuel t (Path.os_path_join top name) (dir_prefix dir +:+ name).
Proof.
  cbn [walk]. rewrite elem_of_cons, list_elem_of_In, in_flat_map.
  split; (intros [?|(name & ? & ?)]; [by left|right; exists name]);
    by rewrite ?list_elem_of_In in *.
Qed.

Lemma walk_sound t : tree_ok t → ∀ fuel dir x,
  (dir = "" ∨ ∃ nd, t !! dir = Some nd ∧ is_dir nd = true) →
  x ∈ walk fuel t (if bool_decide (dir = "") then "." else "./" +:+ dir) dir →
  ∃ d, (d = "" ∨ ∃ nd, t !! d = Some nd ∧ is_dir nd = true)
       ∧ x = (if bool_decide (d = "") then "." else "./" +:+ d,
              children t true d, children t false d).
Proof.
  intros Hok. induction fuel as [|fuel IH]; intros dir x Hdir Hx.
  { by apply elem_of_nil in Hx. }
  apply walk_step in Hx as [->|(name & Hname & Hx)]; [by exists dir|].
  apply children_inv in Hname as (n & Hk & Hd & Hn & Hne).
  rewrite (join_top _ _ Hn (tree_ok_dir_end _ _ Hok Hdir)) in Hx.
  apply (IH (dir_prefix dir +:+ name)); [right; eauto|].
  by rewrite bool_decide_false by by apply prefix_name_nonempty.
Qed.

Lemma walk_mono t fuel : ∀ top dir x,
  x ∈ walk fuel t top dir → x ∈ walk (S fuel) t top dir.
Proof.
  induction fuel as [|fuel IH]; intros top dir x Hx.
  { by apply elem_of_nil in Hx. }
  apply walk_step. apply walk_step in Hx as [->|(name & Hname & Hx)]; [by left|].
  right. exists name. split; [done|]. by apply IH.
Qed.

Lemma walk_mono_le t f f' top dir x :
  (f ≤ f')%nat → x ∈ walk f t top dir → x ∈ walk f' t top dir.
Proof. induction 1; [done|]. intros Hx. by apply walk_mono, IHle. Qed.

Lemma walk_sub t : tree_placed t → ∀ n d,
  (String.length d ≤ n)%nat →
  (d = "" ∨ ∃ nd, t !! d = Some nd ∧ is_dir nd = true) →
  ∀ f x,
    x ∈ walk f t (if bool_decide (d = "") then "." else "./" +:+ d) d →
    x ∈ walk (f + String.length d) t "." "".
Proof.
  intros Hok. induction n as [|n IH]; intros d Hlen Hd f x Hx.
  - destruct d; [|simpl in Hlen; lia]. simpl. by rewrite Nat.add_0_r.
  - destruct (decide (d = "")) as [->|Hne].
    { simpl. by rewrite Nat.add_0_r. }
    destruct Hd as [?|(nd & Hnd & Hdd)]; [done|].
    destruct (Hok _ _ Hnd) as (d0 & name & -> & Hn & Hnn & Hd0).
    assert (String.length d0 < String.length (dir_prefix d0 +:+ name))%nat as Hlt.
    { rewrite length_append. unfold dir_prefix.
      destruct (decide (d0 = "")) as [->|He].
      - destruct name; [done|]. simpl. lia.
      - rewrite bool_decide_false by done. rewrite length_append. simpl. lia. }
    apply (walk_mono_le t (S f + String.length d0)); [lia|].
    apply (IH d0); [lia|done|].
    apply walk_step. right. exists name.
    split; [by apply (children_intro _ _ _ _ nd)|].
    rewrite (join_top _ _ Hn (tree_placed_dir_end _ _ Hok Hd0)).
    by rewrite bool_decide_false in Hx by done.
Qed.

Lemma longest_le t p n : t !! p = Some n → (String.length p ≤ longest t)%nat.
Proof.
  intros Hp. unfold longest. apply max_list_elem_of_le.
  apply list_elem_of_fmap. exists p. split; [done|].
  apply list_elem_of_fmap. exists (p, n). split; [done|].
  by apply elem_of_map_to_list.
Qed.

(** [os.walk('.')] yields one triple for the top directory and for every
    directory of the tree, and no other. *)
Lemma os_walk_sound t x :
  tree_ok t → x ∈ os_walk t →
  ∃ d, (d = "" ∨ ∃ nd, t !! d = Some nd ∧ is_dir nd = true)
       ∧ x = (if bool_decide (d = "") then "." else "./" +:+ d,
              children t true d, children t false d).
Proof. intros Hok. apply (walk_sound t Hok _ ""). by left. Qed.

Lemma os_walk_complete t d :
  tree_placed t →
  (d = "" ∨ ∃ nd, t !! d = Some nd ∧ is_dir nd = true) →
  (if bool_decide (d = "") then "." else "./" +:+ d,
   children t true d, children t false d) ∈ os_walk t.
Proof.
  intros Hok Hd. unfold os_walk.
  apply (walk_mono_le t (1 + String.length d)).
  - destruct Hd as [->|(nd & Hnd & _)]; [simpl; lia|].
    pose proof (longest_le _ _ _ Hnd). lia.
  - apply (walk_sub t Hok (String.length d) d); [done|done|].
    apply walk_step. by left.
Qed.

Lemma scan_elem t path :
  path ∈ scan t ↔
  ∃ root dirnames filenames filename,
    (root, dirnames, filenames) ∈ os_walk t
    ∧ valid_dir_for_upload root = true
    ∧ filename ∈ filenames
    ∧ valid_filename_for_upload filename = true
    ∧ path = Path.drop 2 (Path.os_path_join root filename).
Proof.
  unfold scan. rewrite list_elem_of_In, in_flat_map. split.
  - intros ([[root dirnames] filenames] & Hw & Hin).
    destruct (valid_dir_for_upload root) eqn:Hroot; [|done].
    apply in_flat_map in Hin as (filename & Hf & Hin).
    destruct (valid_filename_for_upload filename) eqn:Hname; [|done].
    destruct Hin as [<-|[]].
    exists root, dirnames, filenames, filename.
    by rewrite !list_elem_of_In.
  - intros (root & dirnames & filenames & filename & Hw & Hroot & Hf & Hname & ->).
    exists (root, dirnames, filenames). split; [by apply list_elem_of_In|].
    rewrite Hroot. apply in_flat_map. exists filename.
    split; [by apply list_elem_of_In|]. rewrite Hname. by left.
Qed.

Lemma valid_dir_top dir :
  valid_dir_for_upload (if bool_decide (dir = "") then "." else "./" +:+ dir)
  = valid_dir_for_upload ("./" +:+ dir).
Proof. case_bool_decide as He; [by subst dir|done]. Qed.

Lemma scan_sound t path :
  tree_ok t → path ∈ scan t →
  ∃ dir name n,
    path = dir_prefix dir +:+ name
    ∧ t !! path = Some n ∧ is_dir n = false
    ∧ no_sep name = true ∧ name ≠ ""
    ∧ (dir = "" ∨ ∃ nd, t !! dir = Some nd ∧ is_dir nd = true)
    ∧ valid_dir_for_upload ("./" +:+ dir) = true
    ∧ valid_filename_for_upload name = true.
Proof.
  intros Hok. rewrite scan_elem.
  intros (root & dirnames & filenames & filename & Hw & Hroot & Hf & Hname & ->).
  apply (os_walk_sound _ _ Hok) in Hw as (d & Hd & Hw). simplify_eq.
  apply children_inv in Hf as (n & Hk & Hdn & Hn & Hne).
  rewrite (join_top _ _ Hn (tree_ok_dir_end _ _ Hok Hd)).
  rewrite valid_dir_top in Hroot.
  exists d, filename, n. change (Path.drop 2 ("./" +:+ ?s)) with s.
  done.
Qed.

Lemma scan_complete t dir name n :
  tree_placed t →
  t !! (dir_prefix dir +:+ name) = Some n → is_dir n = false →
  no_sep name = true → name ≠ "" →
  (dir = "" ∨ ∃ nd, t !! dir = Some nd ∧ is_dir nd = true) →
  valid_dir_for_upload ("./" +:+ dir) = true →
  valid_filename_for_upload name = true →
  dir_prefix dir +:+ name ∈ scan t.
Proof.
  intros Hok Hk Hd Hn Hne Hdir Hroot Hname. apply scan_elem.
  exists (if bool_decide (dir = "") then "." else "./" +:+ dir),
    (children t true dir), (children t false dir), name.
  split; [by apply os_walk_complete|].
  split; [by rewrite valid_dir_top|].
  split; [by eapply children_elem|]. split; [done|].
  by rewrite (join_top _ _ Hn (tree_placed_dir_end _ _ Hok Hdir)).
Qed.

Lemma scan_ok t path :
  tree_ok t → tree_placed t →
  path ∈ scan t ↔
  ∃ dir name n,
    path = dir_prefix dir +:+ name
    ∧ t !! path = Some n ∧ is_dir n = false
    ∧ no_sep name = true ∧ name ≠ ""
    ∧ (dir = "" ∨ ∃ nd, t !! dir = Some nd ∧ is_dir nd = true)
    ∧ valid_dir_for_upload ("./" +:+ dir) = true
    ∧ valid_filename_for_upload name = true.
Proof.
  intros Hok Hpl. split; [by apply scan_sound|].
  intros (dir & name & n & -> & Hk & Hd & Hn & Hne & Hdir & Hroot & Hname).
  by eapply scan_complete.
Qed.

(** Every path of the file list is a regular file of the tree. *)
Lemma scan_regular_files t path :
  tree_ok t → path ∈ scan t →
  ∃ n, t !! path = Some n ∧ is_dir n = false ∧ 0 ≤ fsize n.
Proof.
  intros Hok Hin. apply (scan_sound _ _ Hok) in Hin as (dir & name & n & -> & Hk & Hd & _).
  exists n. split; [done|]. split; [done|]. by apply (Hok _ _ Hk).
Qed.

(** The local pass leaves the tree alone. *)
Lemma os_path_getsize_same_tree p : frames same_tree (os_path_getsize p).
Proof. unfold os_path_getsize. frames_auto. Qed.

Lemma os_path_getmtime_same_tree p : frames same_tree (os_path_getmtime p).
Proof. unfold os_path_getmtime. frames_auto. Qed.

Lemma open_r_same_tree p : frames same_tree (open_r p).
Proof. unfold open_r. frames_auto. Qed.

Lemma commit_same_tree len p mode : frames same_tree (commit len p mode).
Proof. unfold commit. frames_auto. Qed.

Lemma session_at_same_tree c : frames same_tree (session_at c).
Proof. unfold session_at. frames_auto. Qed.

Lemma record_meta_same_tree p meta : frames same_tree (record_meta p meta).
Proof. unfold record_meta. frames_auto. Qed.

#[export] Hint Resolve os_path_getsize_same_tree os_path_getmtime_same_tree
  open_r_same_tree commit_same_tree session_at_same_tree
  record_meta_same_tree : frames.

Lemma files_upload_same_tree f p mode mute :
  frames same_tree (files_upload f p mode mute).
Proof. unfold files_upload. frames_auto. Qed.

Lemma files_upload_session_start_same_tree f c :
  frames same_tree (files_upload_session_start f c).
Proof. unfold files_upload_session_start. frames_auto. Qed.

Lemma files_upload_session_append_v2_same_tree f cur c :
  frames same_tree (files_upload_session_append_v2 f cur c).
Proof. unfold files_upload_session_append_v2. frames_auto. Qed.

Lemma files_upload_session_finish_same_tree f cur ci :
  frames same_tree (files_upload_session_finish f cur ci).
Proof. unfold files_upload_session_finish. frames_auto. Qed.

#[export] Hint Resolve files_upload_same_tree files_upload_session_start_same_tree
  files_upload_session_append_v2_same_tree
  files_upload_session_finish_same_tree : frames.

Lemma upload_loop_same_tree fuel sz pos f close sid cur off :
  frames same_tree (upload_loop fuel sz pos f close sid cur off).
Proof.
  revert pos f close sid cur off.
  induction fuel as [|n IH]; intros; simpl; frames_auto.
Qed.

#[export] Hint Resolve upload_loop_same_tree : frames.

Lemma upload_same_tree path because : frames same_tree (upload path because).
Proof. unfold upload. frames_auto. Qed.

#[export] Hint Resolve upload_same_tree : frames.

Lemma check_state_same_tree path : frames same_tree (check_state path).
Proof. unfold check_state. frames_auto. Qed.

Lemma tree_okb_ok t : tree_okb t = true → tree_ok t.
Proof.
  unfold tree_okb. rewrite forallb_forall. intros H p n Hp.
  specialize (H (p, n)). rewrite <- list_elem_of_In, elem_of_map_to_list in H.
  apply H, andb_true_iff in Hp as [Hsz Hd]. cbn [fst snd] in Hsz, Hd.
  split; [lia|]. intros Hdir Hne. rewrite Hdir in Hd. cbn [negb orb] in Hd.
  rewrite bool_decide_false in Hd by done. cbn [orb] in Hd.
  by apply negb_true_iff in Hd.
Defined.

Lemma tree_placedb_ok t : tree_placedb t = true → tree_placed t.
Proof.
  unfold tree_placedb. rewrite forallb_forall. intros H p n Hp.
  specialize (H (p, n)). rewrite <- list_elem_of_In, elem_of_map_to_list in H.
  apply H, existsb_exists in Hp as (d & Hd & Hc).
  apply bool_decide_eq_true in Hc as [name Hc].
  apply child_of_Some in Hc as (-> & Hn & Hne).
  exists d, name. split; [done|]. split; [done|]. split; [done|].
  destruct Hd as [<-|Hd]; [by left|right].
  apply list_elem_of_In, list_elem_of_omap in Hd as ([k nd] & Hk & Hdd).
  apply elem_of_map_to_list in Hk. simpl in Hdd.
  destruct (is_dir nd) eqn:E; [|done]. simplify_eq. eauto.
Defined.

Lemma tree_ok_one_file p m sz : 0 ≤ sz → tree_ok {[ p := file m sz ]}.
Proof.
  intros Hsz q n Hq. apply lookup_singleton_Some in Hq as [<- <-].
  split; [done|]. intros Hd. discriminate Hd.
Defined.

(** *** Fuel: the local pass and the main block do not run out of it *)

Lemma os_path_getsize_total p : no_timeout (os_path_getsize p).
Proof. unfold os_path_getsize. total_auto. Qed.

Lemma open_r_total p : no_timeout (open_r p).
Proof. unfold open_r. total_auto. Qed.

Lemma commit_total len p mode : no_timeout (commit len p mode).
Proof. unfold commit. total_auto. Qed.

Lemma session_at_total c : no_timeout (session_at c).
Proof. unfold session_at. total_auto. Qed.

Lemma files_delete_total p : no_timeout (files_delete p).
Proof. unfold files_delete. total_auto. Qed.

#[export] Hint Resolve os_path_getsize_total open_r_total commit_total
  session_at_total files_delete_total : total.

Lemma files_upload_total f p mode mute : no_timeout (files_upload f p mode mute).
Proof. unfold files_upload. total_auto. Qed.

Lemma files_upload_session_finish_total f cur ci :
  no_timeout (files_upload_session_finish f cur ci).
Proof. unfold files_upload_session_finish. total_auto. Qed.

Lemma delete_remote_total path : no_timeout (delete_remote path).
Proof. unfold delete_remote. total_auto. Qed.

#[export] Hint Resolve files_upload_total files_upload_session_finish_total
  delete_remote_total : total.

Lemma bind_ret {A B} (a : A) (k : A → M B) w : bind (ret a) k w = k a w.
Proof. done. Qed.

(** The session of [upload]: the fuel it gives the loop is enough, for a
    file of any length. *)
Lemma upload_session_total path sz :
  no_timeout
    (let '(f, pos) := read sz 0 10000000 in
     last <-
       upload_loop (S (Z.to_nat (sz / 10000000))) sz pos f
         (d_len f <? 10000000) None None 0 ;;
     files_upload_session_finish last.1 last.2
       {| ci_path := Path.os_path_join "/" path; ci_mode := overwrite;
          ci_mute := true |}).
Proof.
  intros w.
  destruct (Z.lt_ge_cases sz 10000000) as [Hsmall|Hone].
  - unfold read. cbn [d_len].
    assert ((Z.max 0 (Z.min 10000000 (sz - 0)) <? 10000000) = true) as -> by lia.
    cbn [upload_loop]. rewrite bind_ret.
    apply files_upload_session_finish_total.
  - destruct (Z.lt_ge_cases sz 20000000) as [Htwo|Hmany].
    + rewrite read_chunk by lia. cbn [d_len].
      assert ((10000000 <? 10000000) = false) as -> by lia.
      cbn [upload_loop].
      rewrite bind_assoc, (bind_ok _ _ _ _ _ (files_upload_session_start_run _ _ _)).
      rewrite read_rest by lia. cbn [d_len].
      assert ((sz - (0 + 10000000) <? 10000000) = true) as -> by lia.
      assert (∀ fuel pos f sid cur off,
                upload_loop fuel sz pos f true sid cur off = ret (f, cur)) as Hend
        by (by intros []).
      rewrite Hend. rewrite bind_ret.
      apply files_upload_session_finish_total.
    + rewrite read_chunk by lia. cbn [d_len].
      assert ((10000000 <? 10000000) = false) as -> by lia. rewrite Z.add_0_l.
      destruct (upload_loop_fuel (S (Z.to_nat (sz / 10000000))) sz w)
        as (w' & Hrun & _); [lia|lia|].
      rewrite (bind_ok _ _ _ _ _ Hrun). apply files_upload_session_finish_total.
Qed.

#[export] Hint Resolve upload_session_total : total.

Lemma upload_total path because : no_timeout (upload path because).
Proof.
  unfold upload. pose proof (upload_session_total path).
  repeat first
    [ lazymatch goal with
      | |- raises_only _ (let '(_, _) := read _ 0 10000000 in _) =>
          apply upload_session_total
      end
    | raises_step
    | solve [eauto with total] ].
Qed.

#[export] Hint Resolve upload_total : total.

Lemma check_state_total path : no_timeout (check_state path).
Proof. unfold check_state. total_auto. Qed.

Lemma check_local_total : no_timeout check_local.
Proof.
  unfold check_local. pose proof check_state_total. total_auto.
Qed.

(** The main block ends: it returns or it raises. *)
Lemma main_total `{Pickle} file w : (main file w).1.1 ≠ Timeout.
Proof.
  unfold main, check_remote.
  pose proof (execute_delta_total (with_state (λ _, load_state file) w)) as H1.
  destruct (execute_delta _) as [[[]|?|] w1]; [|done..].
  pose proof (check_local_total w1) as H2.
  by destruct (check_local w1) as [[[]|?|] w2].
Qed.

(** *** The filters of the local scan *)

Example valid_dir_ex :
  valid_dir_for_upload "." = true
  ∧ valid_dir_for_upload "./docs/sub" = true
  ∧ valid_dir_for_upload "./.git" = false
  ∧ valid_dir_for_upload "./site-packages" = false
  ∧ valid_dir_for_upload "./temp" = false
  ∧ valid_dir_for_upload "./docs/temp" = true.
Proof. by vm_compute. Qed.

Example valid_filename_ex :
  valid_filename_for_upload "notes.txt" = true
  ∧ valid_filename_for_upload STATE_FILE = false
  ∧ valid_filename_for_upload ".hidden" = false
  ∧ valid_filename_for_upload "@tmp" = false
  ∧ valid_filename_for_upload "notes.txt~" = false
  ∧ valid_filename_for_upload "m.pyc" = false
  ∧ valid_filename_for_upload "m.pyo" = false.
Proof. by vm_compute. Qed.

Example scan_ex :
  scan {[ "x.txt" := file 1 3; "docs" := folder 1; "docs/r.txt" := file 2 5;
          ".hid" := file 1 1; "temp" := folder 1; "temp/q" := file 1 1;
          "a~" := file 1 1 ]}
  = ["x.txt"; "docs/r.txt"].
Proof. by vm_compute. Qed.

(** * Further properties *)

(** *** The two maps agree *)

Lemma record_meta_agrees path meta :
  frames (keeps local_agrees) (record_meta path meta).
Proof.
  intros w. unfold keeps, local_agrees. simpl. intros H. by apply insert_mono.
Qed.

Lemma del_local_files_agrees path :
  frames (keeps local_agrees) (del_local_files path).
Proof.
  intros w. unfold del_local_files, bind, get, keeps, local_agrees. simpl.
  destruct (local_files (state w) !! path); simpl; [|done].
  intros H. etrans; [apply delete_subseteq|done].
Qed.

Lemma del_pair_agrees path :
  frames (keeps local_agrees) (del_local_files path ;; del_remote_files path).
Proof.
  intros w. rewrite del_pair_run. unfold keeps, local_agrees.
  destruct (local_files (state w) !! path) eqn:Hl;
    [destruct (remote_files (state w) !! path) eqn:Hr|]; simpl; intros H.
  - by apply delete_mono.
  - etrans; [apply delete_subseteq|done].
  - done.
Qed.

Lemma run_op_agrees o : frames (keeps local_agrees) (run_op o).
Proof.
  pose proof record_meta_agrees. pose proof del_local_files_agrees.
  destruct o as [path because|path because|path|path|path]; simpl.
  - unfold upload. frames_auto.
  - unfold download_remote. frames_auto.
  - intros w. destruct (delete_local_run path w) as (w1 & Hs & ->).
    intros Hw. apply del_pair_agrees. by rewrite Hs.
  - intros w. destruct (delete_remote_run path w) as (w1 & Hs & ->).
    intros Hw. apply del_pair_agrees. by rewrite Hs.
  - unfold make_local_dir. frames_auto.
Qed.

(** X1: in every state reached from the empty one by the five methods,
    a path of [local_files] has the same record in [remote_files]. *)
Theorem local_records_are_remote_records w :
  reachable w → local_files (state w) ⊆ remote_files (state w).
Proof.
  intros Hw. change (local_agrees (state w)).
  induction Hw as [w Hw|w w' _ IH Hs|w o _ IH].
  - rewrite Hw. unfold local_agrees. simpl. done.
  - by rewrite Hs.
  - by apply run_op_agrees.
Qed.

Lemma local_records_are_remote_records_witness :
  local_files (state (make_local_dir "a" (upload "a" None w_one_file).2).2)
  ⊆ remote_files (state (make_local_dir "a" (upload "a" None w_one_file).2).2).
Proof. apply local_records_are_remote_records, reachable_conflict. Defined.

(** *** A transfer that fails *)

Lemma quiet_same_state {A} (m : M A) : frames same_state m → quiet_on_failure m.
Proof. intros Hm w. rewrite (Hm w). by destruct ((m w).1). Qed.

Lemma quiet_bind {A B} (m : M A) (k : A → M B) :
  frames same_state m → (∀ a, quiet_on_failure (k a)) → quiet_on_failure (bind m k).
Proof.
  intros Hm Hk w. unfold bind. specialize (Hm w).
  destruct (m w) as [[a|e|] w1]; simpl in *; [|done..].
  specialize (Hk a w1). rewrite <- Hm. by destruct ((k a w1).1).
Qed.

Lemma quiet_record_meta path meta : quiet_on_failure (record_meta path meta).
Proof. by intros w. Qed.

Ltac quiet_step :=
  lazymatch goal with
  | |- quiet_on_failure (bind _ _) => apply quiet_bind; [frames_auto|intros ?]
  | |- quiet_on_failure (record_meta _ _) => apply quiet_record_meta
  end.

Lemma upload_quiet path because : quiet_on_failure (upload path because).
Proof. unfold upload. repeat quiet_step. Qed.

Lemma download_remote_quiet path because :
  quiet_on_failure (download_remote path because).
Proof.
  unfold download_remote. destruct (Path.os_path_split path) as [head tail].
  repeat quiet_step.
Qed.

(** X2: [upload] and [download_remote] change the two maps only when they
    return: after a call that raises, both maps are as before. *)
Theorem failed_transfer_keeps_maps path because w :
  match (upload path because w).1 with
  | Ok _ => True
  | _ => state (upload path because w).2 = state w
  end
  ∧ match (download_remote path because w).1 with
    | Ok _ => True
    | _ => state (download_remote path because w).2 = state w
    end.
Proof. split; [apply upload_quiet|apply download_remote_quiet]. Qed.

(** *** What a transfer that returns has done *)

Ltac frames_leaf ::=
  unfold same_state, same_log, same_tree, same_dbx, same_store, same_clock,
    objects_kept, local_grows, tree_grows, keeps;
  simpl; done.

#[export] Instance same_dbx_po : PreOrder same_dbx.
Proof. split; unfold same_dbx; [by intros x|]. intros x y z ??. congruence. Qed.

#[export] Instance same_store_po : PreOrder same_store.
Proof.
  split; unfold same_store; [by intros x|].
  intros x y z [??] [??]. split; congruence.
Qed.

#[export] Instance same_clock_po : PreOrder same_clock.
Proof.
  split; unfold same_clock; [by intros x|].
  intros x y z [??] [??]. split; congruence.
Qed.

Lemma session_at_same_store c : frames same_store (session_at c).
Proof. unfold session_at. frames_auto. Qed.

Lemma files_upload_session_start_same_store f c :
  frames same_store (files_upload_session_start f c).
Proof. unfold files_upload_session_start. frames_auto. Qed.

Lemma files_upload_session_append_v2_same_store f cur c :
  frames same_store (files_upload_session_append_v2 f cur c).
Proof.
  unfold files_upload_session_append_v2. pose proof session_at_same_store.
  frames_auto.
Qed.

Lemma upload_loop_same_store fuel sz pos f close sid cur off :
  frames same_store (upload_loop fuel sz pos f close sid cur off).
Proof.
  pose proof files_upload_session_start_same_store.
  pose proof files_upload_session_append_v2_same_store.
  revert pos f close sid cur off.
  induction fuel as [|n IH]; intros; simpl; frames_auto.
Qed.

Lemma prefix_empty s : String.prefix "" s = true.
Proof. by destruct s. Qed.

Lemma rooted_slash path : rooted ("/" +:+ path) = true.
Proof.
  unfold rooted, Path.startswith.
  change ("/" +:+ path) with (String "/" path). cbn [String.prefix].
  destruct (Ascii.ascii_dec "/" "/"); [apply prefix_empty|done].
Qed.

Lemma rooted_join path : rooted (Path.os_path_join "/" path) = true.
Proof.
  unfold Path.os_path_join.
  destruct (Path.startswith path "/") eqn:E; [done|].
  change (bool_decide ("/" = "") || Path.endswith "/" "/") with true.
  apply rooted_slash.
Qed.

Lemma join_relative path :
  rooted path = false → Path.os_path_join "/" path = "/" +:+ path.
Proof. unfold Path.os_path_join, rooted. by intros ->. Qed.

Lemma accepted_rooted p : rooted p = true → accepted p = true.
Proof. unfold accepted. by intros ->. Qed.

Lemma target_rooted d p : rooted p = true → target d p = Some p.
Proof. unfold target. by intros ->. Qed.

Lemma commit_ok len p mode w r w' :
  rooted p = true →
  commit len p mode w = (Ok r, w') →
  objects (dbx w') = <[p := RFile r len]> (objects (dbx w))
  ∧ tree w' = tree w ∧ state w' = state w.
Proof.
  intros Hp. unfold commit, bind, get, modify, raise, ret. simpl.
  rewrite (accepted_rooted _ Hp), (target_rooted _ _ Hp). simpl.
  destruct (objects (dbx w) !! p) as [[]|]; destruct mode; simpl;
    intros ?; by simplify_eq.
Qed.

Lemma files_upload_ok f p mode mute w r w' :
  rooted p = true →
  files_upload f p mode mute w = (Ok r, w') →
  objects (dbx w') = <[p := RFile r (d_len f)]> (objects (dbx w))
  ∧ tree w' = tree w ∧ state w' = state w.
Proof.
  intros Hp. unfold files_upload. rewrite (bind_ok _ _ _ _ _ (emit_run _ _)).
  intros H. by apply commit_ok in H.
Qed.

Lemma files_upload_session_finish_ok f c ci w r w' :
  rooted (ci_path ci) = true →
  files_upload_session_finish f (Some c) ci w = (Ok r, w') →
  objects (dbx w') = <[ci_path ci := RFile r (offset c + d_len f)]> (objects (dbx w))
  ∧ tree w' = tree w ∧ state w' = state w.
Proof.
  intros Hp. unfold files_upload_session_finish.
  rewrite (bind_ok _ _ _ _ _ (emit_run _ _)). intros H.
  apply bind_ok_inv in H as (c' & w1 & Hc & H).
  assert (c' = c ∧ w1 = with_log (λ l, l ++ [Call_files_upload_session_finish f (Some c) ci]) w)
    as [-> ->].
  { revert Hc. unfold session_at, bind, get, raise, ret. simpl.
    destruct (sessions (dbx w) !! session_id c); [|done].
    case_bool_decide; [|done]. intros ?. by simplify_eq. }
  apply bind_ok_inv in H as (r' & w2 & Hcommit & H).
  apply commit_ok in Hcommit as (Ho & Ht & Hs); [|done].
  revert H. unfold bind, modify, ret. simpl. intros ?. simplify_eq. simpl.
  by rewrite Ho, Ht, Hs.
Qed.

Lemma open_r_ok p w n sz w' :
  tree w !! p = Some n → open_r p w = (Ok sz, w') →
  sz = fsize n ∧ w' = w ∧ is_dir n = false.
Proof.
  intros Hn. unfold open_r, bind, get, raise, ret. simpl. rewrite Hn.
  destruct (is_dir n); [done|]. intros ?. by simplify_eq.
Qed.

Lemma record_meta_run path meta w :
  record_meta path meta w
  = (Ok tt, with_state (set_remote_files (<[path := meta]>))
              (with_state (set_local_files (<[path := meta]>)) w)).
Proof. done. Qed.

(** The request part of [upload]. *)
Lemma upload_request_ok path w n r w' :
  tree w !! path = Some n → 0 ≤ fsize n →
  (if 140000000 <? fsize n then
     sz <- open_r path ;;
     let '(f, pos) := read sz 0 10000000 in
     last <-
       upload_loop (S (Z.to_nat (sz / 10000000))) sz pos f
         (d_len f <? 10000000) None None 0 ;;
     files_upload_session_finish last.1 last.2
       {| ci_path := Path.os_path_join "/" path; ci_mode := overwrite;
          ci_mute := true |}
   else
     sz <- open_r path ;;
     let '(f, _) := read sz 0 sz in
     files_upload f (Path.os_path_join "/" path) overwrite true) w = (Ok r, w') →
  objects (dbx w')
  = <[Path.os_path_join "/" path := RFile r (fsize n)]> (objects (dbx w))
  ∧ tree w' = tree w ∧ state w' = state w.
Proof.
  intros Hn Hsz. destruct (140000000 <? fsize n) eqn:Hbig; intros H.
  - apply bind_ok_inv in H as (sz & w0 & Hopen & H).
    apply (open_r_ok _ _ _ _ _ Hn) in Hopen as (-> & -> & Hd).
    rewrite read_chunk in H by lia. cbn [d_len] in H.
    assert ((10000000 <? 10000000) = false) as Hf by lia. rewrite Hf in H.
    rewrite Z.add_0_l in H.
    destruct (upload_loop_fuel (S (Z.to_nat (fsize n / 10000000))) (fsize n) w)
      as (w1 & Hrun & _); [lia|lia|].
    pose proof (upload_loop_same_store (S (Z.to_nat (fsize n / 10000000)))
      (fsize n) 10000000 {| d_off := 0; d_len := 10000000 |} false None None 0 w)
      as [Ho _].
    pose proof (upload_loop_same_tree (S (Z.to_nat (fsize n / 10000000)))
      (fsize n) 10000000 {| d_off := 0; d_len := 10000000 |} false None None 0 w)
      as Ht.
    pose proof (upload_loop_same_state (S (Z.to_nat (fsize n / 10000000)))
      (fsize n) 10000000 {| d_off := 0; d_len := 10000000 |} false None None 0 w)
      as Hs.
    rewrite Hrun in Ho, Ht, Hs. unfold same_tree, same_state in *. simpl in *.
    rewrite (bind_ok _ _ _ _ _ Hrun) in H. cbn [fst snd] in H.
    apply files_upload_session_finish_ok in H as (Ho' & Ht' & Hs');
      [|apply rooted_join].
    cbn [ci_path offset d_len] in Ho'.
    replace (fsize n / 10000000 * 10000000
             + (fsize n - fsize n / 10000000 * 10000000)) with (fsize n) in Ho' by lia.
    rewrite Ho', Ht', Hs', Ho, Ht, Hs. done.
  - apply bind_ok_inv in H as (sz & w0 & Hopen & H).
    apply (open_r_ok _ _ _ _ _ Hn) in Hopen as (-> & -> & Hd).
    rewrite read_all in H by done.
    by apply files_upload_ok in H; [|apply rooted_join].
Qed.

Lemma upload_ok path because w w' n :
  tree w !! path = Some n → 0 ≤ fsize n →
  upload path because w = (Ok tt, w') →
  ∃ r,
    objects (dbx w')
    = <[Path.os_path_join "/" path := RFile r (fsize n)]> (objects (dbx w))
    ∧ local_files (state w')
      = <[path := {| meta_rev := r; meta_modified := mtime n |}]>
          (local_files (state w))
    ∧ remote_files (state w')
      = <[path := {| meta_rev := r; meta_modified := mtime n |}]>
          (remote_files (state w))
    ∧ tree w' = tree w.
Proof.
  intros Hn Hsz H. unfold upload in H.
  rewrite (bind_ok _ _ _ _ _ (emit_run _ _)) in H.
  set (w0 := with_log _ w) in H.
  rewrite (bind_ok _ _ _ _ _ (os_path_getsize_run path w0 n Hn)) in H.
  apply bind_ok_inv in H as (r & w2 & Hreq & H).
  apply (upload_request_ok path w0 n r w2 Hn Hsz) in Hreq as (Ho & Ht & Hs).
  assert (tree w2 !! path = Some n) as Hn2 by (by rewrite Ht).
  rewrite (bind_ok _ _ _ _ _ (os_path_getmtime_run path w2 n Hn2)) in H.
  rewrite record_meta_run in H. simplify_eq. exists r. simpl.
  by rewrite Ho, Ht, Hs.
Qed.

(** X3: an [upload] that returns has put the file on Dropbox at
    ["/" + path] with its length, and has recorded the revision Dropbox gave
    and the modification time of the file, the same record in both maps; the
    tree is as before. *)
Theorem upload_records path because w w' n :
  tree w !! path = Some n → 0 ≤ fsize n →
  upload path because w = (Ok tt, w') →
  ∃ r,
    objects (dbx w')
    = <[Path.os_path_join "/" path := RFile r (fsize n)]> (objects (dbx w))
    ∧ local_files (state w')
      = <[path := {| meta_rev := r; meta_modified := mtime n |}]>
          (local_files (state w))
    ∧ remote_files (state w')
      = <[path := {| meta_rev := r; meta_modified := mtime n |}]>
          (remote_files (state w))
    ∧ tree w' = tree w.
Proof. apply upload_ok. Qed.

Lemma upload_records_witness :
  ∃ r,
    objects (dbx (upload "a" None w_one_file).2)
    = <[Path.os_path_join "/" "a" := RFile r (fsize (file 1 3))]>
        (objects (dbx w_one_file))
    ∧ local_files (state (upload "a" None w_one_file).2)
      = <[ "a" := {| meta_rev := r; meta_modified := mtime (file 1 3) |}]>
          (local_files (state w_one_file))
    ∧ remote_files (state (upload "a" None w_one_file).2)
      = <[ "a" := {| meta_rev := r; meta_modified := mtime (file 1 3) |}]>
          (remote_files (state w_one_file))
    ∧ tree (upload "a" None w_one_file).2 = tree w_one_file.
Proof.
  apply (upload_records "a" None w_one_file _ (file 1 3));
    [reflexivity|discriminate|by vm_compute].
Defined.

Lemma os_path_exists_same_clock p : frames same_clock (os_path_exists p).
Proof. unfold os_path_exists. frames_auto. Qed.

Lemma os_mkdir_same_clock p : frames same_clock (os_mkdir p).
Proof. unfold os_mkdir. frames_auto. Qed.

Lemma os_makedirs_same_clock p : frames same_clock (os_makedirs p).
Proof.
  unfold os_makedirs. frame_step; [frames_auto|].
  induction (Path.ancestry p) as [|q qs IH]; simpl; [frames_auto|].
  pose proof os_mkdir_same_clock. pose proof os_path_exists_same_clock.
  frames_auto.
Qed.

Lemma save_body_to_file_ok p sz w w' :
  save_body_to_file p sz w = (Ok tt, w') →
  w' = with_now (λ t, t + 1)
         (with_tree (<[p := {| is_dir := false; mtime := now w; fsize := sz |}]>) w).
Proof.
  unfold save_body_to_file, bind, get, modify, raise. simpl.
  repeat case_match; intros ?; by simplify_eq.
Qed.

Lemma fetch_ok path w w' :
  fetch path w = (Ok tt, w') →
  ∃ r sz,
    objects (dbx w) !! Path.os_path_join "/" path = Some (RFile r sz)
    ∧ tree w' !! path = Some {| is_dir := false; mtime := now w; fsize := sz |}
    ∧ local_files (state w')
      = <[path := {| meta_rev := r; meta_modified := now w |}]> (local_files (state w))
    ∧ remote_files (state w')
      = <[path := {| meta_rev := r; meta_modified := now w |}]> (remote_files (state w))
    ∧ dbx w' = dbx w.
Proof.
  unfold fetch. intros H.
  apply bind_ok_inv in H as (r & w1 & Hreq & H).
  unfold files_download_to_file in Hreq.
  rewrite (bind_ok _ _ _ _ _ (emit_run _ _)) in Hreq.
  set (w0 := with_log _ w) in Hreq.
  rewrite (bind_ok _ _ _ _ _ (eq_refl : get w0 = (Ok w0, w0))) in Hreq.
  rewrite (accepted_rooted _ (rooted_join path)) in Hreq.
  rewrite (target_rooted _ _ (rooted_join path)) in Hreq. cbn [negb] in Hreq.
  change (dbx w0) with (dbx w) in Hreq.
  destruct (objects (dbx w) !! Path.os_path_join "/" path) as [[r' sz|]|] eqn:Ho;
    [|done..].
  apply bind_ok_inv in Hreq as ([] & w2 & Hsave & Hret).
  apply save_body_to_file_ok in Hsave as ->.
  unfold ret in Hret. simplify_eq.
  set (n := {| is_dir := false; mtime := now w0; fsize := sz |}) in *.
  set (w1 := with_now _ _) in *.
  assert (tree w1 !! path = Some n) as Hn by apply lookup_insert_eq.
  rewrite (bind_ok _ _ _ _ _ (os_path_getmtime_run path w1 n Hn)) in H.
  rewrite record_meta_run in H. simplify_eq.
  exists r, sz. simpl. by rewrite lookup_insert_eq.
Qed.

Lemma download_remote_ok path because w w' :
  download_remote path because w = (Ok tt, w') →
  ∃ r sz,
    objects (dbx w) !! Path.os_path_join "/" path = Some (RFile r sz)
    ∧ tree w' !! path = Some {| is_dir := false; mtime := now w; fsize := sz |}
    ∧ local_files (state w')
      = <[path := {| meta_rev := r; meta_modified := now w |}]> (local_files (state w))
    ∧ remote_files (state w')
      = <[path := {| meta_rev := r; meta_modified := now w |}]> (remote_files (state w))
    ∧ dbx w' = dbx w.
Proof.
  rewrite download_remote_run. cbn zeta.
  set (w0 := with_log _ w).
  destruct (negb _ && negb _).
  - pose proof (os_makedirs_same_clock (Path.os_path_split path).1 w0) as [Hnow Hd].
    pose proof (os_makedirs_same_state (Path.os_path_split path).1 w0) as Hs.
    destruct (os_makedirs (Path.os_path_split path).1 w0) as [[[]|?|] w1];
      [|done..].
    unfold same_state in Hs. simpl in Hnow, Hd, Hs. intros H.
    apply fetch_ok in H as (r & sz & ? & ? & ? & ? & ?).
    exists r, sz. rewrite Hnow, Hd, Hs in *. done.
  - intros H. apply fetch_ok in H. exact H.
Qed.

(** X4: a [download_remote] that returns has written the file of Dropbox at
    ["/" + path] to the tree, with its length and the time of the download,
    and has recorded its revision and that time, the same record in both
    maps; Dropbox is as before. *)
Theorem download_records path because w w' :
  download_remote path because w = (Ok tt, w') →
  ∃ r sz,
    objects (dbx w) !! Path.os_path_join "/" path = Some (RFile r sz)
    ∧ tree w' !! path = Some {| is_dir := false; mtime := now w; fsize := sz |}
    ∧ local_files (state w')
      = <[path := {| meta_rev := r; meta_modified := now w |}]> (local_files (state w))
    ∧ remote_files (state w')
      = <[path := {| meta_rev := r; meta_modified := now w |}]> (remote_files (state w))
    ∧ dbx w' = dbx w.
Proof. apply download_remote_ok. Qed.

Lemma download_records_witness :
  ∃ r sz,
    objects (dbx w_remote_only) !! Path.os_path_join "/" "a" = Some (RFile r sz)
    ∧ tree (download_remote "a" None w_remote_only).2 !! "a"
      = Some {| is_dir := false; mtime := now w_remote_only; fsize := sz |}
    ∧ local_files (state (download_remote "a" None w_remote_only).2)
      = <[ "a" := {| meta_rev := r; meta_modified := now w_remote_only |}]>
          (local_files (state w_remote_only))
    ∧ remote_files (state (download_remote "a" None w_remote_only).2)
      = <[ "a" := {| meta_rev := r; meta_modified := now w_remote_only |}]>
          (remote_files (state w_remote_only))
    ∧ dbx (download_remote "a" None w_remote_only).2 = dbx w_remote_only.
Proof. apply (download_records "a" None w_remote_only). by vm_compute. Defined.

(** *** A file that was just transferred is in sync *)

Lemma check_state_idle path w n rec x :
  tree w !! path = Some n →
  local_files (state w) !! path = Some rec →
  remote_files (state w) !! path = Some x →
  meta_modified rec = mtime n →
  check_state path w = (Ok tt, w).
Proof.
  intros Hn Hl Hr Hm. rewrite (check_state_run _ _ _ Hn), Hr, Hl, Hm.
  by rewrite Z.ltb_irrefl.
Qed.

Lemma file_entry_idle path_display rev seen w rec :
  local_files (state w) !! Path.drop 1 path_display = Some rec →
  meta_rev rec = rev →
  process_remote_entry (FileMetadata path_display rev) seen w
  = (Ok ({[Path.drop 1 path_display]} ∪ seen), w).
Proof.
  intros Hl Hr. rewrite process_file_entry_run. cbn zeta. rewrite Hl.
  by rewrite bool_decide_false by (by intros ?).
Qed.

(** X5: after an [upload] that returns, [check_state] finds nothing to do
    for the path, and so does the remote pass for the entry Dropbox now
    lists for the file. *)
Theorem uploaded_file_in_sync path because w w' n seen o :
  tree w !! path = Some n → 0 ≤ fsize n → rooted path = false →
  upload path because w = (Ok tt, w') →
  objects (dbx w') !! ("/" +:+ path) = Some o →
  check_state path w' = (Ok tt, w')
  ∧ process_remote_entry (to_entry ("/" +:+ path, o)) seen w'
    = (Ok ({[path]} ∪ seen), w').
Proof.
  intros Hn Hsz Hrel H Ho.
  destruct (upload_ok _ _ _ _ _ Hn Hsz H) as (r & Hobj & Hl & Hr & Ht).
  rewrite (join_relative _ Hrel) in Hobj.
  rewrite Hobj, lookup_insert_eq in Ho. simplify_eq. split.
  - eapply check_state_idle.
    + by rewrite Ht.
    + rewrite Hl. apply lookup_insert_eq.
    + rewrite Hr. apply lookup_insert_eq.
    + done.
  - unfold to_entry. cbn [fst snd].
    change path with (Path.drop 1 ("/" +:+ path)) at 2.
    apply (file_entry_idle _ _ _ _ {| meta_rev := r; meta_modified := mtime n |});
      [|done].
    change (Path.drop 1 ("/" +:+ path)) with path. rewrite Hl.
    apply lookup_insert_eq.
Qed.

Lemma uploaded_file_in_sync_witness :
  check_state "a" (upload "a" None w_one_file).2
  = (Ok tt, (upload "a" None w_one_file).2)
  ∧ process_remote_entry (to_entry ("/" +:+ "a", RFile "r7" 3)) ∅
      (upload "a" None w_one_file).2
    = (Ok ({["a"]} ∪ ∅), (upload "a" None w_one_file).2).
Proof.
  apply (uploaded_file_in_sync "a" None w_one_file _ (file 1 3));
    [reflexivity|discriminate|reflexivity|by vm_compute|by vm_compute].
Defined.

(** X6: after a [download_remote] that returns, [check_state] finds nothing
    to do for the path, and so does the remote pass for the entry Dropbox
    lists for the file. *)
Theorem downloaded_file_in_sync path because w w' seen o :
  rooted path = false →
  download_remote path because w = (Ok tt, w') →
  objects (dbx w') !! ("/" +:+ path) = Some o →
  check_state path w' = (Ok tt, w')
  ∧ process_remote_entry (to_entry ("/" +:+ path, o)) seen w'
    = (Ok ({[path]} ∪ seen), w').
Proof.
  intros Hrel H Ho.
  destruct (download_remote_ok _ _ _ _ H) as (r & sz & Hobj & Ht & Hl & Hr & Hd).
  rewrite (join_relative _ Hrel) in Hobj.
  rewrite Hd, Hobj in Ho. simplify_eq. split.
  - eapply check_state_idle.
    + exact Ht.
    + rewrite Hl. apply lookup_insert_eq.
    + rewrite Hr. apply lookup_insert_eq.
    + done.
  - unfold to_entry. cbn [fst snd].
    change path with (Path.drop 1 ("/" +:+ path)) at 2.
    apply (file_entry_idle _ _ _ _ {| meta_rev := r; meta_modified := now w |});
      [|done].
    change (Path.drop 1 ("/" +:+ path)) with path. rewrite Hl.
    apply lookup_insert_eq.
Qed.

Lemma downloaded_file_in_sync_witness :
  check_state "a" (download_remote "a" None w_remote_only).2
  = (Ok tt, (download_remote "a" None w_remote_only).2)
  ∧ process_remote_entry (to_entry ("/" +:+ "a", RFile "r1" 3)) ∅
      (download_remote "a" None w_remote_only).2
    = (Ok ({["a"]} ∪ ∅), (download_remote "a" None w_remote_only).2).
Proof.
  apply (downloaded_file_in_sync "a" None w_remote_only);
    [reflexivity|by vm_compute|by vm_compute].
Defined.

(** *** Under the two passes the maps are one map *)

Lemma record_meta_equal path meta : frames (keeps maps_equal) (record_meta path meta).
Proof. intros w. unfold keeps, maps_equal. simpl. by intros ->. Qed.

Lemma del_pair_equal path :
  frames (keeps maps_equal) (del_local_files path ;; del_remote_files path).
Proof.
  intros w. rewrite del_pair_run. unfold keeps, maps_equal. intros H.
  rewrite H. destruct (remote_files (state w) !! path); simpl; by rewrite ?H.
Qed.

Lemma upload_equal path because : frames (keeps maps_equal) (upload path because).
Proof. pose proof record_meta_equal. unfold upload. frames_auto. Qed.

Lemma download_remote_equal path because :
  frames (keeps maps_equal) (download_remote path because).
Proof. pose proof record_meta_equal. unfold download_remote. frames_auto. Qed.

Lemma delete_local_equal path : frames (keeps maps_equal) (delete_local path).
Proof.
  intros w. destruct (delete_local_run path w) as (w1 & Hs & ->).
  intros Hw. apply del_pair_equal. by rewrite Hs.
Qed.

Lemma delete_remote_equal path : frames (keeps maps_equal) (delete_remote path).
Proof.
  intros w. destruct (delete_remote_run path w) as (w1 & Hs & ->).
  intros Hw. apply del_pair_equal. by rewrite Hs.
Qed.

Lemma process_remote_entry_equal e seen :
  frames (keeps maps_equal) (process_remote_entry e seen).
Proof.
  pose proof download_remote_equal.
  destruct e as [pd rev|pd].
  - simpl. frames_auto.
  - intros w. rewrite process_folder_entry_run. revert w.
    change (frames (keeps maps_equal)
      (ex <- os_path_exists (Path.drop 1 pd) ;;
       (if negb ex
        then emit (MakingDirectory (Path.drop 1 pd)) ;; os_makedirs (Path.drop 1 pd)
        else ret tt) ;;
       ret seen)).
    frames_auto.
Qed.

Lemma process_remote_entries_equal es : ∀ seen,
  frames (keeps maps_equal) (process_remote_entries es seen).
Proof.
  pose proof process_remote_entry_equal.
  induction es as [|e es IH]; intros seen; simpl; frames_auto.
Qed.

Lemma delta_loop_equal fuel : ∀ results seen,
  frames (keeps maps_equal) (delta_loop fuel results seen).
Proof.
  pose proof process_remote_entries_equal.
  induction fuel as [|fuel IH]; intros results seen; simpl; frames_auto.
Qed.

Lemma execute_delta_equal : frames (keeps maps_equal) execute_delta.
Proof.
  pose proof delta_loop_equal. pose proof delete_local_equal.
  unfold execute_delta, sweep_body. frames_auto.
Qed.

Lemma check_state_equal path : frames (keeps maps_equal) (check_state path).
Proof. pose proof upload_equal. unfold check_state. frames_auto. Qed.

Lemma check_local_equal : frames (keeps maps_equal) check_local.
Proof.
  pose proof check_state_equal. pose proof delete_remote_equal.
  unfold check_local. frames_auto.
Qed.

(** X7: if the two maps are equal before a pass they are equal after it,
    however the pass ends: what a pass writes to one map it writes to the
    other, and the one method that does not, [make_local_dir] with a file in
    the way, is never reached from a pass. *)
Theorem passes_keep_maps_equal w :
  local_files (state w) = remote_files (state w) →
  local_files (state (check_remote w).2) = remote_files (state (check_remote w).2)
  ∧ local_files (state (check_local w).2) = remote_files (state (check_local w).2).
Proof.
  intros H. split; [apply execute_delta_equal|apply check_local_equal]; exact H.
Qed.

Lemma passes_keep_maps_equal_witness :
  local_files (state (check_remote w_deleted_remotely).2)
  = remote_files (state (check_remote w_deleted_remotely).2)
  ∧ local_files (state (check_local w_deleted_remotely).2)
    = remote_files (state (check_local w_deleted_remotely).2).
Proof. apply (passes_keep_maps_equal w_deleted_remotely). reflexivity. Defined.

(** *** Each pass changes its own side only *)

Lemma files_delete_same_tree p : frames same_tree (files_delete p).
Proof. unfold files_delete. frames_auto. Qed.

Lemma del_local_files_same_tree p : frames same_tree (del_local_files p).
Proof. unfold del_local_files. frames_auto. Qed.

Lemma del_remote_files_same_tree p : frames same_tree (del_remote_files p).
Proof. unfold del_remote_files. frames_auto. Qed.

Lemma delete_remote_same_tree path : frames same_tree (delete_remote path).
Proof.
  pose proof files_delete_same_tree. pose proof del_local_files_same_tree.
  pose proof del_remote_files_same_tree. unfold delete_remote. frames_auto.
Qed.

Lemma check_local_same_tree : frames same_tree check_local.
Proof.
  pose proof check_state_same_tree. pose proof delete_remote_same_tree.
  unfold check_local. frames_auto.
Qed.

Lemma os_remove_same_dbx p : frames same_dbx (os_remove p).
Proof. unfold os_remove. frames_auto. Qed.

Lemma os_makedirs_same_dbx p : frames same_dbx (os_makedirs p).
Proof. intros w. apply (os_makedirs_same_clock p w). Qed.

Lemma download_remote_same_dbx path because :
  frames same_dbx (download_remote path because).
Proof.
  pose proof os_makedirs_same_dbx.
  unfold download_remote, files_download_to_file, save_body_to_file,
    os_path_exists, os_path_getmtime, record_meta.
  frames_auto.
Qed.

Lemma delete_local_same_dbx path : frames same_dbx (delete_local path).
Proof.
  pose proof os_remove_same_dbx.
  unfold delete_local, del_local_files, del_remote_files. frames_auto.
Qed.

Lemma process_remote_entry_same_dbx e seen :
  frames same_dbx (process_remote_entry e seen).
Proof.
  pose proof download_remote_same_dbx. pose proof os_makedirs_same_dbx.
  pose proof os_remove_same_dbx.
  destruct e as [pd rev|pd]; simpl;
    unfold make_local_dir, os_path_exists, os_path_isfile, del_local_files, os_makedir;
    frames_auto.
Qed.

Lemma process_remote_entries_same_dbx es : ∀ seen,
  frames same_dbx (process_remote_entries es seen).
Proof.
  pose proof process_remote_entry_same_dbx.
  induction es as [|e es IH]; intros seen; simpl; frames_auto.
Qed.

Lemma delta_loop_same_dbx fuel : ∀ results seen,
  frames same_dbx (delta_loop fuel results seen).
Proof.
  pose proof process_remote_entries_same_dbx.
  induction fuel as [|fuel IH]; intros results seen; simpl;
    unfold files_list_folder_continue; frames_auto.
Qed.

Lemma execute_delta_same_dbx : frames same_dbx execute_delta.
Proof.
  pose proof delta_loop_same_dbx. pose proof delete_local_same_dbx.
  unfold execute_delta, sweep_body, files_list_folder. frames_auto.
Qed.

(** X8: however it ends, the local pass leaves the tree as it found it, and
    the remote pass leaves Dropbox as it found it. *)
Theorem pass_changes_one_side w :
  tree (check_local w).2 = tree w ∧ dbx (check_remote w).2 = dbx w.
Proof. split; [apply check_local_same_tree|apply execute_delta_same_dbx]. Qed.

(** *** [delete_remote] *)

Lemma delete_remote_refused path w :
  accepted path = false →
  delete_remote path w
  = (del_local_files path ;; del_remote_files path)
      (with_log (λ l, l ++ [Call_files_delete path])
         (with_log (λ l, l ++ [DeletingOnDropbox path]) w)).
Proof.
  intros Hrel. unfold delete_remote.
  rewrite (bind_ok _ _ _ _ _ (emit_run _ _)).
  set (w0 := with_log _ w).
  assert (try_except_pass (files_delete path) w0
          = (Ok tt, with_log (λ l, l ++ [Call_files_delete path]) w0)) as Htry.
  { unfold try_except_pass, files_delete.
    rewrite (bind_ok _ _ _ _ _ (emit_run _ _)).
    unfold bind, get. simpl. by rewrite Hrel. }
  by rewrite (bind_ok _ _ _ _ _ Htry).
Qed.

(** X9: [delete_remote] gives [files_delete] the path as the maps have it;
    a path that the pattern of the SDK does not accept, one that neither
    starts with a separator nor is a reference, is refused before anything
    is sent: Dropbox and the tree are as before, while the path leaves the
    maps as in any deletion. *)
Theorem delete_remote_keeps_dropbox path w :
  accepted path = false →
  dbx (delete_remote path w).2 = dbx w
  ∧ tree (delete_remote path w).2 = tree w
  ∧ log (delete_remote path w).2
    = log w ++ [DeletingOnDropbox path; Call_files_delete path]
  ∧ (delete_remote path w).1 = deletion_result path (state w).
Proof.
  intros Hrel. rewrite (delete_remote_refused _ _ Hrel), del_pair_run.
  unfold deletion_result. simpl.
  destruct (local_files (state w) !! path);
    [destruct (remote_files (state w) !! path)|]; simpl;
    by rewrite <- app_assoc.
Qed.

Lemma delete_remote_keeps_dropbox_witness :
  dbx (delete_remote "a" w_touched).2 = dbx w_touched
  ∧ tree (delete_remote "a" w_touched).2 = tree w_touched
  ∧ log (delete_remote "a" w_touched).2
    = log w_touched ++ [DeletingOnDropbox "a"; Call_files_delete "a"]
  ∧ (delete_remote "a" w_touched).1 = deletion_result "a" (state w_touched).
Proof. apply (delete_remote_keeps_dropbox "a" w_touched). reflexivity. Defined.

(** *** [make_local_dir] where something is *)

(** X10: [make_local_dir] for a path that is a directory does nothing; for
    a path that is a file it never returns: the file is removed, the record
    of the path leaves [local_files] and stays in [remote_files], no
    directory is made, and the call raises, [KeyError] if [local_files] had
    no record of the path and [AttributeError] otherwise. *)
Theorem make_local_dir_on_existing_path path w n :
  tree w !! path = Some n →
  if is_dir n then make_local_dir path w = (Ok tt, w)
  else
    (make_local_dir path w).1
    = Raise (if bool_decide (is_Some (local_files (state w) !! path))
             then AttributeError "makedir" else KeyError path)
    ∧ tree (make_local_dir path w).2 = delete path (tree w)
    ∧ local_files (state (make_local_dir path w).2) = delete path (local_files (state w))
    ∧ remote_files (state (make_local_dir path w).2) = remote_files (state w).
Proof.
  intros Hn.
  unfold make_local_dir, os_path_exists, os_path_isfile, os_remove, del_local_files,
    os_makedir, emit.
  unfold bind, get, modify, raise, ret. simpl. rewrite Hn.
  rewrite bool_decide_true by eauto. simpl.
  destruct (is_dir n) eqn:Hd; repeat (simpl; rewrite ?Hn, ?Hd); [done|].
  destruct (local_files (state w) !! path) eqn:Hl; simpl.
  - try rewrite bool_decide_true by eauto. done.
  - try rewrite bool_decide_false by (by intros [??]).
    split; [done|]. split; [done|]. split; [|done]. symmetry. by apply delete_id.
Qed.

Lemma make_local_dir_on_existing_path_witness :
  (make_local_dir "a" w_touched).1
  = Raise (if bool_decide (is_Some (local_files (state w_touched) !! "a"))
           then AttributeError "makedir" else KeyError "a")
  ∧ tree (make_local_dir "a" w_touched).2 = delete "a" (tree w_touched)
  ∧ local_files (state (make_local_dir "a" w_touched).2)
    = delete "a" (local_files (state w_touched))
  ∧ remote_files (state (make_local_dir "a" w_touched).2)
    = remote_files (state w_touched).
Proof. apply (make_local_dir_on_existing_path "a" w_touched (file 4 3)). reflexivity. Defined.

(** *** The local pass as a whole *)

Lemma frames_ok (R : World → World → Prop) {A} (m : M A) w r w' :
  frames R m → m w = (r, w') → R w w'.
Proof. intros Hm H. specialize (Hm w). by rewrite H in Hm. Qed.

Lemma os_path_getsize_ok p w sz w' :
  os_path_getsize p w = (Ok sz, w') →
  w' = w ∧ ∃ n, tree w !! p = Some n ∧ sz = fsize n.
Proof.
  unfold os_path_getsize, bind, get, raise, ret. simpl.
  destruct (tree w !! p) as [n|]; [|done]. intros ?. simplify_eq. eauto.
Qed.

(** What an [upload] that returns has written to the maps. *)
Lemma upload_maps path because w w' :
  upload path because w = (Ok tt, w') →
  ∃ r n,
    tree w !! path = Some n ∧ tree w' = tree w
    ∧ local_files (state w')
      = <[path := {| meta_rev := r; meta_modified := mtime n |}]>
          (local_files (state w))
    ∧ remote_files (state w')
      = <[path := {| meta_rev := r; meta_modified := mtime n |}]>
          (remote_files (state w)).
Proof.
  intros H. unfold upload in H.
  rewrite (bind_ok _ _ _ _ _ (emit_run _ _)) in H.
  set (w0 := with_log _ w) in H.
  apply bind_ok_inv in H as (size & w1 & Hsize & H).
  apply os_path_getsize_ok in Hsize as (-> & n & Hn & ->).
  apply bind_ok_inv in H as (r & w2 & Hreq & H).
  assert (state w2 = state w0 ∧ tree w2 = tree w0) as [Hs Ht].
  { split.
    - refine (frames_ok same_state _ _ _ _ _ Hreq). frames_auto.
    - refine (frames_ok same_tree _ _ _ _ _ Hreq). frames_auto. }
  assert (tree w2 !! path = Some n) as Hn2 by (by rewrite Ht).
  rewrite (bind_ok _ _ _ _ _ (os_path_getmtime_run path w2 n Hn2)) in H.
  rewrite record_meta_run in H. simplify_eq.
  exists r, n. simpl. by rewrite Hs, Ht.
Qed.

Lemma check_state_ok path w w' :
  check_state path w = (Ok tt, w') →
  in_sync w' path
  ∧ tree w' = tree w
  ∧ ∀ p, p ≠ path →
         local_files (state w') !! p = local_files (state w) !! p
         ∧ remote_files (state w') !! p = remote_files (state w) !! p.
Proof.
  intros H.
  assert (∀ because, upload path because w = (Ok tt, w') →
            in_sync w' path ∧ tree w' = tree w
            ∧ ∀ p, p ≠ path →
                   local_files (state w') !! p = local_files (state w) !! p
                   ∧ remote_files (state w') !! p = remote_files (state w) !! p)
    as Hup.
  { intros because Hu. apply upload_maps in Hu as (r & n & Hn & Ht & Hl & Hr).
    split; [|split; [done|]].
    - exists {| meta_rev := r; meta_modified := mtime n |}, n.
      rewrite Hl, Hr, Ht, !lookup_insert_eq.
      split; [done|]. split; [eauto|]. split; [done|]. simpl. lia.
    - intros p Hp. by rewrite Hl, Hr, !lookup_insert_ne. }
  unfold check_state in H. unfold bind at 1 in H. unfold get at 1 in H.
  destruct (remote_files (state w) !! path) as [x|] eqn:Hrem; [|by eapply Hup].
  apply bind_ok_inv in H as (m & w1 & Hm & H).
  assert (w1 = w ∧ ∃ n, tree w !! path = Some n ∧ m = mtime n) as (-> & n & Hn & ->).
  { revert Hm. unfold os_path_getmtime, bind, get, raise, ret. simpl.
    destruct (tree w !! path) as [n|]; [|done]. intros ?. simplify_eq. eauto. }
  unfold bind at 1 in H. unfold get at 1 in H.
  destruct (local_files (state w) !! path) as [rec|] eqn:Hloc; [|done].
  destruct (meta_modified rec <? mtime n) eqn:Hlt; [by eapply Hup|].
  unfold ret in H. simplify_eq. split; [|done].
  exists rec, n. rewrite Hrem. split; [done|]. split; [eauto|]. split; [done|]. lia.
Qed.

Lemma check_state_keeps_sync q p w w' :
  check_state q w = (Ok tt, w') → in_sync w p → in_sync w' p.
Proof.
  intros H (rec & n & Hl & Hr & Hn & Hm).
  apply check_state_ok in H as (Hsync & Ht & Hother).
  destruct (decide (p = q)) as [->|Hne]; [done|].
  exists rec, n. destruct (Hother p Hne) as [-> ->]. by rewrite Ht.
Qed.

Lemma check_state_loop_keeps_sync paths p : ∀ w w',
  for_each paths check_state w = (Ok tt, w') → in_sync w p → in_sync w' p.
Proof.
  induction paths as [|q paths IH]; intros w w' H Hp; simpl in H.
  - unfold ret in H. by simplify_eq.
  - apply bind_ok_inv in H as ([] & w1 & Hq & H).
    eapply IH; [done|]. by eapply check_state_keeps_sync.
Qed.

Lemma check_state_loop_ok paths : ∀ w w',
  for_each paths check_state w = (Ok tt, w') →
  tree w' = tree w ∧ ∀ p, p ∈ paths → in_sync w' p.
Proof.
  induction paths as [|q paths IH]; intros w w' H; simpl in H.
  - unfold ret in H. simplify_eq. split; [done|]. intros p Hp. by apply elem_of_nil in Hp.
  - apply bind_ok_inv in H as ([] & w1 & Hq & H).
    pose proof (check_state_loop_keeps_sync _ q _ _ H) as Hkeep.
    apply check_state_ok in Hq as (Hsync & Ht & _).
    apply IH in H as (Ht' & Hin).
    split; [congruence|]. intros p Hp.
    apply elem_of_cons in Hp as [->|Hp]; [by apply Hkeep|by apply Hin].
Qed.

Lemma check_state_in_sync path w : in_sync w path → check_state path w = (Ok tt, w).
Proof.
  intros (rec & n & Hl & [x Hr] & Hn & Hm).
  rewrite (check_state_run _ _ _ Hn), Hr, Hl.
  by rewrite (proj2 (Z.ltb_ge _ _) Hm).
Qed.

Lemma delete_remote_ok path w w' :
  delete_remote path w = (Ok tt, w') →
  tree w' = tree w
  ∧ local_files (state w') = delete path (local_files (state w))
  ∧ remote_files (state w') = delete path (remote_files (state w)).
Proof.
  intros H.
  split; [exact (frames_ok same_tree _ _ _ _ (delete_remote_same_tree path) H)|].
  destruct (delete_remote_run path w) as (w1 & Hs & Hrun).
  rewrite Hrun, del_pair_run in H.
  destruct (local_files (state w1) !! path);
    [destruct (remote_files (state w1) !! path)|]; simplify_eq.
  simpl. by rewrite Hs.
Qed.

Lemma delete_missing_loop_ok fl keys : ∀ w w',
  for_each keys (delete_missing fl) w = (Ok tt, w') →
  tree w' = tree w
  ∧ ∀ p, local_files (state w') !! p
         = (if bool_decide (p ∈ keys ∧ (p ∉ fl)) then None
            else local_files (state w) !! p)
         ∧ remote_files (state w') !! p
           = (if bool_decide (p ∈ keys ∧ (p ∉ fl)) then None
              else remote_files (state w) !! p).
Proof.
  induction keys as [|k keys IH]; intros w w' H; simpl in H.
  - unfold ret in H. simplify_eq. split; [done|]. intros p.
    by rewrite bool_decide_false by set_solver.
  - apply bind_ok_inv in H as ([] & w1 & Hk & H).
    apply IH in H as (Ht' & Hfin). unfold delete_missing in Hk.
    case_bool_decide as Hfl.
    + apply delete_remote_ok in Hk as (Ht & Hl & Hr).
      split; [congruence|]. intros p. destruct (Hfin p) as [-> ->].
      rewrite Hl, Hr. destruct (decide (p = k)) as [->|Hne].
      * rewrite (bool_decide_true (k ∈ k :: keys ∧ _)) by set_solver.
        rewrite !lookup_delete_eq. by case_bool_decide.
      * rewrite !lookup_delete_ne by done.
        rewrite (bool_decide_ext (p ∈ k :: keys ∧ (p ∉ fl)) (p ∈ keys ∧ (p ∉ fl)));
          [done|set_solver].
    + unfold ret in Hk. simplify_eq. split; [done|]. intros p.
      destruct (Hfin p) as [-> ->].
      rewrite (bool_decide_ext (p ∈ k :: keys ∧ (p ∉ fl)) (p ∈ keys ∧ (p ∉ fl)));
        [done|]. set_solver.
Qed.

Lemma check_local_run w :
  check_local w
  = (for_each (scan (tree w)) check_state ;;
     w1 <- get ;;
     for_each (map_to_list (local_files (state w1))).*1
       (delete_missing (scan (tree w)))) w.
Proof. done. Qed.

Lemma check_local_ok w w' :
  check_local w = (Ok tt, w') →
  tree w' = tree w
  ∧ dom (local_files (state w')) = list_to_set (scan (tree w))
  ∧ ∀ path, path ∈ scan (tree w) → in_sync w' path.
Proof.
  rewrite check_local_run. intros H.
  apply bind_ok_inv in H as ([] & w1 & H1 & H).
  apply check_state_loop_ok in H1 as (Ht1 & Hsync).
  rewrite (bind_ok _ _ _ _ _ (eq_refl : get w1 = (Ok w1, w1))) in H.
  apply delete_missing_loop_ok in H as (Ht & Hfin).
  split; [congruence|]. split.
  - apply set_eq. intros p. rewrite elem_of_dom, elem_of_list_to_set.
    destruct (Hfin p) as [-> _]. split.
    + case_bool_decide as Hc; [by intros [??]|]. intros Hp.
      destruct (decide (p ∈ scan (tree w))); [done|].
      destruct Hc. split; [by apply keys_elem|done].
    + intros Hp. rewrite bool_decide_false by tauto.
      destruct (Hsync p Hp) as (rec & _ & -> & _). eauto.
  - intros p Hp. destruct (Hsync p Hp) as (rec & n & Hl & Hr & Hn & Hm).
    exists rec, n. destruct (Hfin p) as [-> ->].
    rewrite bool_decide_false by tauto. by rewrite Ht.
Qed.

(** X11: after a local pass that returns, [local_files] has a record for
    the paths of the file list and for no other path, every path of the list
    has a record in [remote_files] too, the file is no newer than the time
    recorded for it, and the tree is as before. *)
Theorem local_pass_result w w' :
  check_local w = (Ok tt, w') →
  tree w' = tree w
  ∧ dom (local_files (state w')) = list_to_set (scan (tree w))
  ∧ ∀ path, path ∈ scan (tree w) →
      ∃ rec n, local_files (state w') !! path = Some rec
        ∧ is_Some (remote_files (state w') !! path)
        ∧ tree w' !! path = Some n
        ∧ mtime n ≤ meta_modified rec.
Proof. apply check_local_ok. Qed.

Lemma local_pass_result_witness :
  tree (check_local w_touched).2 = tree w_touched
  ∧ dom (local_files (state (check_local w_touched).2))
    = list_to_set (scan (tree w_touched))
  ∧ ∀ path, path ∈ scan (tree w_touched) →
      ∃ rec n, local_files (state (check_local w_touched).2) !! path = Some rec
        ∧ is_Some (remote_files (state (check_local w_touched).2) !! path)
        ∧ tree (check_local w_touched).2 !! path = Some n
        ∧ mtime n ≤ meta_modified rec.
Proof. apply (local_pass_result w_touched). by vm_compute. Defined.

Lemma check_state_loop_settled paths w :
  (∀ p, p ∈ paths → in_sync w p) → for_each paths check_state w = (Ok tt, w).
Proof.
  induction paths as [|q paths IH]; intros H; simpl; [done|].
  rewrite (bind_ok _ _ _ _ _ (check_state_in_sync q w (H q ltac:(set_solver)))).
  apply IH. intros p Hp. apply H. set_solver.
Qed.

Lemma delete_missing_loop_settled fl keys w :
  (∀ k, k ∈ keys → k ∈ fl) → for_each keys (delete_missing fl) w = (Ok tt, w).
Proof.
  induction keys as [|k keys IH]; intros H; simpl; [done|].
  unfold delete_missing at 1. rewrite bool_decide_false.
  - rewrite bind_ret. apply IH. intros k' Hk'. apply H. set_solver.
  - intros Hk. apply Hk, H. set_solver.
Qed.

(** X12: the local pass is idempotent: run again on the world a local pass
    that returned has left, it returns and changes nothing, neither a map
    nor Dropbox, and asks nothing of Dropbox. *)
Theorem local_pass_idempotent w w' :
  check_local w = (Ok tt, w') → check_local w' = (Ok tt, w').
Proof.
  intros H. apply check_local_ok in H as (Ht & Hdom & Hsync).
  rewrite check_local_run, Ht.
  rewrite (bind_ok _ _ _ _ _ (check_state_loop_settled _ w' Hsync)).
  rewrite (bind_ok _ _ _ _ _ (eq_refl : get w' = (Ok w', w'))).
  apply delete_missing_loop_settled. intros k Hk.
  apply keys_elem, elem_of_dom in Hk. rewrite Hdom in Hk.
  by apply elem_of_list_to_set in Hk.
Qed.

Lemma local_pass_idempotent_witness :
  check_local (check_local w_touched).2 = (Ok tt, (check_local w_touched).2).
Proof. apply (local_pass_idempotent w_touched). by vm_compute. Defined.

(** *** The local pass deletes nothing on Dropbox *)

#[export] Instance objects_kept_po : PreOrder objects_kept.
Proof.
  split; unfold objects_kept; [by intros x|]. intros x y z ??. set_solver.
Qed.

Lemma frames_same_dbx_kept {A} (m : M A) : frames same_dbx m → frames objects_kept m.
Proof. intros Hm w. unfold objects_kept. by rewrite (Hm w). Qed.

Lemma frames_same_store_kept {A} (m : M A) :
  frames same_store m → frames objects_kept m.
Proof. intros Hm w. unfold objects_kept. by rewrite (proj1 (Hm w)). Qed.

Lemma commit_kept len p mode : frames objects_kept (commit len p mode).
Proof.
  intros w. unfold commit, bind, get, modify, raise, ret, objects_kept. simpl.
  destruct (negb (accepted p)); [done|].
  destruct (target (dbx w) p) as [key|]; [|done].
  destruct (objects (dbx w) !! key) as [[]|]; destruct mode; simpl; try done;
    rewrite dom_insert_L; set_solver.
Qed.

Lemma upload_kept path because : frames objects_kept (upload path because).
Proof.
  pose proof commit_kept.
  pose proof (λ c, frames_same_store_kept _ (session_at_same_store c)).
  pose proof (λ fuel sz pos f close sid cur off, frames_same_store_kept _
    (upload_loop_same_store fuel sz pos f close sid cur off)).
  unfold upload, files_upload, files_upload_session_finish, open_r,
    os_path_getsize, os_path_getmtime, record_meta.
  frames_auto.
Qed.

Lemma check_state_kept path : frames objects_kept (check_state path).
Proof.
  pose proof upload_kept. unfold check_state, os_path_getmtime.
  frames_auto.
Qed.

Lemma record_meta_relative fl path meta :
  path ∈ fl → frames (keeps (relative_outside fl)) (record_meta path meta).
Proof.
  intros Hp w H p. simpl. rewrite dom_insert_L.
  intros [->%elem_of_singleton|Hin]%elem_of_union; [by left|by apply H].
Qed.

Lemma check_state_relative fl path :
  path ∈ fl → frames (keeps (relative_outside fl)) (check_state path).
Proof.
  intros Hp. pose proof (record_meta_relative fl path) as Hr.
  unfold check_state, upload. frames_auto.
Qed.

Lemma frames_for_each_in (R : World → World → Prop) `{!PreOrder R} {A}
    (xs : list A) body :
  (∀ x, x ∈ xs → frames R (body x)) → frames R (for_each xs body).
Proof.
  induction xs as [|x xs IH]; intros Hb; simpl.
  - by apply frames_ret.
  - apply frames_bind; [done|apply Hb; set_solver|].
    intros _. apply IH. intros y Hy. apply Hb. set_solver.
Qed.

Lemma delete_missing_kept fl file :
  (file ∈ fl ∨ accepted file = false) → frames objects_kept (delete_missing fl file).
Proof.
  intros Hfile w. unfold delete_missing. case_bool_decide as Hfl; [|reflexivity].
  destruct Hfile as [?|Hrel]; [done|].
  rewrite (delete_remote_refused _ _ Hrel). unfold objects_kept.
  assert (frames same_dbx (del_local_files file ;; del_remote_files file)) as Hd.
  { unfold del_local_files, del_remote_files. frames_auto. }
  by rewrite (Hd _).
Qed.

(** X13: a local pass, however it ends, removes no object of Dropbox, if
    the keys of [local_files] are paths the pattern of the SDK does not
    accept, neither starting with a separator nor references: the pass
    uploads, and the deletions it asks for are refused before anything is
    sent. *)
Theorem local_pass_deletes_nothing_on_dropbox w :
  (∀ p, p ∈ dom (local_files (state w)) → accepted p = false) →
  dom (objects (dbx w)) ⊆ dom (objects (dbx (check_local w).2)).
Proof.
  intros Hrel. change (objects_kept w (check_local w).2).
  rewrite check_local_run. unfold bind at 1.
  pose proof (frames_for_each objects_kept (scan (tree w)) check_state
                check_state_kept w) as H1.
  pose proof (frames_for_each_in (keeps (relative_outside (scan (tree w))))
                (scan (tree w)) check_state
                (λ x Hx, check_state_relative _ x Hx) w) as H2.
  destruct (for_each (scan (tree w)) check_state w) as [[[]| |] w1]; [|done..].
  simpl in H1, H2. etrans; [exact H1|].
  unfold bind, get. cbn [fst snd].
  apply (frames_for_each_in objects_kept). intros k Hk.
  apply delete_missing_kept, H2.
  - intros p Hp. right. by apply Hrel.
  - by apply elem_of_dom, keys_elem.
Qed.

Lemma local_pass_deletes_nothing_on_dropbox_witness :
  dom (objects (dbx w_gone_locally))
  ⊆ dom (objects (dbx (check_local w_gone_locally).2)).
Proof.
  apply (local_pass_deletes_nothing_on_dropbox w_gone_locally).
  intros p Hp. apply elem_of_dom in Hp as [x Hx]. cbn in Hx.
  apply lookup_singleton_Some in Hx as [<- _]. reflexivity.
Defined.

(** *** The remote pass as a whole: what the maps hold after it *)

#[export] Instance local_grows_po : PreOrder local_grows.
Proof.
  split; unfold local_grows; [by intros x|]. intros x y z ??. set_solver.
Qed.

Lemma frames_same_state_grows {A} (m : M A) : frames same_state m → frames local_grows m.
Proof. intros Hm w. unfold local_grows. by rewrite (Hm w). Qed.

Lemma record_meta_grows path meta : frames local_grows (record_meta path meta).
Proof. intros w. unfold local_grows. simpl. rewrite dom_insert_L. set_solver. Qed.

Lemma download_remote_grows path because :
  frames local_grows (download_remote path because).
Proof.
  pose proof record_meta_grows. pose proof @frames_same_state_grows.
  unfold download_remote. frames_auto.
Qed.

Lemma process_remote_entry_grows e seen :
  frames local_grows (process_remote_entry e seen).
Proof.
  pose proof download_remote_grows. pose proof @frames_same_state_grows.
  destruct e as [pd rev|pd].
  - simpl. frames_auto.
  - intros w. rewrite process_folder_entry_run. revert w.
    change (frames local_grows
      (ex <- os_path_exists (Path.drop 1 pd) ;;
       (if negb ex
        then emit (MakingDirectory (Path.drop 1 pd)) ;; os_makedirs (Path.drop 1 pd)
        else ret tt) ;;
       ret seen)).
    frames_auto.
Qed.

Lemma process_remote_entries_grows es : ∀ seen,
  frames local_grows (process_remote_entries es seen).
Proof.
  pose proof process_remote_entry_grows.
  induction es as [|e es IH]; intros seen; simpl; frames_auto.
Qed.

Lemma process_remote_entry_keeps e seen :
  frames (keeps local_in_remote) (process_remote_entry e seen).
Proof.
  pose proof download_remote_keeps. pose proof make_local_dir_keeps.
  destruct e as [pd rev|pd]; simpl; frames_auto.
Qed.

Lemma process_remote_entries_keeps es : ∀ seen,
  frames (keeps local_in_remote) (process_remote_entries es seen).
Proof.
  pose proof process_remote_entry_keeps.
  induction es as [|e es IH]; intros seen; simpl; frames_auto.
Qed.

Lemma delta_loop_keeps fuel : ∀ results seen,
  frames (keeps local_in_remote) (delta_loop fuel results seen).
Proof.
  pose proof process_remote_entries_keeps.
  induction fuel as [|fuel IH]; intros results seen; simpl; frames_auto.
Qed.

(** A file entry that has been processed has a record in [local_files]. *)
Lemma process_remote_entry_recorded e seen w s w' :
  process_remote_entry e seen w = (Ok s, w') →
  file_paths [e] ⊆ dom (local_files (state w')).
Proof.
  destruct e as [pd rev|pd]; intros H.
  - assert (file_paths [FileMetadata pd rev] = {[Path.drop 1 pd]}) as ->.
    { unfold file_paths. simpl. set_solver. }
    apply singleton_subseteq_l, elem_of_dom.
    rewrite process_file_entry_run in H. cbn zeta in H.
    assert (∀ because,
              (download_remote (Path.drop 1 pd) because ;;
               ret ({[Path.drop 1 pd]} ∪ seen)) w = (Ok s, w') →
              is_Some (local_files (state w') !! Path.drop 1 pd)) as Hdl.
    { intros because Hd. apply bind_ok_inv in Hd as ([] & w1 & Hd & Hret).
      unfold ret in Hret. simplify_eq.
      apply download_remote_ok in Hd as (r & sz & _ & _ & -> & _).
      rewrite lookup_insert_eq. eauto. }
    destruct (local_files (state w) !! Path.drop 1 pd) as [rec|] eqn:Hl;
      [|by eapply Hdl].
    case_bool_decide; [by eapply Hdl|].
    unfold ret in H. simplify_eq. eauto.
  - unfold file_paths. simpl. set_solver.
Qed.

Lemma process_remote_entries_recorded es : ∀ seen w s w',
  process_remote_entries es seen w = (Ok s, w') →
  file_paths es ⊆ dom (local_files (state w')).
Proof.
  induction es as [|e es IH]; intros seen w s w' H; simpl in H.
  - unfold file_paths. simpl. set_solver.
  - apply bind_ok_inv in H as (s1 & w1 & H1 & H2).
    apply process_remote_entry_recorded in H1.
    pose proof (frames_ok local_grows _ _ _ _ (process_remote_entries_grows es s1) H2)
      as Hg.
    apply IH in H2. rewrite (file_paths_cons e es).
    unfold local_grows in Hg. set_solver.
Qed.

Lemma delta_loop_grows fuel : ∀ results seen,
  frames local_grows (delta_loop fuel results seen).
Proof.
  pose proof process_remote_entries_grows. pose proof @frames_same_state_grows.
  induction fuel as [|fuel IH]; intros results seen; simpl; frames_auto.
Qed.

Lemma delta_loop_recorded fuel : ∀ es seen w s w',
  delta_loop fuel (page (dbx w) es) seen w = (Ok s, w') →
  file_paths es ⊆ dom (local_files (state w')).
Proof.
  induction fuel as [|fuel IH]; intros es seen w s w' H; [done|].
  cbn [delta_loop] in H.
  apply bind_ok_inv in H as (s1 & w1 & H1 & H2).
  apply process_remote_entries_recorded in H1.
  assert (file_paths es = file_paths (entries (page (dbx w) es))
                          ∪ file_paths (cursor (page (dbx w) es))) as ->
    by (by rewrite <- file_paths_app, page_parts).
  destruct (has_more (page (dbx w) es)) eqn:Hmore; simpl in H2.
  - rewrite (bind_ok _ _ _ _ _ (files_list_folder_continue_run _ _)) in H2.
    set (w2 := with_log _ w1) in H2.
    pose proof (frames_ok local_grows _ _ _ _ (delta_loop_grows fuel _ _) H2) as Hg.
    change (dbx w1) with (dbx w2) in H2. apply IH in H2.
    unfold local_grows in Hg. change (state w2) with (state w1) in Hg.
    set_solver.
  - unfold ret in H2. simplify_eq. rewrite (page_no_more _ _ Hmore).
    unfold file_paths at 2. simpl. set_solver.
Qed.

Lemma execute_delta_ok w w' :
  local_in_remote (state w) →
  execute_delta w = (Ok tt, w') →
  dom (local_files (state w')) = file_paths (listing (dbx w))
  ∧ local_in_remote (state w')
  ∧ dbx w' = dbx w.
Proof.
  intros Hin H.
  pose proof (execute_delta_same_dbx w) as Hdbx. rewrite H in Hdbx.
  unfold execute_delta in H.
  rewrite (bind_ok _ _ _ _ _ (files_list_folder_run _ _ _)) in H.
  set (w0 := with_log _ w) in H.
  apply bind_ok_inv in H as (seen & w1 & Hloop & Hsweep).
  change (dbx w) with (dbx w0) in Hloop.
  pose proof (frames_ok (keeps local_in_remote) _ _ _ _ (delta_loop_keeps _ _ _) Hloop Hin)
    as Hin1.
  pose proof (delta_loop_recorded _ _ _ _ _ _ Hloop) as Hrec.
  apply delta_loop_listed in Hloop as [-> _].
  rewrite (right_id_L ∅ (∪)) in *. change (dbx w0) with (dbx w) in *.
  set (seen := file_paths (listing (dbx w))) in *.
  rewrite (bind_ok _ _ _ _ _ (eq_refl : get w1 = (Ok w1, w1))) in Hsweep.
  destruct (sweep_run seen (map_to_list (remote_files (state w1))).*1 w1)
    as (w'' & Hrun & _ & Hfin).
  { apply NoDup_fst_map_to_list. }
  { intros k. by rewrite keys_elem. }
  rewrite Hrun in Hsweep. simplify_eq.
  assert (∀ p, p ∈ dom (local_files (state w')) ↔ p ∈ seen) as Hdom.
  { intros p. rewrite elem_of_dom. destruct (Hfin p) as [-> _]. unfold after_sweep.
    case_bool_decide as Hc.
    - split; [by intros [??]|]. tauto.
    - split; [|intros Hp; apply elem_of_dom, Hrec, Hp].
      intros Hp. destruct (decide (p ∈ seen)); [done|]. destruct Hc.
      split; [|done]. apply keys_elem, elem_of_dom, Hin1. by apply elem_of_dom. }
  split; [by apply set_eq|]. split; [|done].
  intros p Hp. apply Hdom in Hp. apply elem_of_dom.
  destruct (Hfin p) as [_ ->]. unfold after_sweep.
  rewrite bool_decide_false by tauto.
  apply elem_of_dom, Hin1, Hrec, Hp.
Qed.

(** X14: after a remote pass that returns, started with the keys of
    [local_files] among those of [remote_files], the keys of [local_files]
    are the paths of the files Dropbox lists, they are still keys of
    [remote_files], and Dropbox is as before. *)
Theorem remote_pass_result w w' :
  dom (local_files (state w)) ⊆ dom (remote_files (state w)) →
  check_remote w = (Ok tt, w') →
  dom (local_files (state w')) = file_paths (listing (dbx w))
  ∧ dom (local_files (state w')) ⊆ dom (remote_files (state w'))
  ∧ dbx w' = dbx w.
Proof. apply execute_delta_ok. Qed.

Lemma remote_pass_result_witness :
  dom (local_files (state (check_remote w_deleted_remotely).2))
  = file_paths (listing (dbx w_deleted_remotely))
  ∧ dom (local_files (state (check_remote w_deleted_remotely).2))
    ⊆ dom (remote_files (state (check_remote w_deleted_remotely).2))
  ∧ dbx (check_remote w_deleted_remotely).2 = dbx w_deleted_remotely.
Proof.
  apply (remote_pass_result w_deleted_remotely); [|by vm_compute].
  intros p Hp. apply elem_of_dom in Hp as [x Hx]. cbn in Hx.
  apply lookup_singleton_Some in Hx as [<- _].
  apply elem_of_dom. by eexists.
Defined.

(** *** The filters of the local scan, in general *)

Lemma valid_parts_spec parts : ∀ i,
  valid_parts i parts = true ↔
  ∀ (j : nat) part, parts !! j = Some part → part ≠ "." →
    Path.startswith part "." = false
    ∧ ((i + j = 1)%nat → Path.startswith part "site" = false ∧ part ≠ "temp").
Proof.
  induction parts as [|p parts IH]; intros i; simpl.
  - split; [|done]. intros _ j part Hj. by rewrite lookup_nil in Hj.
  - assert ((∀ (j : nat) part, (p :: parts) !! j = Some part → part ≠ "." →
               Path.startswith part "." = false
               ∧ ((i + j = 1)%nat → Path.startswith part "site" = false ∧ part ≠ "temp"))
            ↔ ((p ≠ "." →
                Path.startswith p "." = false
                ∧ (i = 1%nat → Path.startswith p "site" = false ∧ p ≠ "temp"))
               ∧ ∀ (j : nat) part, parts !! j = Some part → part ≠ "." →
                   Path.startswith part "." = false
                   ∧ ((S i + j = 1)%nat → Path.startswith part "site" = false
                                    ∧ part ≠ "temp"))) as ->.
    { split.
      - intros H. split.
        + intros Hp. destruct (H 0%nat p eq_refl Hp) as [H1 H2].
          split; [done|]. intros ->. by apply H2.
        + intros j part Hj Hp. destruct (H (S j) part Hj Hp) as [H1 H2].
          split; [done|]. intros Hij. apply H2. lia.
      - intros [H0 Hrest] [|j] part Hj Hp; simpl in Hj.
        + simplify_eq. destruct (H0 Hp) as [H1 H2]. split; [done|].
          intros Hi. apply H2. lia.
        + destruct (Hrest j part Hj Hp) as [H1 H2]. split; [done|].
          intros Hij. apply H2. lia. }
    rewrite <- IH. case_bool_decide as Hp.
    + destruct (Path.startswith p ".") eqn:Hdot.
      { split; [done|]. intros [H _]. by destruct (H Hp). }
      destruct (Nat.eqb_spec i 1) as [->|Hi]; cbn [andb].
      * destruct (Path.startswith p "site") eqn:Hsite.
        { split; [done|]. intros [H _]. destruct (H Hp) as [_ H2].
          by destruct (H2 eq_refl). }
        case_bool_decide as Htemp.
        { split; [done|]. intros [H _]. destruct (H Hp) as [_ H2].
          by destruct (H2 eq_refl). }
        split; [|tauto]. intros H. split; [|done]. intros _. split; [done|].
        intros _. done.
      * split; [|tauto]. intros H. split; [|done]. intros _. split; [done|].
        intros ->. done.
    + split; [|tauto]. intros H. split; [|done]. intros Hne. done.
Qed.

(** X15: [valid_dir_for_upload] accepts a directory exactly when none of
    the components of its path other than ["."] starts with a dot, and the
    component at index 1, the directory at the top of the tree walked from
    ["."], neither starts with ["site"] nor is ["temp"]. *)
Theorem valid_dir_for_upload_spec dir :
  valid_dir_for_upload dir = true ↔
  ∀ (i : nat) part, Path.split dir !! i = Some part → part ≠ "." →
    Path.startswith part "." = false
    ∧ (i = 1%nat → Path.startswith part "site" = false ∧ part ≠ "temp").
Proof. unfold valid_dir_for_upload. by rewrite valid_parts_spec. Qed.

(** X16: the test for the state file in [valid_filename_for_upload] adds
    nothing, the name of the state file being hidden: a name is accepted
    exactly when it starts with neither a dot nor [@] and ends with none of
    [~], [.pyc] and [.pyo]. *)
Theorem valid_filename_for_upload_spec filename :
  valid_filename_for_upload filename = true ↔
  Path.startswith filename "." = false
  ∧ Path.startswith filename "@" = false
  ∧ Path.endswith filename "~" = false
  ∧ Path.endswith filename ".pyc" = false
  ∧ Path.endswith filename ".pyo" = false.
Proof.
  unfold valid_filename_for_upload. cbn [existsb id].
  case_bool_decide as Hs.
  - subst filename. split; [done|]. intros [H _]. discriminate H.
  - cbn [orb]. rewrite negb_true_iff, !orb_false_iff. tauto.
Qed.

(** *** The file list of the local pass, characterised *)

(** X17: the file list of [check_local], for a tree as a file system has
    it, where nothing is in a directory that is not there: a path is in the
    list exactly when it is a regular file of the tree with a name that
    [valid_filename_for_upload] accepts, in the top directory or in a
    directory of the tree, and [valid_dir_for_upload] accepts the directory
    as the walk names it, ["./"] and its path. *)
Theorem file_list_spec t path :
  tree_ok t → tree_placed t →
  path ∈ scan t ↔
  ∃ dir name n,
    path = (if bool_decide (dir = "") then "" else dir +:+ "/") +:+ name
    ∧ t !! path = Some n ∧ is_dir n = false
    ∧ no_sep name = true ∧ name ≠ ""
    ∧ (dir = "" ∨ ∃ nd, t !! dir = Some nd ∧ is_dir nd = true)
    ∧ valid_dir_for_upload ("./" +:+ dir) = true
    ∧ valid_filename_for_upload name = true.
Proof. apply scan_ok. Qed.

Lemma file_list_spec_witness :
  "docs/sub/c" ∈ scan (tree w_subdir) ↔
  ∃ dir name n,
    "docs/sub/c" = (if bool_decide (dir = "") then "" else dir +:+ "/") +:+ name
    ∧ tree w_subdir !! "docs/sub/c" = Some n ∧ is_dir n = false
    ∧ no_sep name = true ∧ name ≠ ""
    ∧ (dir = "" ∨ ∃ nd, tree w_subdir !! dir = Some nd ∧ is_dir nd = true)
    ∧ valid_dir_for_upload ("./" +:+ dir) = true
    ∧ valid_filename_for_upload name = true.
Proof.
  apply (file_list_spec (tree w_subdir) "docs/sub/c").
  - apply tree_okb_ok. vm_compute. reflexivity.
  - apply tree_placedb_ok. vm_compute. reflexivity.
Defined.

(** *** The loops end *)

(** X18: the two [while] loops end: with the reads advancing through the
    file and the cursor shortening the listing, neither [upload] nor a pass
    nor the main block runs without end; each returns or raises. *)
Theorem loops_terminate `{Pickle} path because file w :
  (upload path because w).1 ≠ Timeout
  ∧ (check_remote w).1 ≠ Timeout
  ∧ (check_local w).1 ≠ Timeout
  ∧ (main file w).1.1 ≠ Timeout.
Proof.
  split; [|split; [apply execute_delta_total|split; [|apply main_total]]].
  - pose proof (upload_total path because w) as Hu.
    by destruct ((upload path because w).1).
  - pose proof (check_local_total w) as Hl. by destruct ((check_local w).1).
Qed.

(** *** The main block *)

Lemma main_ok `{Pickle} file w f w' :
  main file w = (Ok tt, f, w') →
  load_state f = state w'
  ∧ dom (local_files (state w')) = list_to_set (scan (tree w'))
  ∧ (local_files (load_state file) = remote_files (load_state file) →
     local_files (state w') = remote_files (state w')).
Proof.
  unfold main. set (w0 := with_state _ w).
  destruct (check_remote w0) as [[[]|?|] w1] eqn:H1; [|done..].
  destruct (check_local w1) as [[[]|?|] w2] eqn:H2; [|done..].
  intros ?. simplify_eq. split; [|split].
  - unfold load_state, save_state. by rewrite pickle_load_dump.
  - apply check_local_ok in H2 as (-> & -> & _). done.
  - intros Heq.
    pose proof (execute_delta_equal w0 Heq) as Hr. unfold check_remote in H1.
    rewrite H1 in Hr.
    pose proof (check_local_equal w1 Hr) as Hl. by rewrite H2 in Hl.
Qed.

(** X19: when the main block returns, the state file holds the state the
    run ended in, [local_files] has a record for the paths of the file list
    of the tree as it now is and for no other, and the two maps are equal if
    they were in the state the run loaded. *)
Theorem main_result `{Pickle} file w f w' :
  main file w = (Ok tt, f, w') →
  load_state f = state w'
  ∧ dom (local_files (state w')) = list_to_set (scan (tree w'))
  ∧ (local_files (load_state file) = remote_files (load_state file) →
     local_files (state w') = remote_files (state w')).
Proof. apply main_ok. Qed.

Lemma main_result_witness :
  load_state (main (save_state (synced "a" "r1" 1)) w_touched).1.2
  = state (main (save_state (synced "a" "r1" 1)) w_touched).2
  ∧ dom (local_files (state (main (save_state (synced "a" "r1" 1)) w_touched).2))
    = list_to_set (scan (tree (main (save_state (synced "a" "r1" 1)) w_touched).2))
  ∧ (local_files (load_state (save_state (synced "a" "r1" 1)))
     = remote_files (load_state (save_state (synced "a" "r1" 1))) →
     local_files (state (main (save_state (synced "a" "r1" 1)) w_touched).2)
     = remote_files (state (main (save_state (synced "a" "r1" 1)) w_touched).2)).
Proof.
  apply (main_result (save_state (synced "a" "r1" 1)) w_touched). by vm_compute.
Defined.

(** *** A remote pass after a remote pass *)

Lemma download_remote_keeps_rev path because w w' p r sz :
  download_remote path because w = (Ok tt, w') →
  objects (dbx w) !! Path.os_path_join "/" p = Some (RFile r sz) →
  has_rev (state w) p r → has_rev (state w') p r.
Proof.
  intros H Hobj Hrev.
  apply download_remote_ok in H as (r' & sz' & Hobj' & _ & Hl & _).
  unfold has_rev. rewrite Hl. destruct (decide (p = path)) as [->|Hne].
  - rewrite lookup_insert_eq. rewrite Hobj in Hobj'. simplify_eq. eauto.
  - by rewrite lookup_insert_ne.
Qed.

Lemma download_remote_sets_rev path because w w' r sz :
  download_remote path because w = (Ok tt, w') →
  objects (dbx w) !! Path.os_path_join "/" path = Some (RFile r sz) →
  has_rev (state w') path r.
Proof.
  intros H Hobj.
  apply download_remote_ok in H as (r' & sz' & Hobj' & _ & Hl & _).
  unfold has_rev. rewrite Hl, lookup_insert_eq.
  rewrite Hobj in Hobj'. simplify_eq. eauto.
Qed.

Lemma folder_entry_same_state pd seen :
  frames same_state (process_remote_entry (FolderMetadata pd) seen).
Proof.
  intros w. rewrite process_folder_entry_run. revert w.
  change (frames same_state
    (ex <- os_path_exists (Path.drop 1 pd) ;;
     (if negb ex
      then emit (MakingDirectory (Path.drop 1 pd)) ;; os_makedirs (Path.drop 1 pd)
      else ret tt) ;;
     ret seen)).
  frames_auto.
Qed.

Lemma process_remote_entry_revs e seen w s w' :
  process_remote_entry e seen w = (Ok s, w') →
  (∀ p r sz, objects (dbx w) !! Path.os_path_join "/" p = Some (RFile r sz) →
             has_rev (state w) p r → has_rev (state w') p r)
  ∧ (faithful (dbx w) [e] → revs_recorded [e] (state w')).
Proof.
  destruct e as [pd rev|pd]; intros H.
  - rewrite process_file_entry_run in H. cbn zeta in H.
    assert (∀ because,
              (download_remote (Path.drop 1 pd) because ;;
               ret ({[Path.drop 1 pd]} ∪ seen)) w = (Ok s, w') →
              (∀ p r sz,
                 objects (dbx w) !! Path.os_path_join "/" p = Some (RFile r sz) →
                 has_rev (state w) p r → has_rev (state w') p r)
              ∧ (faithful (dbx w) [FileMetadata pd rev] →
                 revs_recorded [FileMetadata pd rev] (state w'))) as Hdl.
    { intros because Hd. apply bind_ok_inv in Hd as ([] & w1 & Hd & Hret).
      unfold ret in Hret. simplify_eq. split.
      - intros p r sz. by eapply download_remote_keeps_rev.
      - intros Hf pd' rev' Hin. apply list_elem_of_singleton in Hin. simplify_eq.
        destruct (Hf pd rev) as [sz Hobj]; [set_solver|].
        by eapply download_remote_sets_rev. }
    destruct (local_files (state w) !! Path.drop 1 pd) as [rec|] eqn:Hl;
      [|by eapply Hdl].
    case_bool_decide as Hrev; [by eapply Hdl|].
    unfold ret in H. simplify_eq. split; [done|].
    intros _ pd' rev' Hin. apply list_elem_of_singleton in Hin. simplify_eq.
    exists rec. split; [done|]. first [done|symmetry; by apply dec_stable].
  - pose proof (frames_ok same_state _ _ _ _ (folder_entry_same_state pd seen) H) as Hs.
    unfold same_state in Hs. rewrite Hs. split; [done|].
    intros _ pd' rev' Hin. apply list_elem_of_singleton in Hin. discriminate Hin.
Qed.

Lemma faithful_cons d e es : faithful d (e :: es) ↔ faithful d [e] ∧ faithful d es.
Proof.
  unfold faithful. split.
  - intros H. split; intros pd rev Hin; apply H; set_solver.
  - intros [H1 H2] pd rev Hin. apply elem_of_cons in Hin as [<-|Hin].
    + apply H1. set_solver.
    + by apply H2.
Qed.

Lemma faithful_app d es1 es2 :
  faithful d (es1 ++ es2) ↔ faithful d es1 ∧ faithful d es2.
Proof.
  unfold faithful. split.
  - intros H. split; intros pd rev Hin; apply H; set_solver.
  - intros [H1 H2] pd rev Hin. apply elem_of_app in Hin as [Hin|Hin]; eauto.
Qed.

Lemma process_remote_entries_revs es : ∀ seen w s w',
  process_remote_entries es seen w = (Ok s, w') →
  (∀ p r sz, objects (dbx w) !! Path.os_path_join "/" p = Some (RFile r sz) →
             has_rev (state w) p r → has_rev (state w') p r)
  ∧ (faithful (dbx w) es → revs_recorded es (state w')).
Proof.
  induction es as [|e es IH]; intros seen w s w' H; simpl in H.
  - unfold ret in H. simplify_eq. split; [done|].
    intros _ pd rev Hin. by apply elem_of_nil in Hin.
  - apply bind_ok_inv in H as (s1 & w1 & H1 & H2).
    pose proof (frames_ok same_dbx _ _ _ _ (process_remote_entry_same_dbx e seen) H1)
      as Hd.
    unfold same_dbx in Hd.
    apply process_remote_entry_revs in H1 as [Hk1 Hr1].
    apply IH in H2 as [Hk2 Hr2]. rewrite Hd in Hk2, Hr2. split.
    + intros p r sz Hobj Hrev. eapply Hk2; [done|]. by eapply Hk1.
    + intros [Hf1 Hf2]%faithful_cons pd rev Hin.
      apply elem_of_cons in Hin as [<-|Hin]; [|by apply Hr2].
      destruct (Hf1 pd rev) as [sz Hobj]; [set_solver|].
      eapply Hk2; [done|]. apply Hr1; [done|set_solver].
Qed.

Lemma delta_loop_revs fuel : ∀ es seen w s w',
  delta_loop fuel (page (dbx w) es) seen w = (Ok s, w') →
  (∀ p r sz, objects (dbx w) !! Path.os_path_join "/" p = Some (RFile r sz) →
             has_rev (state w) p r → has_rev (state w') p r)
  ∧ (faithful (dbx w) es → revs_recorded es (state w')).
Proof.
  induction fuel as [|fuel IH]; intros es seen w s w' H; [done|].
  cbn [delta_loop] in H.
  apply bind_ok_inv in H as (s1 & w1 & H1 & H2).
  pose proof (frames_ok same_dbx _ _ _ _ (process_remote_entries_same_dbx _ _) H1) as Hd.
  unfold same_dbx in Hd.
  apply process_remote_entries_revs in H1 as [Hk1 Hr1].
  destruct (has_more (page (dbx w) es)) eqn:Hmore; simpl in H2.
  - rewrite (bind_ok _ _ _ _ _ (files_list_folder_continue_run _ _)) in H2.
    set (w2 := with_log _ w1) in H2.
    change (dbx w1) with (dbx w2) in H2. apply IH in H2 as [Hk2 Hr2].
    change (dbx w2) with (dbx w1) in Hk2, Hr2.
    change (state w2) with (state w1) in Hk2. rewrite Hd in Hk2, Hr2. split.
    + intros p r sz Hobj Hrev. eapply Hk2; [done|]. by eapply Hk1.
    + rewrite <- (page_parts (dbx w) es) at 1 2.
      intros [Hf1 Hf2]%faithful_app pd rev Hin.
      apply elem_of_app in Hin as [Hin|Hin]; [|by apply Hr2].
      destruct (Hf1 pd rev Hin) as [sz Hobj].
      eapply Hk2; [done|]. by apply Hr1.
  - unfold ret in H2. simplify_eq. split; [done|].
    rewrite <- (page_parts (dbx w) es) at 1 2. rewrite (page_no_more _ _ Hmore).
    rewrite app_nil_r. done.
Qed.

Lemma listing_faithful d : dropbox_ok d → faithful d (listing d).
Proof.
  intros Hok pd rev Hin. unfold listing in Hin.
  apply list_elem_of_fmap in Hin as ([k o] & He & Hin).
  apply elem_of_map_to_list in Hin. unfold to_entry in He. cbn [fst snd] in He.
  destruct o as [r sz|]; [|done]. simplify_eq.
  destruct (Hok _ _ Hin) as (p & -> & Hrel).
  exists sz. change (Path.drop 1 ("/" +:+ p)) with p. by rewrite (join_relative _ Hrel).
Qed.

Lemma execute_delta_revs w w' :
  dropbox_ok (dbx w) →
  execute_delta w = (Ok tt, w') →
  revs_recorded (listing (dbx w)) (state w').
Proof.
  intros Hok H. unfold execute_delta in H.
  rewrite (bind_ok _ _ _ _ _ (files_list_folder_run _ _ _)) in H.
  set (w0 := with_log _ w) in H.
  apply bind_ok_inv in H as (seen & w1 & Hloop & Hsweep).
  change (dbx w) with (dbx w0) in Hloop.
  pose proof (delta_loop_revs _ _ _ _ _ _ Hloop) as [_ Hrec].
  apply delta_loop_listed in Hloop as [-> _].
  rewrite (right_id_L ∅ (∪)) in *. change (dbx w0) with (dbx w) in *.
  specialize (Hrec (listing_faithful _ Hok)).
  rewrite (bind_ok _ _ _ _ _ (eq_refl : get w1 = (Ok w1, w1))) in Hsweep.
  destruct (sweep_run (file_paths (listing (dbx w)))
              (map_to_list (remote_files (state w1))).*1 w1)
    as (w'' & Hrun & _ & Hfin).
  { apply NoDup_fst_map_to_list. }
  { intros k. by rewrite keys_elem. }
  rewrite Hrun in Hsweep. simplify_eq.
  intros pd rev Hin. destruct (Hrec pd rev Hin) as (rec & Hl & Hr).
  exists rec. split; [|done]. destruct (Hfin (Path.drop 1 pd)) as [-> _].
  unfold after_sweep. rewrite bool_decide_false; [done|].
  intros (_ & Hout & _). apply Hout.
  unfold file_paths. apply elem_of_list_to_set, list_elem_of_omap.
  by exists (FileMetadata pd rev).
Qed.

#[export] Instance only_lists_po : PreOrder only_lists.
Proof.
  split.
  - intros w. split; [done|]. split; [done|]. exists []. by rewrite app_nil_r.
  - intros w1 w2 w3 (Hs1 & Hd1 & l1 & Hl1 & Hf1) (Hs2 & Hd2 & l2 & Hl2 & Hf2).
    split; [congruence|]. split; [congruence|].
    exists (l1 ++ l2). split; [by rewrite Hl2, Hl1, app_assoc|].
    by apply Forall_app.
Qed.

Lemma only_lists_quiet w w' :
  state w' = state w → dbx w' = dbx w → log w' = log w → only_lists w w'.
Proof.
  intros Hs Hd Hl. split; [done|]. split; [done|].
  exists []. by rewrite app_nil_r.
Qed.

Lemma only_lists_emit e w :
  is_transfer e = false → is_deletion e = false →
  only_lists w (with_log (λ l, l ++ [e]) w).
Proof.
  intros Ht Hd. split; [done|]. split; [done|].
  exists [e]. split; [done|]. by constructor.
Qed.

Ltac lists_auto :=
  repeat first [ frame_step | solve [eauto with frames]
               | solve [by apply only_lists_quiet]
               | solve [by apply only_lists_emit] ].

Lemma os_path_exists_lists p : frames only_lists (os_path_exists p).
Proof. unfold os_path_exists. lists_auto. Qed.

Lemma os_mkdir_lists p : frames only_lists (os_mkdir p).
Proof. unfold os_mkdir. lists_auto. Qed.

Lemma os_makedirs_lists p : frames only_lists (os_makedirs p).
Proof.
  unfold os_makedirs. frame_step; [lists_auto|].
  induction (Path.ancestry p) as [|q qs IH]; simpl; [lists_auto|].
  pose proof os_mkdir_lists. pose proof os_path_exists_lists.
  lists_auto.
Qed.

Lemma process_remote_entry_settled e seen w :
  revs_recorded [e] (state w) → only_lists w (process_remote_entry e seen w).2.
Proof.
  destruct e as [pd rev|pd]; intros Hrec.
  - destruct (Hrec pd rev) as (rec & Hl & Hr); [set_solver|].
    rewrite (file_entry_idle _ _ _ _ rec Hl Hr). reflexivity.
  - rewrite process_folder_entry_run. revert w Hrec.
    pose proof os_path_exists_lists. pose proof os_makedirs_lists.
    intros w _. revert w.
    change (frames only_lists
      (ex <- os_path_exists (Path.drop 1 pd) ;;
       (if negb ex
        then emit (MakingDirectory (Path.drop 1 pd)) ;; os_makedirs (Path.drop 1 pd)
        else ret tt) ;;
       ret seen)).
    lists_auto.
Qed.

Lemma revs_recorded_app es1 es2 s :
  revs_recorded (es1 ++ es2) s ↔ revs_recorded es1 s ∧ revs_recorded es2 s.
Proof.
  unfold revs_recorded. split.
  - intros H. split; intros pd rev Hin; apply H; set_solver.
  - intros [H1 H2] pd rev Hin. apply elem_of_app in Hin as [Hin|Hin]; eauto.
Qed.

Lemma process_remote_entries_settled es : ∀ seen w,
  revs_recorded es (state w) → only_lists w (process_remote_entries es seen w).2.
Proof.
  induction es as [|e es IH]; intros seen w Hrec; simpl; [reflexivity|].
  apply (revs_recorded_app [e] es) in Hrec as [H1 H2].
  pose proof (process_remote_entry_settled e seen w H1) as He.
  unfold bind. destruct (process_remote_entry e seen w) as [[s1|?|] w1]; [|done..].
  cbn [snd] in He. etrans; [exact He|]. apply IH.
  destruct He as (-> & _). done.
Qed.

Lemma delta_loop_settled fuel : ∀ results seen w,
  revs_recorded (entries results ++ cursor results) (state w) →
  only_lists w (delta_loop fuel results seen w).2.
Proof.
  induction fuel as [|fuel IH]; intros results seen w Hrec; [reflexivity|].
  cbn [delta_loop]. apply revs_recorded_app in Hrec as [H1 H2].
  pose proof (process_remote_entries_settled (entries results) seen w H1) as He.
  unfold bind at 1.
  destruct (process_remote_entries (entries results) seen w) as [[s1|?|] w1];
    [|done..].
  cbn [snd] in He. etrans; [exact He|].
  destruct (has_more results); cbn [negb]; [|reflexivity].
  rewrite (bind_ok _ _ _ _ _ (files_list_folder_continue_run _ _)).
  set (w2 := with_log _ w1).
  etrans; [apply (only_lists_emit Call_files_list_folder_continue w1); done|].
  apply IH. rewrite page_parts. change (state w2) with (state w1).
  destruct He as (-> & _). done.
Qed.

Lemma sweep_settled seen keys w :
  dom (local_files (state w)) ⊆ seen →
  for_each keys (sweep_body seen) w = (Ok tt, w).
Proof.
  intros Hdom. induction keys as [|k keys IH]; simpl; [done|].
  assert (sweep_body seen k w = (Ok tt, w)) as Hk.
  { unfold sweep_body. case_bool_decide as Hout; [|done].
    unfold bind, get. destruct (local_files (state w) !! k) eqn:Hl; [|done].
    destruct Hout. apply Hdom, elem_of_dom. eauto. }
  by rewrite (bind_ok _ _ _ _ _ Hk).
Qed.

Lemma execute_delta_settled w :
  revs_recorded (listing (dbx w)) (state w) →
  dom (local_files (state w)) ⊆ file_paths (listing (dbx w)) →
  only_lists w (execute_delta w).2.
Proof.
  intros Hrec Hdom. unfold execute_delta.
  rewrite (bind_ok _ _ _ _ _ (files_list_folder_run _ _ _)).
  set (w0 := with_log _ w).
  etrans; [apply (only_lists_emit (Call_files_list_folder "" true) w); done|].
  fold w0. change (dbx w) with (dbx w0).
  pose proof (delta_loop_settled
    (S (length (cursor (page (dbx w0) (listing (dbx w0))))))
    (page (dbx w0) (listing (dbx w0))) ∅ w0) as Hloop.
  rewrite page_parts in Hloop. specialize (Hloop Hrec).
  unfold bind at 1.
  destruct (delta_loop _ _ ∅ w0) as [[seen|?|] w1] eqn:Hrun; [|done..].
  cbn [snd] in Hloop. etrans; [exact Hloop|].
  apply delta_loop_listed in Hrun as [-> _].
  rewrite (right_id_L ∅ (∪)).
  rewrite (bind_ok _ _ _ _ _ (eq_refl : get w1 = (Ok w1, w1))).
  rewrite sweep_settled; [reflexivity|].
  destruct Hloop as (-> & _). done.
Qed.

(** X20: a remote pass after a remote pass that returned, on a Dropbox
    that names its objects by a separator and a relative path: however it
    ends, it leaves the two maps and Dropbox as they are, downloads nothing
    and deletes nothing; what it does besides the listing is to make
    directories. *)
Theorem remote_pass_settles w w' :
  dropbox_ok (dbx w) →
  dom (local_files (state w)) ⊆ dom (remote_files (state w)) →
  check_remote w = (Ok tt, w') →
  state (check_remote w').2 = state w'
  ∧ dbx (check_remote w').2 = dbx w'
  ∧ ∃ l, log (check_remote w').2 = log w' ++ l
         ∧ Forall (λ e, is_transfer e = false ∧ is_deletion e = false) l.
Proof.
  intros Hok Hin H.
  pose proof (execute_delta_revs _ _ Hok H) as Hrec.
  apply (execute_delta_ok _ _ Hin) in H as (Hdom & _ & Hd).
  apply execute_delta_settled; rewrite Hd; [done|]. by rewrite Hdom.
Qed.

Lemma remote_pass_settles_witness :
  state (check_remote (check_remote w_deleted_remotely).2).2
  = state (check_remote w_deleted_remotely).2
  ∧ dbx (check_remote (check_remote w_deleted_remotely).2).2
    = dbx (check_remote w_deleted_remotely).2
  ∧ ∃ l, log (check_remote (check_remote w_deleted_remotely).2).2
         = log (check_remote w_deleted_remotely).2 ++ l
         ∧ Forall (λ e, is_transfer e = false ∧ is_deletion e = false) l.
Proof.
  apply (remote_pass_settles w_deleted_remotely); [| |by vm_compute].
  - intros k o Hk. cbn in Hk. apply lookup_singleton_Some in Hk as [<- _].
    by exists "b".
  - intros p Hp. apply elem_of_dom in Hp as [x Hx]. cbn in Hx.
    apply lookup_singleton_Some in Hx as [<- _].
    apply elem_of_dom. by eexists.
Defined.

(** The second pass is not idle on the tree: where Dropbox has a folder and
    the tree had a recorded file, the first pass removes the file and the
    second makes the directory. *)
Example second_remote_pass_makes_directory :
  tree (check_remote w_synced_file_for_folder).2 !! "a" = None
  ∧ tree (check_remote (check_remote w_synced_file_for_folder).2).2 !! "a"
    = Some (folder 10).
Proof. vm_compute. done. Qed.

(** *** [delete_local] and the tree *)

Lemma delete_local_steps path w :
  delete_local path w
  = (del_local_files path ;; del_remote_files path)
      ((match tree w !! path with
        | Some n => if is_dir n then id else with_tree (delete path)
        | None => id
        end)
         (with_log (λ l, l ++ [Os_remove path])
            (with_log (λ l, l ++ [DeletingLocally path]) w))).
Proof.
  unfold delete_local. rewrite (bind_ok _ _ _ _ _ (emit_run _ _)).
  set (w0 := with_log _ w).
  assert (try_except_pass (os_remove path) w0
          = (Ok tt,
             (match tree w !! path with
              | Some n => if is_dir n then id else with_tree (delete path)
              | None => id
              end) (with_log (λ l, l ++ [Os_remove path]) w0))) as Htry.
  { unfold try_except_pass, os_remove.
    rewrite (bind_ok _ _ _ _ _ (emit_run _ _)).
    unfold bind, get, modify, raise. simpl.
    destruct (tree w !! path) as [n|]; [destruct (is_dir n)|]; done. }
  by rewrite (bind_ok _ _ _ _ _ Htry).
Qed.

(** X21: [delete_local] removes the regular file at the path and nothing
    else from the tree, a directory at the path stays; Dropbox is as before,
    and what is logged is the line printed and the [os.remove]. *)
Theorem delete_local_effect path w :
  tree (delete_local path w).2
  = match tree w !! path with
    | Some n => if is_dir n then tree w else delete path (tree w)
    | None => tree w
    end
  ∧ dbx (delete_local path w).2 = dbx w
  ∧ log (delete_local path w).2 = log w ++ [DeletingLocally path; Os_remove path].
Proof.
  rewrite delete_local_steps, del_pair_run.
  set (w2 := (match tree w !! path with
              | Some n => if is_dir n then id else with_tree (delete path)
              | None => id
              end) _).
  assert (tree w2 = match tree w !! path with
                    | Some n => if is_dir n then tree w else delete path (tree w)
                    | None => tree w
                    end
          ∧ dbx w2 = dbx w
          ∧ log w2 = log w ++ [DeletingLocally path; Os_remove path]) as Hw2.
  { subst w2. destruct (tree w !! path) as [n|]; [destruct (is_dir n)|]; simpl;
      by rewrite <- app_assoc. }
  by destruct (local_files (state w2) !! path);
    [destruct (remote_files (state w2) !! path)|].
Qed.

(** *** A file changed on both sides *)

Lemma file_entry_downloads path rev seen w s w' :
  ¬ has_rev (state w) path rev →
  process_remote_entry (FileMetadata ("/" +:+ path) rev) seen w = (Ok s, w') →
  ∃ because, download_remote path because w = (Ok tt, w').
Proof.
  intros Hrev H. rewrite process_file_entry_run in H. cbn zeta in H.
  change (Path.drop 1 ("/" +:+ path)) with path in H.
  assert (∀ because,
            (download_remote path because ;; ret ({[path]} ∪ seen)) w = (Ok s, w') →
            ∃ because, download_remote path because w = (Ok tt, w')) as Hdl.
  { intros because Hd. apply bind_ok_inv in Hd as ([] & w1 & Hd & Hret).
    unfold ret in Hret. simplify_eq. eauto. }
  destruct (local_files (state w) !! path) as [rec|] eqn:Hl; [|by eapply Hdl].
  case_bool_decide as Hne; [by eapply Hdl|].
  destruct Hrev. exists rec. split; [done|].
  congruence.
Qed.

(** X22: the remote version wins: when the remote pass comes to the entry
    of a file of which [local_files] has no record with the revision listed,
    and processing the entry returns, the file in the tree, whatever it was
    and whenever it was modified, has been replaced by the file of Dropbox,
    and the local pass that follows finds nothing to upload for the path. *)
Theorem remote_version_replaces_local path rev seen w s w' :
  rooted path = false →
  ¬ (∃ rec, local_files (state w) !! path = Some rec ∧ meta_rev rec = rev) →
  process_remote_entry (FileMetadata ("/" +:+ path) rev) seen w = (Ok s, w') →
  ∃ r sz,
    objects (dbx w) !! ("/" +:+ path) = Some (RFile r sz)
    ∧ tree w' !! path = Some {| is_dir := false; mtime := now w; fsize := sz |}
    ∧ check_state path w' = (Ok tt, w').
Proof.
  intros Hrel Hrev H.
  apply (file_entry_downloads _ _ _ _ _ _ Hrev) in H as [because H].
  apply download_remote_ok in H as (r & sz & Hobj & Ht & Hl & Hr & _).
  rewrite (join_relative _ Hrel) in Hobj.
  exists r, sz. split; [done|]. split; [done|].
  eapply check_state_idle.
  - exact Ht.
  - rewrite Hl. apply lookup_insert_eq.
  - rewrite Hr. apply lookup_insert_eq.
  - done.
Qed.

Lemma remote_version_replaces_local_witness :
  ∃ r sz,
    objects (dbx w_conflict) !! ("/" +:+ "a") = Some (RFile r sz)
    ∧ tree (process_remote_entry (FileMetadata ("/" +:+ "a") "r2") ∅ w_conflict).2
        !! "a"
      = Some {| is_dir := false; mtime := now w_conflict; fsize := sz |}
    ∧ check_state "a"
        (process_remote_entry (FileMetadata ("/" +:+ "a") "r2") ∅ w_conflict).2
      = (Ok tt, (process_remote_entry (FileMetadata ("/" +:+ "a") "r2") ∅ w_conflict).2).
Proof.
  apply (remote_version_replaces_local "a" "r2" ∅ w_conflict ({["a"]} ∪ ∅));
    [reflexivity| |by vm_compute].
  intros (rec & Hl & Hr). cbn in Hl.
  apply lookup_singleton_Some in Hl as [_ <-]. discriminate Hr.
Defined.

(** *** The next run *)

Lemma listing_elem d e :
  e ∈ listing d ↔ ∃ k o, objects d !! k = Some o ∧ e = to_entry (k, o).
Proof.
  unfold listing. rewrite list_elem_of_fmap. split.
  - intros ([k o] & -> & Hin). apply elem_of_map_to_list in Hin. eauto.
  - intros (k & o & Hin & ->). exists (k, o). split; [done|].
    by apply elem_of_map_to_list.
Qed.

Lemma listing_file d pd rev :
  FileMetadata pd rev ∈ listing d ↔ ∃ sz, objects d !! pd = Some (RFile rev sz).
Proof.
  rewrite listing_elem. split.
  - intros (k & o & Hin & He). unfold to_entry in He. cbn [fst snd] in He.
    destruct o as [r sz|]; [|done]. simplify_eq. eauto.
  - intros [sz Hin]. exists pd, (RFile rev sz). done.
Qed.

Lemma file_paths_elem es p :
  p ∈ file_paths es ↔ ∃ pd rev, FileMetadata pd rev ∈ es ∧ p = Path.drop 1 pd.
Proof.
  unfold file_paths. rewrite elem_of_list_to_set, list_elem_of_omap. split.
  - intros ([pd rev|pd] & Hin & He); simpl in He; [|done]. simplify_eq. eauto.
  - intros (pd & rev & Hin & ->). by exists (FileMetadata pd rev).
Qed.

Lemma upload_settled path because w w' :
  tree_ok (tree w) → rooted path = false →
  settled w → upload path because w = (Ok tt, w') → settled w'.
Proof.
  intros Htree Hrel (Hok & Hrec & Hdom) H.
  destruct (upload_maps _ _ _ _ H) as (r0 & n & Hn & _).
  destruct (Htree _ _ Hn) as [Hsz _].
  apply (upload_ok _ _ _ _ _ Hn Hsz) in H as (r & Hobj & Hl & _ & _).
  rewrite (join_relative _ Hrel) in Hobj.
  split; [|split].
  - intros k o. rewrite Hobj. intros [[<- <-]|[_ Hk]]%lookup_insert_Some; eauto.
  - intros pd rev [sz Hin]%listing_file. rewrite Hobj in Hin.
    unfold has_rev. rewrite Hl.
    apply lookup_insert_Some in Hin as [[<- Ho]|[Hne Hin]].
    + simplify_eq. change (Path.drop 1 ("/" +:+ path)) with path.
      rewrite lookup_insert_eq. eauto.
    + destruct (Hok _ _ Hin) as (p & -> & _).
      change (Path.drop 1 ("/" +:+ p)) with p.
      rewrite lookup_insert_ne by congruence.
      apply (Hrec ("/" +:+ p) rev), listing_file. eauto.
  - intros p. rewrite Hl, dom_insert_L, file_paths_elem.
    intros [->%elem_of_singleton|Hp]%elem_of_union.
    + exists ("/" +:+ path), r. split; [|done].
      apply listing_file. exists (fsize n). rewrite Hobj. apply lookup_insert_eq.
    + apply Hdom, file_paths_elem in Hp as (pd & rev & [sz Hin]%listing_file & ->).
      destruct (decide (pd = "/" +:+ path)) as [->|Hne].
      * exists ("/" +:+ path), r. split; [|done].
        apply listing_file. exists (fsize n). rewrite Hobj. apply lookup_insert_eq.
      * exists pd, rev. split; [|done]. apply listing_file. exists sz.
        rewrite Hobj. by rewrite lookup_insert_ne.
Qed.

Lemma check_state_settled path w w' :
  tree_ok (tree w) → rooted path = false →
  settled w → check_state path w = (Ok tt, w') →
  settled w'
  ∧ dom (local_files (state w')) ⊆ {[path]} ∪ dom (local_files (state w)).
Proof.
  intros Htree Hrel Hset H.
  assert (∀ because, upload path because w = (Ok tt, w') →
            settled w'
            ∧ dom (local_files (state w')) ⊆ {[path]} ∪ dom (local_files (state w)))
    as Hup.
  { intros because Hu. split; [by eapply upload_settled|].
    apply upload_maps in Hu as (r & n & _ & _ & -> & _).
    rewrite dom_insert_L. set_solver. }
  unfold check_state in H. unfold bind at 1 in H. unfold get at 1 in H.
  destruct (remote_files (state w) !! path) as [x|] eqn:Hrem; [|by eapply Hup].
  apply bind_ok_inv in H as (m & w1 & Hm & H).
  assert (w1 = w) as ->.
  { revert Hm. unfold os_path_getmtime, bind, get, raise, ret. simpl.
    destruct (tree w !! path); [|done]. intros ?. by simplify_eq. }
  unfold bind at 1 in H. unfold get at 1 in H.
  destruct (local_files (state w) !! path) as [rec|] eqn:Hloc; [|done].
  destruct (meta_modified rec <? m); [by eapply Hup|].
  unfold ret in H. simplify_eq. split; [done|set_solver].
Qed.

Lemma check_state_loop_settled_dbx paths : ∀ w w',
  tree_ok (tree w) → (∀ p, p ∈ paths → rooted p = false) →
  settled w → for_each paths check_state w = (Ok tt, w') →
  settled w'
  ∧ dom (local_files (state w')) ⊆ list_to_set paths ∪ dom (local_files (state w)).
Proof.
  induction paths as [|q paths IH]; intros w w' Htree Hrel Hset H; simpl in H.
  - unfold ret in H. simplify_eq. split; [done|set_solver].
  - apply bind_ok_inv in H as ([] & w1 & Hq & H).
    pose proof (frames_ok same_tree _ _ _ _ (check_state_same_tree q) Hq) as Ht.
    unfold same_tree in Ht.
    apply check_state_settled in Hq as [Hset1 Hdom1];
      [|done|apply Hrel; set_solver|done].
    apply IH in H as [Hset' Hdom'];
      [|by rewrite Ht|intros p Hp; apply Hrel; set_solver|done].
    split; [done|]. set_solver.
Qed.

Lemma check_local_settled w w' :
  tree_ok (tree w) → (∀ k, k ∈ dom (tree w) → rooted k = false) →
  dom (local_files (state w)) ⊆ list_to_set (scan (tree w)) →
  settled w → check_local w = (Ok tt, w') → settled w'.
Proof.
  intros Htree Hrel Hdom Hset. rewrite check_local_run. intros H.
  apply bind_ok_inv in H as ([] & w1 & H1 & H).
  apply check_state_loop_settled_dbx in H1 as [Hset1 Hdom1]; [|done| |done].
  - rewrite (bind_ok _ _ _ _ _ (eq_refl : get w1 = (Ok w1, w1))) in H.
    rewrite delete_missing_loop_settled in H; [by simplify_eq|].
    intros k Hk. apply keys_elem, elem_of_dom in Hk.
    assert (k ∈ (list_to_set (scan (tree w)) : gset string)) as Hin by set_solver.
    by apply elem_of_list_to_set in Hin.
  - intros p Hp. destruct (scan_regular_files _ _ Htree Hp) as (n & Hn & _).
    apply Hrel, elem_of_dom. eauto.
Qed.

Lemma execute_delta_settles w w' :
  dropbox_ok (dbx w) → local_in_remote (state w) →
  execute_delta w = (Ok tt, w') → settled w'.
Proof.
  intros Hok Hin H.
  pose proof (execute_delta_revs _ _ Hok H) as Hrec.
  apply (execute_delta_ok _ _ Hin) in H as (Hdom & _ & Hd).
  unfold settled. rewrite Hd. split; [done|]. split; [done|]. by rewrite Hdom.
Qed.

(** X23: the remote pass of the next run has nothing to do, if the local
    pass of this run had nothing to delete: after a remote pass and a local
    pass that returned, on a Dropbox that names its objects by a separator
    and a relative path and a tree of relative paths, with every path of
    [local_files] in the file list before the local pass, a remote pass
    leaves the maps and Dropbox as they are, downloads nothing and deletes
    nothing: the revisions [upload] recorded are the revisions Dropbox
    lists. *)
Theorem next_remote_pass_idle w w1 w2 :
  dropbox_ok (dbx w) →
  dom (local_files (state w)) ⊆ dom (remote_files (state w)) →
  check_remote w = (Ok tt, w1) →
  tree_ok (tree w1) →
  (∀ k, k ∈ dom (tree w1) → rooted k = false) →
  dom (local_files (state w1)) ⊆ list_to_set (scan (tree w1)) →
  check_local w1 = (Ok tt, w2) →
  state (check_remote w2).2 = state w2
  ∧ dbx (check_remote w2).2 = dbx w2
  ∧ ∃ l, log (check_remote w2).2 = log w2 ++ l
         ∧ Forall (λ e, is_transfer e = false ∧ is_deletion e = false) l.
Proof.
  intros Hok Hin H1 Htree Hrel Hdom H2.
  apply (execute_delta_settles _ _ Hok Hin) in H1.
  apply (check_local_settled _ _ Htree Hrel Hdom H1) in H2 as (_ & Hrec & Hloc).
  by apply execute_delta_settled.
Qed.

Lemma tree_ok_two_files p1 m1 sz1 p2 m2 sz2 :
  0 ≤ sz1 → 0 ≤ sz2 → tree_ok (<[ p1 := file m1 sz1 ]> {[ p2 := file m2 sz2 ]}).
Proof.
  intros H1 H2 q n Hq.
  apply lookup_insert_Some in Hq as [[_ <-]|[_ Hq]].
  - split; [done|]. intros Hd. discriminate Hd.
  - apply lookup_singleton_Some in Hq as [_ <-].
    split; [done|]. intros Hd. discriminate Hd.
Defined.

Lemma next_remote_pass_idle_witness :
  state (check_remote (check_local (check_remote w_both_new).2).2).2
  = state (check_local (check_remote w_both_new).2).2
  ∧ dbx (check_remote (check_local (check_remote w_both_new).2).2).2
    = dbx (check_local (check_remote w_both_new).2).2
  ∧ ∃ l, log (check_remote (check_local (check_remote w_both_new).2).2).2
         = log (check_local (check_remote w_both_new).2).2 ++ l
         ∧ Forall (λ e, is_transfer e = false ∧ is_deletion e = false) l.
Proof.
  assert (tree (check_remote w_both_new).2
          = <[ "b" := file 10 4 ]> {[ "x" := file 1 3 ]}) as Ht
    by (by vm_compute).
  assert (local_files (state (check_remote w_both_new).2)
          = {[ "b" := {| meta_rev := "r2"; meta_modified := 10 |} ]}) as Hl
    by (by vm_compute).
  apply (next_remote_pass_idle w_both_new (check_remote w_both_new).2).
  - intros k o Hk. cbn in Hk. apply lookup_singleton_Some in Hk as [<- _].
    by exists "b".
  - intros p Hp. by apply elem_of_dom in Hp as [??].
  - by vm_compute.
  - rewrite Ht. apply tree_ok_two_files; discriminate.
  - intros k Hk. rewrite Ht in Hk. apply elem_of_dom in Hk as [n Hk].
    apply lookup_insert_Some in Hk as [[<- _]|[_ Hk]]; [done|].
    by apply lookup_singleton_Some in Hk as [<- _].
  - rewrite Hl, Ht, dom_singleton_L. intros p ->%elem_of_singleton.
    apply elem_of_list_to_set. by vm_compute; left.
  - by vm_compute.
Defined.

(** *** A folder entry, in general *)

#[export] Instance tree_grows_po : PreOrder tree_grows.
Proof.
  split; unfold tree_grows; [by intros x|]. intros x y z H1 H2 p n Hp. eauto.
Qed.

Lemma os_mkdir_grows p : frames tree_grows (os_mkdir p).
Proof.
  intros w q n Hq. unfold os_mkdir, bind, get, modify, raise. simpl.
  destruct (tree w !! p) eqn:Hp; simpl; [done|].
  assert (p ≠ q) as Hne by congruence.
  case_bool_decide; simpl; [by rewrite lookup_insert_ne|].
  destruct (tree w !! (Path.os_path_split p).1) as [nd|]; simpl; [|done].
  destruct (is_dir nd); simpl; [by rewrite lookup_insert_ne|done].
Qed.

Lemma os_makedirs_grows p : frames tree_grows (os_makedirs p).
Proof.
  unfold os_makedirs. frame_step; [frames_auto|].
  pose proof os_mkdir_grows.
  assert (∀ q, frames tree_grows (os_path_exists q))
    by (intros q; unfold os_path_exists; frames_auto).
  induction (Path.ancestry p) as [|q qs IH]; simpl; frames_auto.
Qed.

(** X24: a folder entry never replaces a file: whatever the tree holds,
    processing a [FolderMetadata] entry leaves the two maps as they are,
    removes and overwrites nothing of the tree, and never comes to the call
    of [os.makedir]; [make_local_dir] is called only where nothing exists,
    and there it is [os.makedirs]. *)
Theorem folder_entry_never_replaces_file pd seen w :
  state (process_remote_entry (FolderMetadata pd) seen w).2 = state w
  ∧ (∀ p n, tree w !! p = Some n →
            tree (process_remote_entry (FolderMetadata pd) seen w).2 !! p = Some n)
  ∧ (∀ name, (process_remote_entry (FolderMetadata pd) seen w).1
             ≠ Raise (AttributeError name)).
Proof.
  split; [apply folder_entry_same_state|].
  rewrite process_folder_entry_run. split.
  - revert w.
    change (frames tree_grows
      (ex <- os_path_exists (Path.drop 1 pd) ;;
       (if negb ex
        then emit (MakingDirectory (Path.drop 1 pd)) ;; os_makedirs (Path.drop 1 pd)
        else ret tt) ;;
       ret seen)).
    pose proof os_makedirs_grows.
    assert (∀ q, frames tree_grows (os_path_exists q))
      by (intros q; unfold os_path_exists; frames_auto).
    frames_auto.
  - intros name. unfold os_path_exists. unfold bind at 1 2. unfold get, ret.
    simpl. destruct (bool_decide (is_Some (tree w !! Path.drop 1 pd))); simpl; [done|].
    rewrite bind_assoc, (bind_ok _ _ _ _ _ (emit_run _ _)).
    set (w0 := with_log _ w).
    pose proof (os_makedirs_run (Path.drop 1 pd) w0) as [_ Hr].
    unfold bind. destruct (os_makedirs (Path.drop 1 pd) w0) as [[[]|e|] w1];
      simpl in *; [done| |done].
    intros Heq. simplify_eq. done.
Qed.

(** * The passes, step by step *)

(** *** [upload], with what it changes *)

Lemma world_eq w w' :
  state w = state w' → tree w = tree w' → now w = now w' → dbx w = dbx w' →
  log w = log w' → w = w'.
Proof. destruct w, w'. simpl. by intros -> -> -> -> ->. Qed.

Lemma dropbox_eq d d' :
  objects d = objects d' → refs d = refs d' → sessions d = sessions d' →
  session_counter d = session_counter d' → rev_counter d = rev_counter d' →
  page_extra d = page_extra d' → d = d'.
Proof. destruct d, d'. simpl. by intros -> -> -> -> -> ->. Qed.

(** The appends, with the world they leave: the session has received the
    bytes of every whole chunk. *)
Lemma upload_loop_appends_run j : ∀ fuel sz off s w,
  (S j ≤ fuel)%nat →
  0 ≤ sz - (off + 10000000) →
  (sz - (off + 10000000)) / 10000000 = Z.of_nat j →
  sessions (dbx w) !! s = Some off →
  upload_loop fuel sz (off + 10000000) {| d_off := off; d_len := 10000000 |}
    false (Some s) (Some {| session_id := s; offset := off |}) off w
  = (Ok ({| d_off := off + Z.of_nat (S j) * 10000000;
            d_len := sz - (off + Z.of_nat (S j) * 10000000) |},
         Some {| session_id := s; offset := off + Z.of_nat (S j) * 10000000 |}),
     with_dbx (set_sessions (<[s := off + Z.of_nat (S j) * 10000000]>))
       (with_log (λ l, l ++ append_calls s off (S j)) w)).
Proof.
  induction j as [|j IH]; intros fuel sz off s w Hfuel Hrem Hj Hs;
    (destruct fuel as [|fuel]; [lia|]).
  - cbn [upload_loop]. unfold bind at 1. unfold bind at 1.
    rewrite files_upload_session_append_v2_run by done. cbn [ret].
    assert (sz - (off + 10000000) < 10000000).
    { apply Z.div_small_iff in Hj; lia. }
    rewrite read_rest by lia. cbn [d_len].
    assert ((sz - (off + 10000000) <? 10000000) = true) as -> by lia.
    replace (off + Z.of_nat 1 * 10000000) with (off + 10000000) by lia.
    replace (off + 10000000 + (sz - (off + 10000000))) with sz by lia.
    destruct fuel; cbn [upload_loop]; reflexivity.
  - cbn [upload_loop]. unfold bind at 1. unfold bind at 1.
    rewrite files_upload_session_append_v2_run by done. cbn [ret].
    assert (10000000 ≤ sz - (off + 10000000)).
    { destruct (Z.lt_ge_cases (sz - (off + 10000000)) 10000000) as [Hlt|]; [|done].
      rewrite Z.div_small in Hj by lia. lia. }
    rewrite read_chunk by lia. cbn [d_len].
    assert ((10000000 <? 10000000) = false) as -> by lia.
    rewrite (IH fuel sz (off + 10000000) s).
    + replace (off + 10000000 + Z.of_nat (S j) * 10000000)
        with (off + Z.of_nat (S (S j)) * 10000000) by lia.
      f_equal. apply world_eq; try done.
      * apply dropbox_eq; try done. cbn. apply insert_insert_eq.
      * cbn. by rewrite <- app_assoc.
    + lia.
    + lia.
    + replace (sz - (off + 10000000 + 10000000)) with
        (sz - (off + 10000000) + (-1) * 10000000) by lia.
      rewrite Z.div_add by lia. lia.
    + simpl. by rewrite lookup_insert_eq.
Qed.

(** The whole loop on a file of two chunks or more. *)
Lemma upload_loop_run fuel sz w :
  20000000 ≤ sz →
  (Z.to_nat (sz / 10000000) ≤ fuel)%nat →
  upload_loop fuel sz 10000000 {| d_off := 0; d_len := 10000000 |}
    false None None 0 w
  = (Ok ({| d_off := sz / 10000000 * 10000000;
            d_len := sz - sz / 10000000 * 10000000 |},
         Some {| session_id := session_counter (dbx w);
                 offset := sz / 10000000 * 10000000 |}),
     with_dbx (λ d, bump_session
                 (set_sessions (<[session_counter (dbx w) := sz / 10000000 * 10000000]>) d))
       (with_log (λ l, l ++ Call_files_upload_session_start
                               {| d_off := 0; d_len := 10000000 |} false
                             :: append_calls (session_counter (dbx w)) 10000000
                                  (Z.to_nat (sz / 10000000 - 1))) w)).
Proof.
  intros Hsz Hfuel.
  assert (2 ≤ sz / 10000000) by (apply Z.div_le_lower_bound; lia).
  destruct fuel as [|fuel]; [lia|].
  cbn [upload_loop]. unfold bind at 1.
  rewrite files_upload_session_start_run.
  rewrite Z.add_0_l, read_chunk by lia. cbn [d_len].
  assert ((10000000 <? 10000000) = false) as -> by lia.
  set (w1 := with_dbx _ _).
  pose proof (upload_loop_appends_run (Z.to_nat (sz / 10000000 - 2)) fuel sz 10000000
                (session_counter (dbx w)) w1) as Hrun.
  replace (10000000 + Z.of_nat (S (Z.to_nat (sz / 10000000 - 2))) * 10000000)
    with (sz / 10000000 * 10000000) in Hrun by lia.
  replace (S (Z.to_nat (sz / 10000000 - 2)))
    with (Z.to_nat (sz / 10000000 - 1)) in Hrun by lia.
  rewrite Hrun.
  - f_equal. subst w1. apply world_eq; try done.
    + apply dropbox_eq; try done. cbn. apply insert_insert_eq.
    + cbn. by rewrite <- app_assoc.
  - lia.
  - lia.
  - replace (sz - (10000000 + 10000000)) with (sz + (-2) * 10000000) by lia.
    rewrite Z.div_add by lia. lia.
  - subst w1. simpl. by rewrite lookup_insert_eq.
Qed.

Lemma commit_run len p mode w :
  rooted p = true →
  commit len p mode w
  = match objects (dbx w) !! p, mode with
    | Some RFolder, _ => (Raise (ApiError "path/conflict/folder"), w)
    | Some (RFile _ _), add => (Raise (ApiError "path/conflict/file"), w)
    | _, _ =>
        (Ok (fresh_rev (dbx w)),
         with_dbx (λ d, bump_rev (set_objects (<[p := RFile (fresh_rev d) len]>) d)) w)
    end.
Proof.
  intros Hp. unfold commit, bind, get. simpl.
  rewrite (accepted_rooted _ Hp), (target_rooted _ _ Hp). simpl.
  by destruct (objects (dbx w) !! p) as [[]|]; destruct mode.
Qed.

Lemma upload_uploaded path because w n :
  tree w !! path = Some n → is_dir n = false → 0 ≤ fsize n →
  uploaded path because n w (upload path because w).
Proof.
  intros Hn Hd Hsz. unfold uploaded.
  split; [by apply upload_log|]. split; [apply upload_same_tree|].
  destruct (upload path because w) as [res w'] eqn:Hrun. cbn [fst snd].
  unfold upload in Hrun. rewrite (bind_ok _ _ _ _ _ (emit_run _ _)) in Hrun.
  set (w0 := with_log _ w) in Hrun.
  rewrite (bind_ok _ _ _ _ _ (os_path_getsize_run path w0 n Hn)) in Hrun.
  destruct (140000000 <? fsize n) eqn:Hbig.
  - rewrite bind_assoc, (bind_ok _ _ _ _ _ (open_r_run path w0 n Hn Hd)) in Hrun.
    rewrite read_chunk in Hrun by lia. cbn [d_len] in Hrun.
    assert ((10000000 <? 10000000) = false) as Hf by lia.
    rewrite Hf, Z.add_0_l in Hrun. clear Hf.
    rewrite bind_assoc in Hrun.
    rewrite (bind_ok _ _ _ _ _
               (upload_loop_run (S (Z.to_nat (fsize n / 10000000))) (fsize n) w0
                  ltac:(lia) ltac:(lia))) in Hrun.
    cbn [fst snd] in Hrun. set (w1 := with_dbx _ _) in Hrun.
    unfold files_upload_session_finish in Hrun.
    rewrite !bind_assoc, (bind_ok _ _ _ _ _ (emit_run _ _)) in Hrun.
    set (w2 := with_log _ w1) in Hrun.
    assert (session_at (Some {| session_id := session_counter (dbx w0);
                                offset := fsize n / 10000000 * 10000000 |}) w2
            = (Ok {| session_id := session_counter (dbx w0);
                     offset := fsize n / 10000000 * 10000000 |}, w2)) as Hat.
    { unfold session_at, bind, get. simpl. rewrite lookup_insert_eq.
      by rewrite bool_decide_true. }
    rewrite bind_assoc, (bind_ok _ _ _ _ _ Hat) in Hrun.
    cbn [offset d_len ci_path ci_mode session_id] in Hrun.
    replace (fsize n / 10000000 * 10000000
             + (fsize n - fsize n / 10000000 * 10000000)) with (fsize n) in Hrun by lia.
    rewrite bind_assoc in Hrun. unfold bind at 1 in Hrun.
    rewrite commit_run in Hrun by apply rooted_join.
    change (objects (dbx w2)) with (objects (dbx w)) in Hrun.
    destruct (objects (dbx w) !! Path.os_path_join "/" path) as [[r0 sz0|]|] eqn:Ho.
    + rewrite bind_assoc, (bind_ok _ _ _ _ _ (eq_refl : modify _ _ = (Ok tt, _))) in Hrun.
      rewrite bind_ret in Hrun.
      set (w3 := with_dbx _ (with_dbx _ w2)) in Hrun.
      assert (tree w3 !! path = Some n) as Hn3 by done.
      rewrite (bind_ok _ _ _ _ _ (os_path_getmtime_run path w3 n Hn3)) in Hrun.
      rewrite record_meta_run in Hrun. simplify_eq. cbn.
      split; [done|]. split; [done|]. split; [done|].
      split; [apply delete_insert_eq|]. done.
    + simplify_eq. cbn. done.
    + rewrite bind_assoc, (bind_ok _ _ _ _ _ (eq_refl : modify _ _ = (Ok tt, _))) in Hrun.
      rewrite bind_ret in Hrun.
      set (w3 := with_dbx _ (with_dbx _ w2)) in Hrun.
      assert (tree w3 !! path = Some n) as Hn3 by done.
      rewrite (bind_ok _ _ _ _ _ (os_path_getmtime_run path w3 n Hn3)) in Hrun.
      rewrite record_meta_run in Hrun. simplify_eq. cbn.
      split; [done|]. split; [done|]. split; [done|].
      split; [apply delete_insert_eq|]. done.
  - rewrite bind_assoc, (bind_ok _ _ _ _ _ (open_r_run path w0 n Hn Hd)) in Hrun.
    rewrite read_all in Hrun by done. unfold files_upload in Hrun.
    rewrite !bind_assoc, (bind_ok _ _ _ _ _ (emit_run _ _)) in Hrun.
    cbn [d_len] in Hrun.
    unfold bind at 1 in Hrun. rewrite commit_run in Hrun by apply rooted_join.
    set (w2 := with_log _ w0) in Hrun.
    change (objects (dbx w2)) with (objects (dbx w)) in Hrun.
    destruct (objects (dbx w) !! Path.os_path_join "/" path) as [[r0 sz0|]|] eqn:Ho.
    + set (w3 := with_dbx _ w2) in Hrun.
      assert (tree w3 !! path = Some n) as Hn3 by done.
      rewrite (bind_ok _ _ _ _ _ (os_path_getmtime_run path w3 n Hn3)) in Hrun.
      rewrite record_meta_run in Hrun. simplify_eq. cbn. done.
    + simplify_eq. cbn. done.
    + set (w3 := with_dbx _ w2) in Hrun.
      assert (tree w3 !! path = Some n) as Hn3 by done.
      rewrite (bind_ok _ _ _ _ _ (os_path_getmtime_run path w3 n Hn3)) in Hrun.
      rewrite record_meta_run in Hrun. simplify_eq. cbn. done.
Qed.

(** C4: [upload] of a regular file prints its line and then, if the file is
    longer than 140000000 bytes, runs an upload session in chunks of
    10000000 bytes, each call at the offset of the bytes sent before it, and
    finishes it with the rest of the file, shorter than a chunk, and a
    commit for ["/" + path] in overwrite mode; otherwise it makes one
    [files_upload] call with the whole file, in overwrite mode.  Either way
    Dropbox then has the file at ["/" + path] with its whole length and a
    new revision, which both maps record, unless a folder is there, which
    the overwrite mode does not replace: then the call raises and the maps
    and the objects of Dropbox are as before. *)
Theorem upload_chunked_above_threshold path because w n :
  tree w !! path = Some n → is_dir n = false → 0 ≤ fsize n →
  uploaded path because n w (upload path because w)
  ∧ upload_calls (session_counter (dbx w)) path (fsize n)
    = (if 140000000 <? fsize n
       then session_calls (session_counter (dbx w)) path (fsize n)
       else [Call_files_upload {| d_off := 0; d_len := fsize n |}
               (Path.os_path_join "/" path) overwrite true])
  ∧ (140000000 < fsize n →
     chunked_from 0 (upload_calls (session_counter (dbx w)) path (fsize n))).
Proof.
  intros Hn Hd Hsz. split; [by apply upload_uploaded|]. split; [done|].
  intros Hbig. unfold upload_calls.
  assert ((140000000 <? fsize n) = true) as -> by lia.
  apply session_calls_chunked. lia.
Qed.

Lemma upload_chunked_above_threshold_witness :
  uploaded "big" None (file 1 140000001) w_big_file (upload "big" None w_big_file)
  ∧ upload_calls (session_counter (dbx w_big_file)) "big" (fsize (file 1 140000001))
    = (if 140000000 <? fsize (file 1 140000001)
       then session_calls (session_counter (dbx w_big_file)) "big"
              (fsize (file 1 140000001))
       else [Call_files_upload {| d_off := 0; d_len := fsize (file 1 140000001) |}
               (Path.os_path_join "/" "big") overwrite true])
  ∧ (140000000 < fsize (file 1 140000001) →
     chunked_from 0 (upload_calls (session_counter (dbx w_big_file)) "big"
                       (fsize (file 1 140000001)))).
Proof.
  apply (upload_chunked_above_threshold "big" None w_big_file (file 1 140000001));
    [reflexivity|reflexivity|discriminate].
Defined.

(** The same upload, evaluated: the file is on Dropbox with its length. *)
Example upload_big_file :
  (upload "big" None w_big_file).1 = Ok tt
  ∧ objects (dbx (upload "big" None w_big_file).2)
    = {[ "/big" := RFile "r7" 140000001 ]}
  ∧ sessions (dbx (upload "big" None w_big_file).2) = ∅
  ∧ length (log (upload "big" None w_big_file).2) = 16%nat.
Proof. vm_compute. done. Qed.

(** *** A path of the file list *)


(** [os.walk('.')] is top-down: a directory comes before the directories
    in it. *)
Example os_walk_top_down :
  (os_walk (tree w_subdir)).*1.*1 = ["."; "./docs"; "./docs/sub"]
  ∧ scan (tree w_subdir) = ["docs/b"; "docs/sub/c"].
Proof. vm_compute. done. Qed.



(** *** A file entry of the listing *)

(** The request of [download_remote] and what follows it. *)
Lemma fetch_cases path w :
  dbx (fetch path w).2 = dbx w
  ∧ log (fetch path w).2
    = log w ++ [Call_files_download_to_file path (Path.os_path_join "/" path)]
  ∧ match objects (dbx w) !! Path.os_path_join "/" path with
    | Some (RFile r sz) =>
        if writable (tree w) path then
          (fetch path w).1 = Ok tt
          ∧ tree (fetch path w).2
            = <[path := {| is_dir := false; mtime := now w; fsize := sz |}]> (tree w)
          ∧ local_files (state (fetch path w).2)
            = <[path := {| meta_rev := r; meta_modified := now w |}]>
                (local_files (state w))
          ∧ remote_files (state (fetch path w).2)
            = <[path := {| meta_rev := r; meta_modified := now w |}]>
                (remote_files (state w))
        else
          (∃ e, (fetch path w).1 = Raise e)
          ∧ tree (fetch path w).2 = tree w ∧ state (fetch path w).2 = state w
    | _ =>
        (∃ e, (fetch path w).1 = Raise e)
        ∧ tree (fetch path w).2 = tree w ∧ state (fetch path w).2 = state w
    end.
Proof.
  split; [|split; [apply fetch_log|]].
  { pose proof (download_remote_same_dbx) as _.
    unfold fetch, files_download_to_file, save_body_to_file, os_path_getmtime,
      record_meta.
    assert (frames same_dbx
      (r <- files_download_to_file path (Path.os_path_join "/" path) ;;
       m <- os_path_getmtime path ;;
       record_meta path {| meta_rev := r; meta_modified := m |})) as H.
    { unfold files_download_to_file, save_body_to_file, os_path_getmtime,
        record_meta. frames_auto. }
    apply H. }
  destruct (fetch path w) as [res w'] eqn:Hrun. cbn [fst snd].
  unfold fetch, files_download_to_file in Hrun.
  rewrite bind_assoc, (bind_ok _ _ _ _ _ (emit_run _ _)) in Hrun.
  set (w0 := with_log _ w) in Hrun.
  rewrite bind_assoc, (bind_ok _ _ _ _ _ (eq_refl : get w0 = (Ok w0, w0))) in Hrun.
  rewrite (accepted_rooted _ (rooted_join path)) in Hrun.
  rewrite (target_rooted _ _ (rooted_join path)) in Hrun. cbn [negb] in Hrun.
  change (dbx w0) with (dbx w) in Hrun.
  destruct (objects (dbx w) !! Path.os_path_join "/" path) as [[r sz|]|] eqn:Ho.
  - unfold writable.
    rewrite !bind_assoc in Hrun. unfold save_body_to_file in Hrun.
    rewrite bind_assoc, (bind_ok _ _ _ _ _ (eq_refl : get w0 = (Ok w0, w0))) in Hrun.
    change (tree w0) with (tree w) in Hrun. change (now w0) with (now w) in Hrun.
    set (n := {| is_dir := false; mtime := now w; fsize := sz |}) in *.
    assert (∀ w1 : World, tree w1 = <[path := n]> (tree w) → state w1 = state w →
              (x <- ret r ;; m <- os_path_getmtime path ;;
               record_meta path {| meta_rev := x; meta_modified := m |}) w1
              = (res, w') →
              res = Ok tt ∧ tree w' = <[path := n]> (tree w)
              ∧ local_files (state w')
                = <[path := {| meta_rev := r; meta_modified := now w |}]>
                    (local_files (state w))
              ∧ remote_files (state w')
                = <[path := {| meta_rev := r; meta_modified := now w |}]>
                    (remote_files (state w))) as Hwrite.
    { intros w1 Ht Hs H. rewrite bind_ret in H.
      assert (tree w1 !! path = Some n) as Hn by (rewrite Ht; apply lookup_insert_eq).
      rewrite (bind_ok _ _ _ _ _ (os_path_getmtime_run path w1 n Hn)) in H.
      rewrite record_meta_run in H. simplify_eq. cbn. by rewrite Ht, Hs. }
    destruct (tree w !! path) as [[[] m0 s0]|] eqn:Hp; cbn [negb andb is_dir].
    + unfold bind, raise in Hrun. simplify_eq. eauto.
    + case_bool_decide as Hh; cbn [orb].
      * rewrite bind_assoc,
          (bind_ok _ _ _ _ _ (eq_refl : modify _ _ = (Ok tt, _))),
          (bind_ok _ _ _ _ _ (eq_refl : modify _ _ = (Ok tt, _))) in Hrun.
        eapply Hwrite; [..|exact Hrun]; done.
      * destruct (tree w !! (Path.os_path_split path).1) as [nd|] eqn:Hnd.
        -- destruct (is_dir nd).
           ++ rewrite bind_assoc,
                (bind_ok _ _ _ _ _ (eq_refl : modify _ _ = (Ok tt, _))),
                (bind_ok _ _ _ _ _ (eq_refl : modify _ _ = (Ok tt, _))) in Hrun.
              eapply Hwrite; [..|exact Hrun]; done.
           ++ unfold bind, raise in Hrun. simplify_eq. eauto.
        -- unfold bind, raise in Hrun. simplify_eq. eauto.
    + case_bool_decide as Hh; cbn [orb].
      * rewrite bind_assoc,
          (bind_ok _ _ _ _ _ (eq_refl : modify _ _ = (Ok tt, _))),
          (bind_ok _ _ _ _ _ (eq_refl : modify _ _ = (Ok tt, _))) in Hrun.
        eapply Hwrite; [..|exact Hrun]; done.
      * destruct (tree w !! (Path.os_path_split path).1) as [nd|] eqn:Hnd.
        -- destruct (is_dir nd).
           ++ rewrite bind_assoc,
                (bind_ok _ _ _ _ _ (eq_refl : modify _ _ = (Ok tt, _))),
                (bind_ok _ _ _ _ _ (eq_refl : modify _ _ = (Ok tt, _))) in Hrun.
              eapply Hwrite; [..|exact Hrun]; done.
           ++ unfold bind, raise in Hrun. simplify_eq. eauto.
        -- unfold bind, raise in Hrun. simplify_eq. eauto.
  - unfold bind, raise in Hrun. simplify_eq. eauto.
  - unfold bind, raise in Hrun. simplify_eq. eauto.
Qed.

Lemma download_remote_downloaded path because w :
  downloaded path because tt w (download_remote path (Some because) w).
Proof.
  rewrite download_remote_run. unfold downloaded. cbn zeta.
  set (head := (Path.os_path_split path).1).
  set (w0 := with_log _ w).
  destruct (negb _ && negb _) eqn:Hneeds.
  - destruct (os_makedirs_run head w0) as [Hlog Hres].
    destruct (os_makedirs_same_clock head w0) as [Hnow Hdbx].
    pose proof (os_makedirs_same_state head w0) as Hst. unfold same_state in Hst.
    destruct (os_makedirs head w0) as [[[]|e|] w1]; cbn [fst snd] in *; [| |done].
    + destruct (fetch_cases path w1) as (Hd & Hl & Hc).
      split; [by rewrite Hd, Hdbx|].
      split; [rewrite Hl, Hlog; subst w0; simpl; by rewrite <- !app_assoc|].
      rewrite Hdbx, Hnow, Hst in Hc. exact Hc.
    + split; [done|]. split; [done|].
      split; [rewrite Hlog; subst w0; simpl; by rewrite <- !app_assoc|]. done.
  - cbn [fst snd]. destruct (fetch_cases path w0) as (Hd & Hl & Hc).
    split; [done|].
    split; [rewrite Hl; subst w0; simpl; by rewrite <- !app_assoc|]. exact Hc.
Qed.

Lemma downloaded_then {A} path because w (m : M unit) (a : A) :
  downloaded path because tt w (m w) →
  downloaded path because a w ((m ;; ret a) w).
Proof.
  unfold downloaded, bind, ret. cbn zeta.
  destruct (m w) as [[[]|e|] w1]; cbn [fst snd]; intros [Hd H]; (split; [done|]);
    repeat case_match; try done; naive_solver.
Qed.

(** C1: when the remote pass comes to a file entry of the listing, it
    downloads the file if its path is not a key of [local_files], or if it
    is one and the revision of the entry is not the one recorded there: the
    file is then in the tree and recorded in both maps, or the call has
    raised and the maps are as before.  If the revisions are the same
    nothing is printed, asked of Dropbox or changed, whatever the
    modification times are.  The path is then among the file paths of the
    listing. *)
Theorem remote_file_downloaded_iff_new_or_changed
    es1 path_display rev seen w seen1 w1 :
  process_remote_entries es1 seen w = (Ok seen1, w1) →
  match local_files (state w1) !! Path.drop 1 path_display with
  | None =>
      downloaded (Path.drop 1 path_display) "-- Not Found Locally"
        ({[Path.drop 1 path_display]} ∪ seen1) w1
        (process_remote_entries (es1 ++ [FileMetadata path_display rev]) seen w)
  | Some rec =>
      if bool_decide (rev = meta_rev rec) then
        process_remote_entries (es1 ++ [FileMetadata path_display rev]) seen w
        = (Ok ({[Path.drop 1 path_display]} ∪ seen1), w1)
      else
        downloaded (Path.drop 1 path_display) "-- Remote File Changed"
          ({[Path.drop 1 path_display]} ∪ seen1) w1
          (process_remote_entries (es1 ++ [FileMetadata path_display rev]) seen w)
  end.
Proof.
  intros H1. rewrite process_remote_entries_app, (bind_ok _ _ _ _ _ H1).
  rewrite process_remote_entries_one, process_file_entry_run. simpl.
  destruct (local_files (state w1) !! Path.drop 1 path_display) as [rec|].
  - repeat case_bool_decide; try done.
    apply downloaded_then, download_remote_downloaded.
  - apply downloaded_then, download_remote_downloaded.
Qed.

Lemma remote_file_downloaded_iff_new_or_changed_witness :
  downloaded "docs/b" "-- Not Found Locally" ({["docs/b"]} ∪ ∅)
    (process_remote_entries [FolderMetadata "/docs"] ∅ w_remote_subdir).2
    (process_remote_entries
       ([FolderMetadata "/docs"] ++ [FileMetadata "/docs/b" "r2"]) ∅ w_remote_subdir).
Proof.
  apply (remote_file_downloaded_iff_new_or_changed
           [FolderMetadata "/docs"] "/docs/b" "r2" ∅ w_remote_subdir ∅
           (process_remote_entries [FolderMetadata "/docs"] ∅ w_remote_subdir).2).
  vm_compute. reflexivity.
Defined.

(** The same entries, evaluated: the directory is made, the file written
    and recorded. *)
Example download_into_directory :
  let out :=
    process_remote_entries
      [FolderMetadata "/docs"; FileMetadata "/docs/b" "r2"] ∅ w_remote_subdir in
  out.1 = Ok {["docs/b"]}
  ∧ tree out.2 = {[ "docs" := folder 10; "docs/b" := file 10 4 ]}
  ∧ local_files (state out.2)
    = {[ "docs/b" := {| meta_rev := "r2"; meta_modified := 10 |} ]}
  ∧ remote_files (state out.2)
    = {[ "docs/b" := {| meta_rev := "r2"; meta_modified := 10 |} ]}
  ∧ log out.2
    = [MakingDirectory "docs"; Os_makedirs "docs";
       Downloading "docs/b" (Some "-- Not Found Locally");
       Call_files_download_to_file "docs/b" "/docs/b"].
Proof. vm_compute. done. Qed.

(** *** The remote pass, however it ends *)

#[export] Instance kept_outside_po S : PreOrder (kept_outside S).
Proof.
  split; [by intros w p n|].
  intros w1 w2 w3 H1 H2 p n Hp Hn. by apply H2, H1.
Qed.

Lemma kept_outside_mono S S' w w' :
  S ⊆ S' → kept_outside S w w' → kept_outside S' w w'.
Proof. intros HS H p n Hp. apply H. set_solver. Qed.

Lemma tree_grows_kept S w w' : tree_grows w w' → kept_outside S w w'.
Proof. intros H p n _. apply H. Qed.

Lemma fetch_kept path w : kept_outside {[path]} w (fetch path w).2.
Proof.
  destruct (fetch_cases path w) as (_ & _ & H). intros p n Hp Hn.
  assert (p ≠ path) as Hne by set_solver.
  destruct (objects (dbx w) !! _) as [[r sz|]|];
    [destruct (writable _ _)|..];
    [destruct H as (_ & -> & _); by rewrite lookup_insert_ne
    |destruct H as (_ & -> & _); done..].
Qed.

Lemma download_remote_kept path because :
  frames (kept_outside {[path]}) (download_remote path because).
Proof.
  intros w. rewrite download_remote_run. cbn zeta.
  set (w0 := with_log _ w).
  destruct (negb _ && negb _).
  - pose proof (os_makedirs_grows (Path.os_path_split path).1 w0) as Hg.
    destruct (os_makedirs _ w0) as [[[]|e|] w1]; cbn [snd] in *.
    + etrans; [apply (tree_grows_kept _ w w1), Hg|apply fetch_kept].
    + apply (tree_grows_kept _ w w1), Hg.
    + apply (tree_grows_kept _ w w1), Hg.
  - apply (fetch_kept path w0).
Qed.

Lemma process_remote_entry_kept e seen :
  frames (kept_outside (file_paths [e])) (process_remote_entry e seen).
Proof.
  destruct e as [pd rev|pd].
  - assert (file_paths [FileMetadata pd rev] = {[Path.drop 1 pd]}) as ->.
    { unfold file_paths. simpl. set_solver. }
    pose proof download_remote_kept. simpl. frames_auto.
  - intros w. apply tree_grows_kept. rewrite process_folder_entry_run. revert w.
    change (frames tree_grows
      (ex <- os_path_exists (Path.drop 1 pd) ;;
       (if negb ex
        then emit (MakingDirectory (Path.drop 1 pd)) ;; os_makedirs (Path.drop 1 pd)
        else ret tt) ;;
       ret seen)).
    pose proof os_makedirs_grows. unfold os_path_exists. frames_auto.
Qed.

(** What holds of every entry holds of the listing, page by page. *)
Section Listing.
Context (R : gset string → World → World → Prop) `{!∀ S, PreOrder (R S)}.
Hypothesis R_mono : ∀ S S' w w', S ⊆ S' → R S w w' → R S' w w'.
Hypothesis R_entry : ∀ e seen, frames (R (file_paths [e])) (process_remote_entry e seen).
Hypothesis R_continue :
  ∀ S w, R S w (with_log (λ l, l ++ [Call_files_list_folder_continue]) w).

Lemma process_remote_entries_frames es : ∀ seen,
  frames (R (file_paths es)) (process_remote_entries es seen).
Proof.
  induction es as [|e es IH]; intros seen w; simpl; [reflexivity|].
  unfold bind. pose proof (R_entry e seen w) as H1.
  destruct (process_remote_entry e seen w) as [[s|x|] w1]; cbn [snd] in *.
  - etrans; [eapply R_mono; [|exact H1]|eapply R_mono; [|apply IH]];
      rewrite (file_paths_cons e es); set_solver.
  - eapply R_mono; [|exact H1]. rewrite (file_paths_cons e es). set_solver.
  - eapply R_mono; [|exact H1]. rewrite (file_paths_cons e es). set_solver.
Qed.

Lemma delta_loop_frames fuel : ∀ es seen w,
  R (file_paths es) w (delta_loop fuel (page (dbx w) es) seen w).2.
Proof.
  induction fuel as [|fuel IH]; intros es seen w; [reflexivity|].
  cbn [delta_loop]. unfold bind at 1.
  pose proof (process_remote_entries_frames (entries (page (dbx w) es)) seen w) as H1.
  pose proof (process_remote_entries_dbx (entries (page (dbx w) es)) seen w) as Hd.
  assert (file_paths es = file_paths (entries (page (dbx w) es))
                          ∪ file_paths (cursor (page (dbx w) es))) as HS
    by (by rewrite <- file_paths_app, page_parts).
  destruct (process_remote_entries _ seen w) as [[s1|x|] w1]; cbn [fst snd] in *.
  - destruct (has_more (page (dbx w) es)); cbn [negb].
    + rewrite (bind_ok _ _ _ _ _ (files_list_folder_continue_run _ _)).
      set (w2 := with_log _ w1).
      pose proof (IH (cursor (page (dbx w) es)) s1 w2) as H2.
      change (dbx w2) with (dbx w1) in H2.
      etrans; [eapply R_mono; [|exact H1]; set_solver|].
      etrans; [apply (R_continue _ w1)|].
      eapply R_mono; [|exact H2]. set_solver.
    + eapply R_mono; [|exact H1]. set_solver.
  - eapply R_mono; [|exact H1]. set_solver.
  - eapply R_mono; [|exact H1]. set_solver.
Qed.
End Listing.

Lemma delta_loop_listed_any fuel es seen w :
  listed (file_paths es) w (delta_loop fuel (page (dbx w) es) seen w).2.
Proof.
  apply (delta_loop_frames listed).
  - intros. by eapply listed_mono.
  - apply process_remote_entry_listed.
  - intros S w'. by apply listed_emit.
Qed.

Lemma delta_loop_kept fuel es seen w :
  kept_outside (file_paths es) w (delta_loop fuel (page (dbx w) es) seen w).2.
Proof.
  apply (delta_loop_frames kept_outside).
  - intros. by eapply kept_outside_mono.
  - apply process_remote_entry_kept.
  - by intros S w' p n.
Qed.

(** One turn of the sweep. *)
Lemma sweep_body_step seen k w :
  is_Some (remote_files (state w) !! k) →
  (sweep_body seen k w).1 = Ok tt
  ∧ (∀ p, p ≠ k →
          tree (sweep_body seen k w).2 !! p = tree w !! p
          ∧ local_files (state (sweep_body seen k w).2) !! p
            = local_files (state w) !! p
          ∧ remote_files (state (sweep_body seen k w).2) !! p
            = remote_files (state w) !! p)
  ∧ tree (sweep_body seen k w).2 !! k
    = if bool_decide ((k ∉ seen) ∧ is_Some (local_files (state w) !! k))
      then match tree w !! k with
           | Some n => if is_dir n then Some n else None
           | None => None
           end
      else tree w !! k.
Proof.
  intros [y Hr]. destruct (sweep_body seen k w) as [res w'] eqn:Hrun.
  cbn [fst snd]. unfold sweep_body in Hrun.
  destruct (decide (k ∈ seen)) as [Hin|Hin].
  { rewrite bool_decide_false in Hrun by (by intros ?).
    rewrite (bool_decide_false (_ ∧ _)) by tauto.
    unfold ret in Hrun. by simplify_eq. }
  rewrite bool_decide_true in Hrun by done.
  rewrite (bind_ok _ _ _ _ _ (eq_refl : get w = (Ok w, w))) in Hrun.
  destruct (local_files (state w) !! k) as [x|] eqn:Hl.
  - rewrite bool_decide_true by eauto.
    rewrite delete_local_steps, del_pair_run in Hrun.
    set (w2 := (match tree w !! k with
                | Some n => if is_dir n then id else with_tree (delete k)
                | None => id
                end) _) in Hrun.
    assert (state w2 = state w) as Hs.
    { subst w2. by destruct (tree w !! k) as [n|]; [destruct (is_dir n)|]. }
    assert (tree w2 = match tree w !! k with
                      | Some n => if is_dir n then tree w else delete k (tree w)
                      | None => tree w
                      end) as Ht.
    { subst w2. by destruct (tree w !! k) as [n|]; [destruct (is_dir n)|]. }
    rewrite Hs, Hl, Hr in Hrun. simplify_eq. cbn. rewrite Ht, Hs.
    split; [done|]. split.
    + intros p Hne. rewrite !lookup_delete_ne by done. split; [|done].
      destruct (tree w !! k) as [n|]; [destruct (is_dir n)|]; try done.
      by rewrite lookup_delete_ne.
    + destruct (tree w !! k) as [n|] eqn:Hk; [destruct (is_dir n)|]; try done.
      apply lookup_delete_eq.
  - rewrite bool_decide_false by (by intros [_ [??]]).
    unfold ret in Hrun. by simplify_eq.
Qed.

(** The sweep and the tree: the regular files at the paths it deletes are
    removed, and nothing else. *)
Lemma sweep_tree seen keys : ∀ w,
  NoDup keys →
  (∀ k, k ∈ keys → is_Some (remote_files (state w) !! k)) →
  ∀ p, tree (for_each keys (sweep_body seen) w).2 !! p
       = if bool_decide (p ∈ keys ∧ (p ∉ seen) ∧ is_Some (local_files (state w) !! p))
         then match tree w !! p with
              | Some n => if is_dir n then Some n else None
              | None => None
              end
         else tree w !! p.
Proof.
  induction keys as [|k keys IH]; intros w Hnd Hrem p.
  { cbn [for_each]. unfold ret. cbn [snd].
    case_bool_decide as Hc; [|done]. destruct Hc as [Hc _]. by apply elem_of_nil in Hc. }
  apply NoDup_cons in Hnd as [Hk Hnd].
  destruct (sweep_body_step seen k w) as (Hok & Hother & Hthis); [apply Hrem; set_solver|].
  cbn [for_each]. unfold bind.
  destruct (sweep_body seen k w) as [[[]|e|] w1]; cbn [fst snd] in *; try done.
  rewrite IH; [|done|].
  - destruct (decide (p = k)) as [->|Hne].
    + rewrite (bool_decide_false (k ∈ keys ∧ _)) by tauto. rewrite Hthis.
      destruct (decide ((k ∉ seen) ∧ is_Some (local_files (state w) !! k))).
      * rewrite !bool_decide_true; [done| |done]. set_solver.
      * rewrite !bool_decide_false; [done| |done]. set_solver.
    + destruct (Hother p Hne) as (-> & -> & _).
      destruct (decide (p ∈ keys ∧ (p ∉ seen) ∧ is_Some (local_files (state w) !! p))).
      * rewrite !bool_decide_true; [done| |done]. set_solver.
      * rewrite !bool_decide_false; [done| |done]. set_solver.
  - intros k' Hk'. assert (k' ≠ k) as Hne by (intros ->; done).
    destruct (Hother k' Hne) as (_ & _ & ->). apply Hrem. set_solver.
Qed.

(** C3: in a remote pass, however it ends, every request for the listing
    and every download comes before the first local deletion, and a pass
    that raises deletes nothing.  A pass that returns has deleted locally
    the keys of [remote_files] at the start of the pass that are not file
    paths of the listing and are keys of [local_files], and no other path:
    these end in neither map, and the regular file at such a path is
    removed from the tree.  The two maps and the tree are as they were at
    any other path that is not a file path of the listing. *)
Theorem remote_pass_deletes_after_listing w :
  let out := execute_delta w in
  let seen := file_paths (listing (dbx w)) in
  ∃ l1 l2,
    log out.2 = log w ++ l1 ++ l2
    ∧ Call_files_list_folder "" true ∈ l1
    ∧ Forall (λ e, is_deletion e = false) l1
    ∧ Forall (λ e, is_deletion e = true) l2
    ∧ (out.1 = Ok tt ∨ (∃ e, out.1 = Raise e) ∧ l2 = [])
    ∧ ∀ path,
        (DeletingLocally path ∈ l2 ↔ out.1 = Ok tt ∧ swept (state w) seen path)
        ∧ (Os_remove path ∈ l2 ↔ out.1 = Ok tt ∧ swept (state w) seen path)
        ∧ (out.1 = Ok tt → swept (state w) seen path →
           local_files (state out.2) !! path = None
           ∧ remote_files (state out.2) !! path = None
           ∧ ∀ n, tree w !! path = Some n →
                  tree out.2 !! path = if is_dir n then Some n else None)
        ∧ (¬ (out.1 = Ok tt ∧ swept (state w) seen path) → path ∉ seen →
           local_files (state out.2) !! path = local_files (state w) !! path
           ∧ remote_files (state out.2) !! path = remote_files (state w) !! path
           ∧ ∀ n, tree w !! path = Some n → tree out.2 !! path = Some n).
Proof.
  cbn zeta. pose proof (execute_delta_total w) as Htotal.
  destruct (execute_delta w) as [res w'] eqn:Hrun. cbn [fst snd] in *.
  unfold execute_delta in Hrun.
  rewrite (bind_ok _ _ _ _ _ (files_list_folder_run _ _ _)) in Hrun.
  set (w0 := with_log _ w) in *.
  set (seen := file_paths (listing (dbx w))).
  pose proof (delta_loop_listed_any
    (S (length (cursor (page (dbx w0) (listing (dbx w0))))))
    (listing (dbx w0)) ∅ w0) as (Hd & (l1 & Hl1 & Hf1) & Hst).
  pose proof (delta_loop_kept
    (S (length (cursor (page (dbx w0) (listing (dbx w0))))))
    (listing (dbx w0)) ∅ w0) as Hkept.
  pose proof (delta_loop_listed
    (S (length (cursor (page (dbx w0) (listing (dbx w0))))))
    (listing (dbx w0)) ∅ w0) as Hseen.
  change (dbx w0) with (dbx w) in *. fold seen in Hst, Hkept, Hseen.
  unfold bind at 1 in Hrun.
  destruct (delta_loop _ _ ∅ w0) as [[s|e|] w1]; cbn [fst snd] in *.
  - destruct (Hseen s w1 eq_refl) as [-> _].
    rewrite (right_id_L ∅ (∪)) in *.
    rewrite (bind_ok _ _ _ _ _ (eq_refl : get w1 = (Ok w1, w1))) in Hrun.
    set (keys := (map_to_list (remote_files (state w1))).*1) in *.
    destruct (sweep_run seen keys w1) as (w'' & Hsweep & Hlog & Hfin).
    { apply NoDup_fst_map_to_list. }
    { intros k. unfold keys. by rewrite keys_elem. }
    pose proof (sweep_tree seen keys w1 (NoDup_fst_map_to_list _)
                  (λ k, proj1 (keys_elem _ k))) as Htree.
    rewrite Hsweep in Hrun, Htree. cbn [fst snd] in Htree. simplify_eq.
    assert (∀ path, swept (state w) seen path ↔
                    path ∈ keys ∧ (path ∉ seen)
                    ∧ is_Some (local_files (state w1) !! path)) as Hswept.
    { intros path. unfold swept, keys. rewrite keys_elem, !elem_of_dom.
      destruct (decide (path ∈ seen)) as [|Hout]; [tauto|].
      destruct (Hst path Hout) as [-> ->]. simpl. tauto. }
    exists (Call_files_list_folder "" true :: l1), (sweep_log (state w1) seen keys).
    split; [rewrite Hlog, Hl1; subst w0; simpl; by rewrite <- !app_assoc|].
    split; [set_solver|]. split; [by constructor|].
    split; [apply sweep_log_deletions|]. split; [by left|].
    intros path. rewrite !sweep_log_elem, Hswept. split; [|split; [|split]].
    + split; [intros (k & ? & ? & ? & [?|?]); by simplify_eq|].
      intros (_ & ? & ? & ?). exists path. tauto.
    + split; [intros (k & ? & ? & ? & [?|?]); by simplify_eq|].
      intros (_ & ? & ? & ?). exists path. tauto.
    + intros _ Hsw. destruct (Hfin path) as [-> ->]. unfold after_sweep.
      rewrite !bool_decide_true by done. split; [done|]. split; [done|].
      intros n Hn. rewrite Htree, bool_decide_true by done.
      destruct Hsw as (_ & Hout & _).
      by rewrite (Hkept path n Hout Hn).
    + intros Hsw Hout. destruct (Hfin path) as [-> ->]. unfold after_sweep.
      rewrite !bool_decide_false by tauto. destruct (Hst path Hout) as [-> ->].
      split; [done|]. split; [done|]. intros n Hn.
      rewrite Htree, bool_decide_false by tauto. by apply Hkept.
  - simplify_eq.
    exists (Call_files_list_folder "" true :: l1), [].
    split; [rewrite Hl1; subst w0; simpl; by rewrite app_nil_r, <- !app_assoc|].
    split; [set_solver|]. split; [by constructor|]. split; [done|].
    split; [right; eauto|]. intros path.
    split; [split; [by intros ?%elem_of_nil|by intros [? _]]|].
    split; [split; [by intros ?%elem_of_nil|by intros [? _]]|].
    split; [done|]. intros _ Hout. destruct (Hst path Hout) as [-> ->].
    split; [done|]. split; [done|]. intros n Hn. by apply Hkept.
  - by simplify_eq.
Qed.

(** A pass that raises on its way through the listing: nothing is
    deleted, though ["a"] is recorded and no longer listed. *)
Example remote_pass_raises_before_sweep :
  let w := {| state := synced "a" "r1" 1;
              tree := {[ "a" := file 1 3; "b" := folder 1 ]}; now := 10;
              dbx := box {[ "/b" := RFile "r2" 4 ]}; log := [] |} in
  (execute_delta w).1 = Raise (IOError EISDIR "b")
  ∧ tree (execute_delta w).2 = tree w
  ∧ state (execute_delta w).2 = state w.
Proof. vm_compute. done. Qed.
